(** * Verification of [generate_calendar.py]

    A shallow embedding of the calendar generator: the tax calculator
    [compute_net] over IEEE-754 binary64 numbers, the date normaliser
    [safe_parse_date], the per-ticker fetcher [fetch_info_for_ticker], the
    holdings loop [build_events_from_holdings], the FX lookup [get_fx_rate],
    the calendar writer [write_ics_file] and the main block [main].

    Python [float] is binary64; it is modelled by [spec_float] with the
    operations of [SpecFloat] at precision 53 and maximal exponent 1024.
    Exceptions are values of [result]; code that mutates and may raise runs
    in a state-and-exception monad whose state survives a raise, as Python
    objects do.  The market-data, FX and date-parsing libraries are fields of
    an environment record. *)

From Stdlib Require Import ZArith List String Ascii Bool Lia Permutation Sorted.
From Stdlib Require Import Floats.SpecFloat.
From Stdlib Require Import QArith Qminmax Lqa.
Import ListNotations.
Local Close Scope Q_scope.
Local Open Scope Z_scope.

Set Implicit Arguments.

(* ================================================================== *)
(** * Part I. The model                                                *)
(* ================================================================== *)

(** ** Strings *)

Definition is_lower (c : ascii) : bool :=
  let n := nat_of_ascii c in (Nat.leb 97 n && Nat.leb n 122)%bool.

(** [str.upper()] on the ASCII range. *)
Definition upper_char (c : ascii) : ascii :=
  if is_lower c then ascii_of_nat (nat_of_ascii c - 32) else c.

Fixpoint upper (s : string) : string :=
  match s with
  | EmptyString => EmptyString
  | String c t => String (upper_char c) (upper t)
  end.

Definition is_space (c : ascii) : bool :=
  let n := nat_of_ascii c in
  ((Nat.leb 9 n && Nat.leb n 13) || (Nat.leb 28 n && Nat.leb n 32))%bool.

Fixpoint lstrip (s : string) : string :=
  match s with
  | EmptyString => EmptyString
  | String c t => if is_space c then lstrip t else s
  end.

Fixpoint rstrip (s : string) : string :=
  match s with
  | EmptyString => EmptyString
  | String c t =>
      match rstrip t with
      | EmptyString => if is_space c then EmptyString else String c EmptyString
      | t' => String c t'
      end
  end.

(** [str.strip()]. *)
Definition strip (s : string) : string := rstrip (lstrip s).

Definition str_eqb (a b : string) : bool := String.eqb a b.

(** A string given by its UTF-8 bytes, for the non-ASCII literals. *)
Definition utf8 (bs : list nat) : string :=
  fold_right (fun b acc => String (ascii_of_nat b) acc) EmptyString bs.

Definition digit_char (d : Z) : ascii := ascii_of_nat (48 + Z.to_nat d).

(** The last [w] decimal digits of [n], most significant first. *)
Fixpoint digits_fixed (w : nat) (n : Z) (acc : string) : string :=
  match w with
  | O => acc
  | S w' => digits_fixed w' (n / 10) (String (digit_char (n mod 10)) acc)
  end.

Fixpoint digits_fuel (fuel : nat) (n : Z) (acc : string) : string :=
  match fuel with
  | O => acc
  | S f =>
      let acc' := String (digit_char (n mod 10)) acc in
      if n / 10 =? 0 then acc' else digits_fuel f (n / 10) acc'
  end.

(** [str(n)] for an [int]. *)
Definition str_of_int (n : Z) : string :=
  let body := digits_fuel (S (Z.to_nat (Z.log2 (Z.abs n)))) (Z.abs n) EmptyString in
  if n <? 0 then String "-"%char body else body.

(** ** Exceptions *)

Inductive exc : Type :=
| ValueError | TypeError | AttributeError | KeyError | NameError
| OverflowError | ParserError | OtherError (msg : string).

Inductive result (A : Type) : Type :=
| Ok (a : A)
| Raise (e : exc).
Arguments Ok {A} a.
Arguments Raise {A} e.

(** State-and-exception monad: the state is kept when an exception is
    raised, since the objects mutated before the raise stay mutated. *)
Definition M (S A : Type) : Type := S -> result A * S.

Definition ret {S A} (a : A) : M S A := fun s => (Ok a, s).

Definition bind {S A B} (m : M S A) (k : A -> M S B) : M S B :=
  fun s => match m s with
           | (Ok a, s') => k a s'
           | (Raise e, s') => (Raise e, s')
           end.

Definition raise {S A} (e : exc) : M S A := fun s => (Raise e, s).

Definition lift {S A} (r : result A) : M S A := fun s => (r, s).

Definition get {S} : M S S := fun s => (Ok s, s).

Definition modify {S} (f : S -> S) : M S unit := fun s => (Ok tt, f s).

(** [try: body except Exception as e: handler e]. *)
Definition try_except {S A} (body : M S A) (handler : exc -> M S A) : M S A :=
  fun s => match body s with
           | (Ok a, s') => (Ok a, s')
           | (Raise e, s') => handler e s'
           end.

(** [for x in xs: body x]. *)
Fixpoint for_each {S A} (xs : list A) (body : A -> M S unit) : M S unit :=
  match xs with
  | [] => ret tt
  | x :: rest => bind (body x) (fun _ => for_each rest body)
  end.

Declare Scope py_scope.
Delimit Scope py_scope with py.
Notation "x <- m ;; k" := (bind m (fun x => k))
  (at level 61, m at next level, right associativity) : py_scope.
Notation "m ;;; k" := (bind m (fun _ => k))
  (at level 61, right associativity) : py_scope.

(** ** Calendar dates *)

Record date : Type := mkdate { year : Z; month : Z; day : Z }.

Definition date_compare (a b : date) : comparison :=
  match year a ?= year b with
  | Eq => match month a ?= month b with
          | Eq => day a ?= day b
          | c => c
          end
  | c => c
  end.

Definition date_eqb (a b : date) : bool :=
  match date_compare a b with Eq => true | _ => false end.

Definition date_leb (a b : date) : bool :=
  match date_compare a b with Gt => false | _ => true end.

Definition date_ltb (a b : date) : bool :=
  match date_compare a b with Lt => true | _ => false end.

Definition is_leap (y : Z) : bool :=
  ((y mod 4 =? 0) && (negb (y mod 100 =? 0) || (y mod 400 =? 0)))%bool.

Definition days_in_month (y m : Z) : Z :=
  if m =? 2 then (if is_leap y then 29 else 28)
  else if (m =? 4) || (m =? 6) || (m =? 9) || (m =? 11) then 30
  else 31.


(** [d.isoformat()], which is also [str(d)]: [YYYY-MM-DD]. *)
Definition isoformat (d : date) : string :=
  digits_fixed 4 (year d)
    (String "-"%char
       (digits_fixed 2 (month d)
          (String "-"%char (digits_fixed 2 (day d) EmptyString)))).

(** A [datetime]: a date and the seconds elapsed in that day. *)
Record datetime : Type := mkdatetime { dt_date : date; dt_seconds : Z }.

(** [datetime.combine(d, datetime.min.time())]. *)
Definition at_midnight (d : date) : datetime := mkdatetime d 0.

(** ** Binary64 numbers *)

Definition prec64 : Z := 53.
Definition emax64 : Z := 1024.

Definition float : Type := spec_float.

Definition fmul : float -> float -> float := SFmul prec64 emax64.
Definition fsub : float -> float -> float := SFsub prec64 emax64.
Definition fdiv : float -> float -> float := SFdiv prec64 emax64.

(** [a < b] and [a == b] on floats; both false on NaN ([a <= b] is
    [SFleb]). *)
Definition fltb : float -> float -> bool := SFltb.
Definition feqb : float -> float -> bool := SFeqb.

Definition is_nan (x : float) : bool :=
  match x with S754_nan => true | _ => false end.

Definition is_finite (x : float) : bool :=
  match x with S754_zero _ | S754_finite _ _ _ => true | _ => false end.

(** The values a Python [float] can hold. *)
Definition is_float64 (x : float) : bool := valid_binary prec64 emax64 x.

Definition F0 : float := S754_zero false.

(** The nearest binary64 to the integer [n], ties to even. *)
Definition float_of_Z (n : Z) : float := binary_normalize prec64 emax64 n 0 false.

(** [float(n)] for an [int]: raises when [n] is too large. *)
Definition float_of_int (n : Z) : result float :=
  match float_of_Z n with
  | S754_infinity _ => Raise OverflowError
  | r => Ok r
  end.

(** The binary64 denoted by the decimal literal [n / 10^k]. *)
Definition float_lit (n : Z) (k : Z) : float :=
  fdiv (float_of_Z n) (float_of_Z (10 ^ k)).

Definition F1 : float := Eval vm_compute in float_lit 1 0.
Definition F100 : float := Eval vm_compute in float_lit 100 0.

(** [max(a, b)]: the first argument unless the second is greater. *)
Definition py_max (a b : float) : float := if fltb a b then b else a.

(** The integer nearest to [n / d], ties to even ([0 <= n], [0 < d]). *)
Definition round_half_even (n d : Z) : Z :=
  let q := n / d in
  match 2 * (n mod d) ?= d with
  | Lt => q
  | Gt => q + 1
  | Eq => if Z.even q then q else q + 1
  end.

(** The integer nearest to [m * 2^e * 10^6], ties to even. *)
Definition scaled6 (m : positive) (e : Z) : Z :=
  if 0 <=? e then Zpos m * 2 ^ e * 1000000
  else round_half_even (Zpos m * 1000000) (2 ^ (- e)).

(** The binary64 nearest to [k / 10^6], with sign [s]: what reading the
    decimal string back gives. *)
Definition strtod_e6 (s : bool) (k : Z) : float :=
  match k with
  | Zpos p =>
      let '(q, e, l) := SFdiv_core_binary prec64 emax64 (Zpos p) 0 1000000 0 in
      binary_round_aux prec64 emax64 s q e l
  | _ => S754_zero s
  end.

(** [round(x, 6)] on a float: NaN and the infinities are returned as they
    are; a finite [x] is rounded to six decimals (correctly, ties to even)
    and the decimal read back as the nearest binary64. *)
Definition round6 (x : float) : float :=
  match x with
  | S754_finite s m e => strtod_e6 s (scaled6 m e)
  | _ => x
  end.

(** ** The tax calculator *)

Record breakdown : Type := mkbreakdown {
  gross_total : float;
  withholding_foreign : float;
  spanish_tax_to_pay : float;
  net_total : float
}.

Definition SPANISH_RATE : float := Eval vm_compute in float_lit 19 2.
Definition DEFAULT_FOREIGN_WITHHOLDING : float := Eval vm_compute in float_lit 15 2.

(** The four amounts of [compute_net] before they are rounded. *)
Definition compute_net_raw (gross rate_foreign spanish_rate : float) : breakdown :=
  let withholding := fmul gross rate_foreign in
  let spanish_theoretical := fmul gross spanish_rate in
  let spanish_to_pay := py_max F0 (fsub spanish_theoretical withholding) in
  let net := fsub (fsub gross withholding) spanish_to_pay in
  mkbreakdown gross withholding spanish_to_pay net.

Definition compute_net (gross rate_foreign spanish_rate : float) : breakdown :=
  let raw := compute_net_raw gross rate_foreign spanish_rate in
  mkbreakdown (round6 (gross_total raw))
              (round6 (withholding_foreign raw))
              (round6 (spanish_tax_to_pay raw))
              (round6 (net_total raw)).

(** ** Python values seen by the date normaliser and the fetcher *)

(** The objects the code inspects, by what it can observe of them. *)
Inductive pyobj : Type :=
| PyNone
| PyFloat (f : float)
| PyInt (n : Z)
| PyStr (s : string)
| PyDate (d : date)
    (** a [datetime.date]: no [to_pydatetime], not missing, [str] is ISO *)
| PyTimestamp (r : result datetime)
    (** an object with [to_pydatetime]; [r] is what calling it gives *)
| PyOther (isna : result bool) (str : result string).
    (** any other object: what [pd.isna] and [str] give on it *)

Inductive number : Type := NInt (n : Z) | NFloat (f : float).

(** ** Collaborators and libraries *)

(** A table: row labels with the cells of each row. *)
Definition frame : Type := list (string * list pyobj).

Inductive cal_value : Type :=
| CalNone
| CalDict (d : list (string * pyobj))
| CalFrame (df : frame)
| CalOther (o : pyobj).

Record info_dict : Type := mkinfo {
  i_shortName : option string;
  i_longName : option string;
  i_lastDividendValue : option pyobj   (** [None]: the key is absent *)
}.

Record actions_frame : Type := mkactions {
  a_columns : list string;
  a_rows : list (pyobj * float)     (** index entry, value under 'Dividends' *)
}.

(** What each property of a [yf.Ticker] gives: a value or an exception. *)
Record ticker_handle : Type := mkhandle {
  tk_info : result info_dict;
  tk_calendar : result cal_value;
  tk_earnings_dates : result (option (list pyobj));   (** the index, or None *)
  tk_dividends : result (list (pyobj * pyobj));        (** [divs.items()] *)
  tk_actions : result (option actions_frame)
}.

Record fx_data : Type := mkfx {
  fx_result : option string;                 (** [data.get("result")] *)
  fx_rates : option (list (string * pyobj)) (** [None]: no "rates" key *)
}.

Record env : Type := mkenv {
  fromtimestamp : number -> result datetime;   (** local-zone conversion *)
  parser_parse : string -> result datetime;    (** [dateutil.parser.parse] *)
  float_of_str : string -> result float;       (** [float(s)] on a string *)
  DataFrame_from_dict : list (string * pyobj) -> result frame;
  set_order_dates : list date -> list date;    (** iteration order of a set *)
  set_order_pairs : list (date * float) -> list (date * float);
  yf_Ticker : string -> result ticker_handle;
  fx_latest : string -> result fx_data         (** GET .../latest/<base> *)
}.

(** A set is iterated in some order of its elements. *)
Definition env_sets_ok (E : env) : Prop :=
  (forall l, Permutation (set_order_dates E l) l) /\
  (forall l, Permutation (set_order_pairs E l) l).

(** ** Log lines and the world *)

Inductive log_line : Type :=
| LogFxMissing (base target : string)
| LogFxError (base target : string) (e : exc)
| LogInfoFailed (ticker : string) (e : exc)
| LogCalendarFailed (ticker : string) (e : exc)
| LogEarningsFailed (ticker : string) (e : exc)
| LogDividendsFailed (ticker : string) (e : exc)
| LogActionsFailed (ticker : string) (e : exc)
| LogProcessing (ticker name : string)
| LogHoldingError (ticker : string) (e : exc)
| LogFound (path : string) (n : nat)
| LogSaved (path : string) (n : nat)
| LogUpdated (path : string).

Record world : Type := mkworld {
  w_log : list log_line;        (** printed lines, oldest first *)
  w_requests : list string     (** base currencies asked of the FX service *)
}.

Definition world0 : world := mkworld [] [].

Definition print (l : log_line) (w : world) : world :=
  mkworld (w_log w ++ [l]) (w_requests w).

Definition request (base : string) (w : world) : world :=
  mkworld (w_log w) (w_requests w ++ [base]).

(** ** [get_fx_rate] *)

Definition EUR : string := "EUR"%string.

Fixpoint dict_get {V} (d : list (string * V)) (k : string) : option V :=
  match d with
  | [] => None
  | (k', v) :: rest => if str_eqb k' k then Some v else dict_get rest k
  end.

(** [float(x)]. *)
Definition py_float (E : env) (x : pyobj) : result float :=
  match x with
  | PyFloat f => Ok f
  | PyInt n => float_of_int n
  | PyStr s => float_of_str E s
  | _ => Raise TypeError
  end.

(** [base_currency or "EUR"]: [None] and the empty string are falsy. *)
Definition base_or_eur (b : option string) : string :=
  match b with
  | None => EUR
  | Some s => if str_eqb s EmptyString then EUR else s
  end.

(** [data.get("result") == "success" and target in data.get("rates", {})]. *)
Definition fx_has_rate (data : fx_data) (target : string) : bool :=
  match fx_result data with
  | Some r =>
      str_eqb r "success" &&
      match dict_get (match fx_rates data with Some rates => rates | None => [] end) target with
      | Some _ => true
      | None => false
      end
  | None => false
  end.

(** [data["rates"][target]]. *)
Definition fx_rate_of (data : fx_data) (target : string) : result pyobj :=
  match fx_rates data with
  | Some rates =>
      match dict_get rates target with Some v => Ok v | None => Raise KeyError end
  | None => Raise KeyError
  end.

Definition get_fx_rate (E : env) (base_currency : option string)
    (target_currency : string) : M world float :=
  (let base := upper (base_or_eur base_currency) in
   let target := upper target_currency in
   if str_eqb base target then ret F1
   else
     try_except
       (modify (request base) ;;;
        data <- lift (fx_latest E base) ;;
        if fx_has_rate data target then
          v <- lift (fx_rate_of data target) ;;
          lift (py_float E v)
        else
          modify (print (LogFxMissing base target)) ;;; ret F1)
       (fun e => modify (print (LogFxError base target e)) ;;; ret F1))%py.

(** ** [safe_parse_date] *)

Definition rbind {A B} (r : result A) (k : A -> result B) : result B :=
  match r with Ok a => k a | Raise e => Raise e end.

Definition is_none (x : pyobj) : bool :=
  match x with PyNone => true | _ => false end.

(** [isinstance(x, float) and math.isnan(x)]. *)
Definition is_nan_float (x : pyobj) : bool :=
  match x with PyFloat f => is_nan f | _ => false end.

Definition date_of (r : result datetime) : result (option date) :=
  rbind r (fun dt => Ok (Some (dt_date dt))).

(** The body of the [try] block, by the kind of object: numbers go to
    [datetime.fromtimestamp], objects with [to_pydatetime] are converted,
    what [pd.isna] reports missing gives [None], and the rest is printed
    with [str] and parsed. *)
Definition parse_date_body (E : env) (x : pyobj) : result (option date) :=
  match x with
  | PyInt n => date_of (fromtimestamp E (NInt n))
  | PyFloat f => date_of (fromtimestamp E (NFloat f))
  | PyTimestamp r => date_of r
  | PyNone => Ok None
  | PyStr s => date_of (parser_parse E s)
  | PyDate d => date_of (parser_parse E (isoformat d))
  | PyOther isna str =>
      rbind isna (fun na =>
        if na then Ok None
        else rbind str (fun s => date_of (parser_parse E s)))
  end.

Definition safe_parse_date (E : env) (x : pyobj) : result (option date) :=
  if is_none x || is_nan_float x then Ok None
  else match parse_date_body E x with
       | Ok r => Ok r
       | Raise _ => Ok None
       end.

(** ** [fetch_info_for_ticker] *)

(** The [out] dictionary while it is being filled, with the local
    [last_div_amount] and the world. *)
Record fetch_state : Type := mkfetch {
  out_shortName : option string;
  out_dividends : list (date * float);
  out_earnings : list (option date);
  out_exdiv : list (option date);
  last_div_amount : pyobj;
  f_world : world
}.

Definition fetch_init (w : world) : fetch_state :=
  mkfetch None [] [] [] (PyFloat F0) w.

Definition set_shortName (n : option string) (s : fetch_state) : fetch_state :=
  mkfetch n (out_dividends s) (out_earnings s) (out_exdiv s) (last_div_amount s) (f_world s).

Definition set_last_div (v : pyobj) (s : fetch_state) : fetch_state :=
  mkfetch (out_shortName s) (out_dividends s) (out_earnings s) (out_exdiv s) v (f_world s).

Definition add_dividend (p : date * float) (s : fetch_state) : fetch_state :=
  mkfetch (out_shortName s) (out_dividends s ++ [p]) (out_earnings s) (out_exdiv s)
          (last_div_amount s) (f_world s).

Definition add_earnings (ds : list (option date)) (s : fetch_state) : fetch_state :=
  mkfetch (out_shortName s) (out_dividends s) (out_earnings s ++ ds) (out_exdiv s)
          (last_div_amount s) (f_world s).

Definition add_exdiv (d : option date) (s : fetch_state) : fetch_state :=
  mkfetch (out_shortName s) (out_dividends s) (out_earnings s) (out_exdiv s ++ [d])
          (last_div_amount s) (f_world s).

Definition fetch_print (l : log_line) (s : fetch_state) : fetch_state :=
  mkfetch (out_shortName s) (out_dividends s) (out_earnings s) (out_exdiv s)
          (last_div_amount s) (print l (f_world s)).

(** [a or b] on optional strings: [None] and [""] are falsy. *)
Definition str_or (a b : option string) : option string :=
  match a with
  | Some s => if str_eqb s EmptyString then b else a
  | None => b
  end.

(** [x > 0]: a [TypeError] unless [x] is a number. *)
Definition py_gt0 (x : pyobj) : result bool :=
  match x with
  | PyFloat f => Ok (fltb F0 f)
  | PyInt n => Ok (0 <? n)
  | _ => Raise TypeError
  end.

Definition frame_empty (df : frame) : bool :=
  match df with
  | [] => true
  | (_, []) :: _ => true
  | _ => false
  end.

(** [label in cal.index]. *)
Definition in_index (df : frame) (label : string) : bool :=
  match dict_get df label with Some _ => true | None => false end.

(** [cal.loc[label][0]]. *)
Definition loc_first (df : frame) (label : string) : result pyobj :=
  match dict_get df label with
  | Some (c :: _) => Ok c
  | _ => Raise KeyError
  end.

Definition is_nil {A} (l : list A) : bool :=
  match l with [] => true | _ => false end.

(** Block 1: general information and the last dividend value. *)
Definition fetch_info_block (ticker : string) (tk : ticker_handle) : M fetch_state unit :=
  (try_except
     (info <- lift (tk_info tk) ;;
      modify (set_shortName (str_or (i_shortName info) (i_longName info))) ;;;
      modify (set_last_div
                (match i_lastDividendValue info with
                 | Some v => v
                 | None => PyFloat F0
                 end)))
     (fun e => modify (fetch_print (LogInfoFailed ticker e))))%py.

(** The next earnings date of the forward-looking calendar. *)
Definition cal_earnings_row (E : env) (df : frame) : M fetch_state unit :=
  (if in_index df "Earnings Date" then
     c <- lift (loc_first df "Earnings Date") ;;
     next_earn <- lift (safe_parse_date E c) ;;
     match next_earn with
     | Some d => modify (add_earnings [Some d])
     | None => ret tt
     end
   else ret tt)%py.

(** The next ex-dividend date. *)
Definition cal_exdiv_row (E : env) (df : frame) : M fetch_state unit :=
  (if in_index df "Ex-Dividend Date" then
     c <- lift (loc_first df "Ex-Dividend Date") ;;
     next_ex_div <- lift (safe_parse_date E c) ;;
     match next_ex_div with
     | Some d => modify (add_exdiv (Some d))
     | None => ret tt
     end
   else ret tt)%py.

(** The next pay date, paired with the last dividend value when that is
    greater than zero. *)
Definition cal_pay_row (E : env) (df : frame) : M fetch_state unit :=
  (if in_index df "Dividend Date" then
     c <- lift (loc_first df "Dividend Date") ;;
     next_pay_div <- lift (safe_parse_date E c) ;;
     match next_pay_div with
     | Some d =>
         st <- get ;;
         positive_amount <- lift (py_gt0 (last_div_amount st)) ;;
         if (positive_amount : bool) then
           amount <- lift (py_float E (last_div_amount st)) ;;
           modify (add_dividend (d, amount))
         else ret tt
     | None => ret tt
     end
   else ret tt)%py.

Definition calendar_rows (E : env) (df : frame) : M fetch_state unit :=
  (cal_earnings_row E df ;;; cal_exdiv_row E df ;;; cal_pay_row E df)%py.

(** The table the calendar value is turned into, or the exception raised
    for a shape that cannot be used. *)
Definition calendar_frame (E : env) (cal : cal_value) : result frame :=
  match cal with
  | CalNone => Raise ValueError
  | CalDict d => if is_nil d then Raise ValueError else DataFrame_from_dict E d
  | CalFrame df => Ok df
  | CalOther _ => Raise TypeError
  end.

(** Block 2: the forward-looking calendar, whatever shape it comes in. *)
Definition fetch_calendar_block (E : env) (ticker : string) (tk : ticker_handle)
    : M fetch_state unit :=
  (try_except
     (cal <- lift (tk_calendar tk) ;;
      df <- lift (calendar_frame E cal) ;;
      if frame_empty df then ret tt else calendar_rows E df)
     (fun e => modify (fetch_print (LogCalendarFailed ticker e))))%py.

Fixpoint map_result {A B} (f : A -> result B) (l : list A) : result (list B) :=
  match l with
  | [] => Ok []
  | x :: rest => rbind (f x) (fun y => rbind (map_result f rest) (fun ys => Ok (y :: ys)))
  end.

(** Block 3: the history of earnings dates. *)
Definition fetch_earnings_block (E : env) (ticker : string) (tk : ticker_handle)
    : M fetch_state unit :=
  (try_except
     (ed <- lift (tk_earnings_dates tk) ;;
      match ed with
      | Some index =>
          if is_nil index then ret tt
          else ds <- lift (map_result (safe_parse_date E) index) ;;
               modify (add_earnings ds)
      | None => ret tt
      end)
     (fun e => modify (fetch_print (LogEarningsFailed ticker e))))%py.

(** Block 4: the history of dividend payments. *)
Definition fetch_dividends_block (E : env) (ticker : string) (tk : ticker_handle)
    : M fetch_state unit :=
  (try_except
     (divs <- lift (tk_dividends tk) ;;
      if is_nil divs then ret tt
      else for_each divs (fun item =>
             pay_date <- lift (safe_parse_date E (fst item)) ;;
             match pay_date with
             | Some d =>
                 amount <- lift (py_float E (snd item)) ;;
                 modify (add_dividend (d, amount))
             | None => ret tt
             end))
     (fun e => modify (fetch_print (LogDividendsFailed ticker e))))%py.

(** Block 5: the ex-dividend dates, from the corporate actions. *)
Definition fetch_actions_block (E : env) (ticker : string) (tk : ticker_handle)
    : M fetch_state unit :=
  (try_except
     (actions <- lift (tk_actions tk) ;;
      match actions with
      | Some a =>
          if existsb (str_eqb "Dividends") (a_columns a) then
            for_each (filter (fun r => fltb F0 (snd r)) (a_rows a)) (fun r =>
              ex_date <- lift (safe_parse_date E (fst r)) ;;
              match ex_date with
              | Some d => modify (add_exdiv (Some d))
              | None => ret tt
              end)
          else ret tt
      | None => ret tt
      end)
     (fun e => modify (fetch_print (LogActionsFailed ticker e))))%py.

Definition fetch_blocks (E : env) (ticker : string) (tk : ticker_handle)
    : M fetch_state unit :=
  (fetch_info_block ticker tk ;;;
   fetch_calendar_block E ticker tk ;;;
   fetch_earnings_block E ticker tk ;;;
   fetch_dividends_block E ticker tk ;;;
   fetch_actions_block E ticker tk)%py.

(** [set(l)]: elements are inserted in order, and one equal to an element
    already present is dropped. *)
Definition py_set {A} (eqb : A -> A -> bool) (l : list A) : list A :=
  fold_left (fun seen x => if existsb (fun y => eqb y x) seen then seen else seen ++ [x]) l [].

(** Stable insertion sort by a key order: what [sorted] computes. *)
Fixpoint insert_sorted {A} (leb : A -> A -> bool) (x : A) (l : list A) : list A :=
  match l with
  | [] => [x]
  | y :: rest => if leb x y then x :: y :: rest else y :: insert_sorted leb x rest
  end.

Definition sorted {A} (leb : A -> A -> bool) (l : list A) : list A :=
  fold_right (insert_sorted leb) [] l.

(** [[d for d in l if d]]. *)
Definition truthy_dates (l : list (option date)) : list date :=
  flat_map (fun o => match o with Some d => [d] | None => [] end) l.

(** Equality of [(date, amount)] tuples. *)
Definition pair_eqb (p q : date * float) : bool :=
  date_eqb (fst p) (fst q) && feqb (snd p) (snd q).

Definition by_date (p q : date * float) : bool := date_leb (fst p) (fst q).

Definition clean_dates (E : env) (l : list (option date)) : list date :=
  sorted date_leb (set_order_dates E (py_set date_eqb (truthy_dates l))).

Definition clean_pairs (E : env) (l : list (date * float)) : list (date * float) :=
  sorted by_date (set_order_pairs E (py_set pair_eqb l)).

Record ticker_info : Type := mkticker_info {
  shortName : option string;
  dividends_history : list (date * float);
  earnings_dates : list date;
  ex_dividend_dates : list date
}.

(** The last three assignments and the [return]. *)
Definition fetch_cleanup (E : env) (s : fetch_state) : ticker_info :=
  mkticker_info (out_shortName s)
                (clean_pairs E (out_dividends s))
                (clean_dates E (out_earnings s))
                (clean_dates E (out_exdiv s)).

(** What the fetcher does once [yf.Ticker] has returned. *)
Definition fetch_from_handle (E : env) (ticker : string) (tk : ticker_handle)
    (w : world) : result ticker_info * world :=
  let '(r, s) := fetch_blocks E ticker tk (fetch_init w) in
  (rbind r (fun _ => Ok (fetch_cleanup E s)), f_world s).

Definition fetch_info_for_ticker (E : env) (ticker : string) : M world ticker_info :=
  fun w => match yf_Ticker E ticker with
           | Ok tk => fetch_from_handle E ticker tk w
           | Raise e => (Raise e, w)
           end.

(** ** Events *)

(** A formatted string, kept as its pieces: the numbers printed with a
    fixed number of decimals or with [str] are not spelled out. *)
Inductive frag : Type :=
| TStr (s : string)
| TFix (decimals : nat) (x : float)    (** [{x:.nf}] *)
| TRepr (x : float).                   (** [{x}] *)

Definition text : Type := list frag.

Record event : Type := mkevent {
  ev_date : option date;
  ev_summary : text;
  ev_description : text;
  ev_color : string;
  ev_ticker : string
}.

(** ** [build_events_from_holdings] *)

(** A cell of the holdings table read with [dtype=str]. *)
Inductive cell : Type :=
| CellAbsent            (** the column does not exist *)
| CellNaN               (** an empty field *)
| CellStr (s : string).

Record holding_row : Type := mkrow {
  row_ticker : cell;
  row_country : cell;
  row_cantidad : Z;      (** already coerced to an integer *)
  row_name : cell;
  row_market : cell
}.

Definition FOREIGN_WITHHOLDING : list (string * float) :=
  Eval vm_compute in
  [ ("ES"%string, float_lit 19 2); ("US"%string, float_lit 30 2);
    ("GB"%string, F0); ("FR"%string, float_lit 128 3);
    ("BR"%string, float_lit 15 2); ("SE"%string, float_lit 30 2) ].

Definition MARKET_CURRENCY : list (string * string) :=
  [ ("BME", "EUR"); ("EPA", "EUR"); ("LON", "GBP"); ("STO", "SEK");
    ("NASDAQ", "USD"); ("NYSE", "USD") ]%string.

Definition F001 : float := Eval vm_compute in float_lit 1 2.

(** [d.get(k, default)]. *)
Definition dict_get_default {V} (d : list (string * V)) (k : string) (default : V) : V :=
  match dict_get d k with Some v => v | None => default end.

(** The loop's state: the list [events], the local variable [ticker]
    ([None] while it is unbound) and the world. *)
Record build_state : Type := mkbuild {
  b_events : list event;
  b_ticker : option string;
  b_world : world
}.

Definition add_event (ev : event) (s : build_state) : build_state :=
  mkbuild (b_events s ++ [ev]) (b_ticker s) (b_world s).

Definition bind_ticker (t : string) (s : build_state) : build_state :=
  mkbuild (b_events s) (Some t) (b_world s).

Definition build_print (l : log_line) (s : build_state) : build_state :=
  mkbuild (b_events s) (b_ticker s) (print l (b_world s)).

(** Runs a computation on the world inside the loop. *)
Definition in_world {A} (m : M world A) : M build_state A :=
  fun s => let '(r, w) := m (b_world s) in
           (r, mkbuild (b_events s) (b_ticker s) w).

(** [row['ticker'].strip()]. *)
Definition required_strip (c : cell) : result string :=
  match c with
  | CellAbsent => Raise KeyError
  | CellNaN => Raise AttributeError
  | CellStr s => Ok (strip s)
  end.

(** [row.get(col, '').strip().upper()]. *)
Definition optional_strip_upper (c : cell) : result string :=
  match c with
  | CellAbsent => Ok EmptyString
  | CellNaN => Raise AttributeError
  | CellStr s => Ok (upper (strip s))
  end.

(** [row.get('name') or ticker]; a NaN is truthy and prints as [nan]. *)
Definition name_or (c : cell) (ticker : string) : string :=
  match c with
  | CellAbsent => ticker
  | CellNaN => "nan"%string
  | CellStr s => if str_eqb s EmptyString then ticker else s
  end.

Definition nl : string := utf8 [10%nat].
Definition dash : string := utf8 [226; 128; 147]%nat.
Definition emoji_calendar : string := utf8 [240; 159; 147; 133]%nat.
Definition emoji_banknote : string := utf8 [240; 159; 146; 181]%nat.
Definition emoji_moneybag : string := utf8 [240; 159; 146; 176]%nat.
Definition euro_sign : string := utf8 [226; 130; 172]%nat.
Definition a_acute : string := utf8 [195; 161]%nat.
Definition n_tilde : string := utf8 [195; 177]%nat.

Definition ex_dividend_event (company_name ticker : string) (ex_date : date) : event :=
  mkevent (Some ex_date)
    [TStr emoji_calendar; TStr "Ex-Div "; TStr dash; TStr " "; TStr company_name]
    [TStr company_name; TStr " ("; TStr ticker; TStr ")"; TStr nl;
     TStr "Fecha Ex-Dividendo (corte): "; TStr (isoformat ex_date)]
    "orange" ticker.

Definition dividend_event (company_name ticker currency : string) (cantidad : Z)
    (scale fx rate_foreign : float) (calc : breakdown)
    (div_date : date) (div_amount : float) : event :=
  mkevent (Some div_date)
    [TStr emoji_banknote; TStr "Div ("; TFix 2 (net_total calc); TStr euro_sign;
     TStr ") "; TStr dash; TStr " "; TStr company_name]
    [TStr company_name; TStr " ("; TStr ticker; TStr ")"; TStr nl;
     TStr "Fecha de PAGO: "; TStr (isoformat div_date); TStr nl;
     TStr "Cantidad: "; TStr (str_of_int cantidad); TStr " acciones"; TStr nl;
     TStr "Div x Acc: "; TFix 4 (fmul div_amount scale); TStr " "; TStr currency; TStr nl;
     TStr "--- C"; TStr a_acute; TStr "lculo en EUR (FX: "; TFix 4 fx; TStr ") ---"; TStr nl;
     TStr "NETO: "; TFix 2 (net_total calc); TStr " EUR"; TStr nl;
     TStr "Bruto: "; TFix 2 (gross_total calc); TStr " EUR"; TStr nl;
     TStr "Ret. Origen ("; TRepr (fmul rate_foreign F100); TStr "%): -";
     TFix 2 (withholding_foreign calc); TStr " EUR"; TStr nl;
     TStr "Ret. Espa"; TStr n_tilde; TStr "a (dif): -";
     TFix 2 (spanish_tax_to_pay calc); TStr " EUR"]
    "green" ticker.

Definition earnings_event (company_name ticker : string) (earn_date : date) : event :=
  mkevent (Some earn_date)
    [TStr emoji_moneybag; TStr "Result "; TStr dash; TStr " "; TStr company_name]
    [TStr company_name; TStr " ("; TStr ticker; TStr ")"; TStr nl;
     TStr "Fecha de resultados: "; TStr (isoformat earn_date)]
    "blue" ticker.

(** [div_amount and div_amount > 0]. *)
Definition positive_amount (x : float) : bool :=
  match x with
  | S754_zero _ => false
  | _ => fltb F0 x
  end.

(** The body of the [try] for one row. *)
Definition process_holding (E : env) (row : holding_row) : M build_state unit :=
  (ticker <- lift (required_strip (row_ticker row)) ;;
   modify (bind_ticker ticker) ;;;
   if str_eqb ticker EmptyString then ret tt
   else
     country <- lift (optional_strip_upper (row_country row)) ;;
     let cantidad := row_cantidad row in
     let name := name_or (row_name row) ticker in
     market <- lift (optional_strip_upper (row_market row)) ;;
     if cantidad =? 0 then ret tt
     else
       modify (build_print (LogProcessing ticker name)) ;;;
       info <- in_world (fetch_info_for_ticker E ticker) ;;
       let company_name :=
         match str_or (shortName info) (Some name) with Some n => n | None => name end in
       let currency := dict_get_default MARKET_CURRENCY market "USD"%string in
       let scale := if str_eqb market "LON" then F001 else F1 in
       fx <- in_world (get_fx_rate E (Some currency) EUR) ;;
       let rate_foreign :=
         dict_get_default FOREIGN_WITHHOLDING country DEFAULT_FOREIGN_WITHHOLDING in
       for_each (ex_dividend_dates info) (fun ex_date =>
         modify (add_event (ex_dividend_event company_name ticker ex_date))) ;;;
       for_each (dividends_history info) (fun item =>
         let div_date := fst item in
         let div_amount := snd item in
         if positive_amount div_amount then
           shares <- lift (float_of_int cantidad) ;;
           let gross_local := fmul (fmul div_amount shares) scale in
           let gross_eur := fmul gross_local fx in
           let calc := compute_net gross_eur rate_foreign SPANISH_RATE in
           modify (add_event
                     (dividend_event company_name ticker currency cantidad scale fx
                        rate_foreign calc div_date div_amount))
         else ret tt) ;;;
       for_each (earnings_dates info) (fun earn_date =>
         modify (add_event (earnings_event company_name ticker earn_date))))%py.

(** The [except] clause: it prints the local [ticker], which raises a
    [NameError] when no row has bound it yet. *)
Definition holding_handler (e : exc) : M build_state unit :=
  (st <- get ;;
   match b_ticker st with
   | Some t => modify (build_print (LogHoldingError t e))
   | None => raise NameError
   end)%py.

Definition build_loop (E : env) (rows : list holding_row) : M build_state unit :=
  for_each rows (fun row => try_except (process_holding E row) holding_handler).

(** The loop over the rows of the table and the [return events]. *)
Definition build_events_from_holdings (E : env) (rows : list holding_row)
    : M world (list event) :=
  fun w => let '(r, s) := build_loop E rows (mkbuild [] None w) in
           (rbind r (fun _ => Ok (b_events s)), b_world s).

(** ** [write_ics_file] *)

Record ics_event : Type := mkics {
  ics_name : text;
  ics_begin : datetime;
  ics_all_day : bool;
  ics_description : text;
  ics_uid : string;
  ics_categories : list string
}.

(** [start_date <= event_date <= end_date], for an event that has a date. *)
Definition in_window (start_date end_date : date) (ev : event) : bool :=
  match ev_date ev with
  | Some d => date_leb start_date d && date_leb d end_date
  | None => false
  end.

Definition filtered_events (events_list : list event) (start_date end_date : date)
    : list event :=
  filter (in_window start_date end_date) events_list.

Definition uid_suffix : string := "@mi.calendario.financiero.v2".

Definition event_uid (ticker event_type : string) (d : date) : string :=
  (ticker ++ "-" ++ event_type ++ "-" ++ isoformat d ++ uid_suffix)%string.

(** The body of the second loop; [None] is the [continue]. *)
Definition make_ics_event (ev : event) : option ics_event :=
  match ev_date ev with
  | None => None
  | Some d =>
      Some (mkics (ev_summary ev) (at_midnight d) true (ev_description ev)
                  (event_uid (ev_ticker ev) (ev_color ev) d) [ev_color ev])
  end.

(** The events added to the calendar, in the order they are added. *)
Definition calendar_events (events_list : list event) (start_date end_date : date)
    : list ics_event :=
  flat_map (fun ev => match make_ics_event ev with Some e => [e] | None => [] end)
           (filtered_events events_list start_date end_date).

Definition emitted_uids (events_list : list event) (start_date end_date : date)
    : list string :=
  map ics_uid (calendar_events events_list start_date end_date).

(** The files written so far, newest binding first. *)
Definition files : Type := list (string * list ics_event).

Definition remove_file (path : string) (fs : files) : files :=
  filter (fun f => negb (str_eqb (fst f) path)) fs.

Definition write_ics_file (events_list : list event) (out_path : string)
    (start_date end_date : date) (fs : files) (w : world) : files * world :=
  let kept := filtered_events events_list start_date end_date in
  let w1 := print (LogFound out_path (List.length events_list)) w in
  let w2 := print (LogSaved out_path (List.length kept)) w1 in
  ((out_path, calendar_events events_list start_date end_date) :: remove_file out_path fs,
   print (LogUpdated out_path) w2).

(** ** Vocabulary of the statements *)

(** What identifies an event in the output: ticker, category and date. *)
Definition triple (ev : event) : string * string * option date :=
  (ev_ticker ev, ev_color ev, ev_date ev).

(** The identifier as a function of the triple alone. *)
Definition uid_of_triple (t : string * string * option date) : option string :=
  match t with
  | (ticker, category, Some d) => Some (event_uid ticker category d)
  | (_, _, None) => None
  end.

(** The content of the file at [path]. *)
Definition file_content (fs : files) (path : string) : option (list ics_event) :=
  dict_get fs path.


(** The state once the five sources have been read. *)
Definition fetch_collected (E : env) (ticker : string) (tk : ticker_handle)
    (w : world) : fetch_state :=
  snd (fetch_blocks E ticker tk (fetch_init w)).

(** The last dividend value the general information gives: [0.0] when the
    key is absent or the information could not be loaded. *)
Definition last_dividend_value (tk : ticker_handle) : pyobj :=
  match tk_info tk with
  | Ok info =>
      match i_lastDividendValue info with Some v => v | None => PyFloat F0 end
  | Raise _ => PyFloat F0
  end.

(** Every row of the table has a first cell. *)
Definition frame_wf (df : frame) : Prop :=
  Forall (fun r => snd r <> []) df.

(** No two elements, at different positions, are equal for [eqb]. *)
Definition pairwise_distinct {A} (eqb : A -> A -> bool) (l : list A) : Prop :=
  ForallOrdPairs (fun x y => eqb x y = false) l.

Definition date_lt (a b : date) : Prop := date_ltb a b = true.

Definition date_le_fst (p q : date * float) : Prop := by_date p q = true.

(** The pair the calendar's pay date [d] contributes, from the last
    dividend value [v]: none unless [v > 0] holds and [float(v)] returns. *)
Definition pay_pair (E : env) (d : date) (v : pyobj) : list (date * float) :=
  match py_gt0 v with
  | Ok true => match py_float E v with Ok a => [(d, a)] | Raise _ => [] end
  | _ => []
  end.

(** A step of the holdings loop keeps the local [ticker] bound once it is
    bound, and only appends to the event list. *)
Definition keeps {A} (m : M build_state A) : Prop :=
  forall s,
    (b_ticker s <> None -> b_ticker (snd (m s)) <> None)
    /\ exists l, b_events (snd (m s)) = b_events s ++ l.

(** ** Sample data *)

Definition holding_without_ticker : holding_row :=
  mkrow CellNaN (CellStr "US") 5 CellAbsent (CellStr "NASDAQ").

Definition holding_aapl : holding_row :=
  mkrow (CellStr "AAPL") (CellStr "US") 10 CellAbsent (CellStr "NASDAQ").

Definition holding_sold : holding_row :=
  mkrow (CellStr "MSFT") (CellStr "US") 0 CellAbsent (CellStr "NASDAQ").

Definition may10 : date := mkdate 2024 5 10.
Definition jun01 : date := mkdate 2024 6 1.
Definition jun30 : date := mkdate 2024 6 30.

(** A parser that knows one date string. *)
Definition sample_parse (s : string) : result datetime :=
  if str_eqb s "2024-05-10" then Ok (at_midnight may10) else Raise ParserError.

Definition sample_info : info_dict :=
  mkinfo (Some "Apple Inc."%string) None (Some (PyFloat F1)).

(** The calendar and the corporate actions both report the ex-dividend
    date of May 10th; the calendar also gives a pay date. *)
Definition sample_calendar : frame :=
  [ ("Ex-Dividend Date"%string, [PyDate may10]);
    ("Dividend Date"%string, [PyDate may10]) ].

Definition sample_handle : ticker_handle :=
  mkhandle (Ok sample_info)
           (Ok (CalFrame sample_calendar))
           (Raise (OtherError "no earnings"))
           (Ok [])
           (Ok (Some (mkactions ["Dividends"%string; "Stock Splits"%string]
                                [(PyTimestamp (Ok (at_midnight may10)), F1)]))).

Definition sample_env : env :=
  mkenv (fun _ => Raise OverflowError)
        sample_parse
        (fun _ => Raise ValueError)
        (fun _ => Raise ValueError)
        (fun l => l)
        (fun l => l)
        (fun _ => Ok sample_handle)
        (fun _ => Raise (OtherError "offline")).

Definition sample_exdiv : event :=
  mkevent (Some jun01) [TStr "Ex-Div"] [TStr "first"] "orange" "AAPL".

Definition sample_exdiv_again : event :=
  mkevent (Some jun01) [TStr "Ex-Div (bis)"] [TStr "second"] "orange" "AAPL".

Definition sample_late : event :=
  mkevent (Some jun30) [TStr "Ex-Div"] [] "orange" "AAPL".

(** ** Vocabulary of the rounding proofs *)

Definition b2z (b : bool) : Z := if b then 1 else 0.

Definition code_of_loc (l : location) : Z :=
  match l with
  | loc_Exact => 0
  | loc_Inexact Lt => 1
  | loc_Inexact Eq => 2
  | loc_Inexact Gt => 3
  end.

Definition enc (mrs : shr_record) : Z :=
  4 * shr_m mrs + 2 * b2z (shr_r mrs) + b2z (shr_s mrs).

(** Shifting right by [n] places with a sticky last bit. *)
Definition sshiftn (n x : Z) : Z :=
  2 * (x / 2 ^ (n + 1)) + (if x mod 2 ^ (n + 1) =? 0 then 0 else 1).

(** Nearest integer, ties to even, of a value with two fractional bits. *)
Definition rne (x : Z) : Z :=
  let m := x / 4 in
  let c := x mod 4 in
  if c <=? 1 then m
  else if c =? 2 then (if Z.even m then m else m + 1)
  else m + 1.

(** The value [N/D] with two fractional bits, the last one sticky. *)
Definition stk (N D : Z) : Z :=
  2 * (2 * N / D) + (if (2 * N) mod D =? 0 then 0 else 1).

(** The rounding of [binary_round_aux] on a mantissa with two fractional
    bits: the rounded mantissa and its exponent. *)
Definition round_enc (prec emax : Z) (x e : Z) : Z * Z :=
  let n1 := Z.max 0 (fexp prec emax (Zdigits2 (x / 4) + e) - e) in
  let m1 := rne (sshiftn n1 x) in
  let e1 := e + n1 in
  let n2 := Z.max 0 (fexp prec emax (Zdigits2 m1 + e1) - e1) in
  (m1 / 2 ^ n2, e1 + n2).

Definition float_of_pair (prec emax : Z) (s : bool) (me : Z * Z) : spec_float :=
  match fst me with
  | Z0 => S754_zero s
  | Zpos m => if snd me <=? emax - prec then S754_finite s m (snd me) else S754_infinity s
  | Zneg _ => S754_nan
  end.

(** The exponent the rounding of [X] (at exponent [K]) aims at. *)
Definition target (prec emax K : Z) (X : Z) : Z := fexp prec emax (Zdigits2 (X / 4) + K).

(** The rounded mantissa at that exponent. *)
Definition mant (prec emax K : Z) (X : Z) : Z :=
  rne (sshiftn (target prec emax K X - K) X).

(** The rounded value, in units of [2^K]. *)
Definition rounded (prec emax K : Z) (X : Z) : Z :=
  mant prec emax K X * 2 ^ (target prec emax K X - K).

(** ** Vocabulary of the binary64 proofs *)

(** The smallest exponent of binary64, and the exponent all exact
    products are multiples of. *)
Definition emin64 : Z := -1074.
Definition K64 : Z := -2148.

(** [2^1074]: the number of units of [2^-2148] in one unit of [2^-1074]. *)
Definition U64 : Z := 2 ^ 1074.

(** The value of a finite float in units of [2^-1074]; zero otherwise. *)
Definition units (x : float) : Z :=
  match x with
  | S754_finite s m e => cond_Zopp s (Zpos m * 2 ^ (e - emin64))
  | _ => 0
  end.

(** The binary64 nearest to [X / 4] units of [2^-2148], with sign [s]. *)
Definition rho (s : bool) (X : Z) : float :=
  float_of_pair prec64 emax64 s (round_enc prec64 emax64 X K64).

(** The value rounded by [rho], in units of [2^-2148]. *)
Definition rounded64 (X : Z) : Z := rounded prec64 emax64 K64 X.

(** A float that is a zero or a positive finite number. *)
Definition nonneg_finite (x : float) : bool :=
  is_float64 x &&
  match x with
  | S754_zero _ => true
  | S754_finite false _ _ => true
  | _ => false
  end.

(** A float that is not NaN and whose sign bit is [s]. *)
Definition has_sign (s : bool) (x : float) : Prop :=
  match x with
  | S754_zero s' | S754_infinity s' | S754_finite s' _ _ => s' = s
  | S754_nan => False
  end.

(** The binary64 nearest to [k / 10^6]. *)
Definition rho6 (k : Z) : float := rho false (stk (k * 2 ^ (- K64)) 1000000).

(** The integer nearest to [u * 10^6] units of [2^-1074], ties to even. *)
Definition scaled6_units (u : Z) : Z := rne (stk (u * 1000000) U64).

(** Where the remainder [r] of a division by [d] lies: the two bits after
    the binary point of the quotient, the second one sticky. *)
Definition remainder_code (r d : Z) : Z :=
  match 2 * r ?= d with
  | Lt => if r =? 0 then 0 else 1
  | Eq => 2
  | Gt => 3
  end.

(** ** Sample amounts *)

Definition f_1e6 : float := Eval vm_compute in float_lit 1 6.       (** 1e-06 *)
Definition f_6e7 : float := Eval vm_compute in float_lit 6 7.       (** 6e-07 *)
Definition f_half : float := Eval vm_compute in float_lit 5 1.      (** 0.5 *)
Definition f_030 : float := Eval vm_compute in float_lit 30 2.      (** 0.30 *)
Definition f_55 : float := Eval vm_compute in float_lit 55 0.       (** 55.0 *)

(** The identity between the four amounts of a breakdown. *)
Definition net_identity (b : breakdown) : Prop :=
  net_total b = fsub (fsub (gross_total b) (withholding_foreign b)) (spanish_tax_to_pay b).



(** ** The main program *)

(** A calendar date as [datetime.date] holds it. *)
Definition valid_date (d : date) : Prop :=
  1 <= year d <= 9999 /\ 1 <= month d <= 12 /\
  1 <= day d <= days_in_month (year d) (month d).

(** [d + relativedelta(months=n)] for [1 <= |n| <= 12]: the month is
    shifted, the year follows, and the day is clipped to the length of the
    month reached; a year outside 1..9999 is a [ValueError]. *)
Definition shift_months (d : date) (n : Z) : result date :=
  let month0 := month d + n in
  let y := if 12 <? month0 then year d + 1
           else if month0 <? 1 then year d - 1 else year d in
  let m := if 12 <? month0 then month0 - 12
           else if month0 <? 1 then month0 + 12 else month0 in
  if (1 <=? y) && (y <=? 9999)
  then Ok (mkdate y m (Z.min (days_in_month y m) (day d)))
  else Raise ValueError.






(** [[ev for ev in all_events if ev['color'] == color]]. *)
Definition of_color (color : string) (all_events : list event) : list event :=
  filter (fun ev => str_eqb (ev_color ev) color) all_events.



(** ** Vocabulary of the further properties *)

(** The three kinds of event the holdings loop builds. *)
Definition event_colors : list string := ["orange"; "green"; "blue"]%string.

(** An event as the holdings loop builds them: dated, of one of the three
    kinds, for a ticker that is not blank. *)
Definition well_formed_event (ev : event) : Prop :=
  (exists d, ev_date ev = Some d)
  /\ In (ev_color ev) event_colors
  /\ ev_ticker ev <> EmptyString.

(** A step of the holdings loop only appends events, all satisfying [P]. *)
Definition adds {A} (P : event -> Prop) (m : M build_state A) : Prop :=
  forall s, exists l, b_events (snd (m s)) = b_events s ++ l /\ Forall P l.

(** A step of the fetcher only appends to the list [proj] of its state,
    and only elements satisfying [P]. *)
Definition appends {X A} (proj : fetch_state -> list X) (P : X -> Prop)
    (m : M fetch_state A) : Prop :=
  forall s, exists l, proj (snd (m s)) = proj s ++ l /\ Forall P l.

(** What [safe_parse_date] returns, an exception counting as no value. *)
Definition parse_or_none (E : env) (x : pyobj) : option date :=
  match safe_parse_date E x with Ok r => r | Raise _ => None end.


(** The date the forward-looking calendar gives under [label]: none unless
    the calendar is a usable, non-empty table whose row [label] has a first
    cell that [safe_parse_date] turns into a date. *)
Definition calendar_date (E : env) (tk : ticker_handle) (label : string) : option date :=
  match tk_calendar tk with
  | Ok cal =>
      match calendar_frame E cal with
      | Ok df =>
          if frame_empty df then None
          else match loc_first df label with
               | Ok c => match safe_parse_date E c with
                         | Ok (Some d) => Some d
                         | _ => None
                         end
               | Raise _ => None
               end
      | Raise _ => None
      end
  | Raise _ => None
  end.

(** The dates of the rows of the corporate actions whose dividend is
    greater than zero. *)
Definition action_dates (E : env) (tk : ticker_handle) : list (option date) :=
  match tk_actions tk with
  | Ok (Some a) =>
      if existsb (str_eqb "Dividends") (a_columns a) then
        map (fun r => parse_or_none E (fst r))
            (filter (fun r => fltb F0 (snd r)) (a_rows a))
      else []
  | _ => []
  end.

(** The dates of the index of the earnings history. *)
Definition earnings_history_dates (E : env) (tk : ticker_handle) : list (option date) :=
  match tk_earnings_dates tk with
  | Ok (Some index) => map (parse_or_none E) index
  | _ => []
  end.

(** The fields of a date fit the widths [isoformat] prints them with. *)
Definition fits_iso (d : date) : Prop :=
  0 <= year d < 10000 /\ 0 <= month d < 100 /\ 0 <= day d < 100.

(** The rate withheld at source for a country code. *)
Definition rate_for (country : string) : float :=
  dict_get_default FOREIGN_WITHHOLDING country DEFAULT_FOREIGN_WITHHOLDING.

(** The events one holding contributes, from what the fetcher and the FX
    lookup returned for it. *)
Definition holding_events (company_name ticker currency : string) (cantidad : Z)
    (shares scale fx rate_foreign : float) (info : ticker_info) : list event :=
  map (ex_dividend_event company_name ticker) (ex_dividend_dates info)
  ++ flat_map (fun item =>
       if positive_amount (snd item) then
         [dividend_event company_name ticker currency cantidad scale fx rate_foreign
            (compute_net (fmul (fmul (fmul (snd item) shares) scale) fx)
                         rate_foreign SPANISH_RATE)
            (fst item) (snd item)]
       else []) (dividends_history info)
  ++ map (earnings_event company_name ticker) (earnings_dates info).

Definition sample_today : date := mkdate 2024 5 31.

(** What the fetcher returns for the sample ticker. *)
Definition sample_ticker_info : ticker_info :=
  mkticker_info (Some "Apple Inc."%string) [(may10, F1)] [] [may10].

(** An environment whose market-data library refuses every ticker. *)
Definition sample_env_refusing : env :=
  mkenv (fun _ => Raise OverflowError)
        sample_parse
        (fun _ => Raise ValueError)
        (fun _ => Raise ValueError)
        (fun l => l)
        (fun l => l)
        (fun _ => Raise (OtherError "unknown ticker"))
        (fun _ => Raise (OtherError "offline")).

(** A ticker with every source answering: the calendar announces earnings
    on May 10th, the earnings history has June 1st, the dividend history a
    payment of 0.5 on June 30th, and the corporate actions a dividend on
    May 10th and a split on June 1st. *)
Definition sample_handle_full : ticker_handle :=
  mkhandle (Ok sample_info)
           (Ok (CalFrame [("Earnings Date"%string, [PyDate may10])]))
           (Ok (Some [PyTimestamp (Ok (at_midnight jun01))]))
           (Ok [(PyTimestamp (Ok (at_midnight jun30)), PyFloat f_half)])
           (Ok (Some (mkactions ["Dividends"%string; "Stock Splits"%string]
                                [(PyTimestamp (Ok (at_midnight may10)), F1);
                                 (PyTimestamp (Ok (at_midnight jun01)), F0)]))).

Definition sample_env_full : env :=
  mkenv (fun _ => Raise OverflowError)
        sample_parse
        (fun _ => Raise ValueError)
        (fun _ => Raise ValueError)
        (fun l => l)
        (fun l => l)
        (fun _ => Ok sample_handle_full)
        (fun _ => Raise (OtherError "offline")).

(** A ticker none of whose sources answers. *)
Definition sample_handle_failing : ticker_handle :=
  mkhandle (Raise KeyError) (Raise ValueError) (Raise TypeError)
           (Raise AttributeError) (Raise (OtherError "timeout")).

Definition sample_env_failing : env :=
  mkenv (fun _ => Raise OverflowError)
        sample_parse
        (fun _ => Raise ValueError)
        (fun _ => Raise ValueError)
        (fun l => l)
        (fun l => l)
        (fun _ => Ok sample_handle_failing)
        (fun _ => Raise (OtherError "offline")).



(* ================================================================== *)
(** * Part II. Properties                                              *)
(* ================================================================== *)

(** ** Dates *)

Lemma date_compare_eq (a b : date) : date_compare a b = Eq <-> a = b.
Proof.
  destruct a as [y1 m1 d1], b as [y2 m2 d2]; unfold date_compare; simpl.
  destruct (Z.compare_spec y1 y2); destruct (Z.compare_spec m1 m2);
    destruct (Z.compare_spec d1 d2); split; intros Heq;
    try discriminate; try (inversion Heq; lia); subst; reflexivity.
Qed.

Lemma date_compare_lt (a b : date) :
  date_compare a b = Lt <->
  year a < year b \/ (year a = year b /\
    (month a < month b \/ (month a = month b /\ day a < day b))).
Proof.
  unfold date_compare.
  destruct (Z.compare_spec (year a) (year b));
    destruct (Z.compare_spec (month a) (month b));
    destruct (Z.compare_spec (day a) (day b));
    split; intros; try discriminate; try reflexivity; lia.
Qed.

Lemma date_compare_gt (a b : date) : date_compare a b = Gt <-> date_compare b a = Lt.
Proof.
  rewrite date_compare_lt. unfold date_compare.
  destruct (Z.compare_spec (year a) (year b));
    destruct (Z.compare_spec (month a) (month b));
    destruct (Z.compare_spec (day a) (day b));
    split; intros; try discriminate; try reflexivity; lia.
Qed.

Lemma date_eqb_eq (a b : date) : date_eqb a b = true <-> a = b.
Proof.
  unfold date_eqb. rewrite <- date_compare_eq.
  destruct (date_compare a b); split; congruence.
Qed.

Lemma date_eqb_refl (a : date) : date_eqb a a = true.
Proof. apply date_eqb_eq; reflexivity. Qed.

Lemma date_eqb_sym (a b : date) : date_eqb a b = date_eqb b a.
Proof.
  destruct (date_eqb a b) eqn:H1, (date_eqb b a) eqn:H2; try reflexivity.
  - apply date_eqb_eq in H1; subst. rewrite date_eqb_refl in H2; discriminate.
  - apply date_eqb_eq in H2; subst. rewrite date_eqb_refl in H1; discriminate.
Qed.

Lemma date_eq_dec (a b : date) : {a = b} + {a <> b}.
Proof.
  destruct (date_eqb a b) eqn:H.
  - left; apply date_eqb_eq; exact H.
  - right; intros ->; rewrite date_eqb_refl in H; discriminate.
Defined.


Lemma date_leb_total (a b : date) : date_leb a b = true \/ date_leb b a = true.
Proof.
  unfold date_leb. destruct (date_compare a b) eqn:H; auto.
  apply date_compare_gt in H. rewrite H; auto.
Qed.

Lemma date_leb_spec (a b : date) :
  date_leb a b = true <-> date_compare a b = Lt \/ a = b.
Proof.
  unfold date_leb. rewrite <- date_compare_eq.
  destruct (date_compare a b); split; intros; auto; try discriminate.
  destruct H; discriminate.
Qed.

Lemma date_leb_trans (a b c : date) :
  date_leb a b = true -> date_leb b c = true -> date_leb a c = true.
Proof.
  rewrite !date_leb_spec, !date_compare_lt.
  intros [H1 | ->] [H2 | ->]; auto.
  left; lia.
Qed.

Lemma date_ltb_spec (a b : date) :
  date_ltb a b = true <-> date_leb a b = true /\ a <> b.
Proof.
  unfold date_ltb. rewrite date_leb_spec, <- date_compare_eq.
  destruct (date_compare a b); split; intros H; try discriminate; try tauto.
  - split; [auto | discriminate].
  - destruct H as [[H | H] _]; discriminate.
Qed.

Lemma date_ltb_not_leb (a b : date) : date_ltb a b = true -> date_leb b a = false.
Proof.
  unfold date_ltb, date_leb. destruct (date_compare a b) eqn:H; try discriminate.
  intros _. assert (date_compare b a = Gt) as -> by (apply date_compare_gt; exact H).
  reflexivity.
Qed.


(** ** The calendar writer *)

Lemma in_window_spec (s e : date) (ev : event) :
  in_window s e ev = true <->
  exists d, ev_date ev = Some d /\ date_leb s d = true /\ date_leb d e = true.
Proof.
  unfold in_window. destruct (ev_date ev) as [d|].
  - rewrite andb_true_iff. split.
    + intros [H1 H2]; exists d; auto.
    + intros (d' & Hd & H1 & H2); inversion Hd; subst; auto.
  - split; [discriminate | intros (d & Hd & _); discriminate].
Qed.

Lemma filtered_events_In (evs : list event) (s e : date) (ev : event) :
  In ev (filtered_events evs s e) <-> In ev evs /\ in_window s e ev = true.
Proof. unfold filtered_events. apply filter_In. Qed.

Lemma make_ics_event_in_window (s e : date) (ev : event) :
  in_window s e ev = true -> exists x, make_ics_event ev = Some x.
Proof.
  unfold in_window, make_ics_event. destruct (ev_date ev); [eauto | discriminate].
Qed.

Lemma calendar_events_map (evs : list event) (s e : date) :
  map Some (calendar_events evs s e) = map make_ics_event (filtered_events evs s e).
Proof.
  unfold calendar_events, filtered_events.
  induction evs as [|ev evs IH]; simpl; [reflexivity|].
  destruct (in_window s e ev) eqn:Hw; simpl; [|exact IH].
  destruct (make_ics_event_in_window s e ev Hw) as [x Hx].
  rewrite Hx. simpl. rewrite IH. reflexivity.
Qed.

Lemma emitted_uids_triples (evs : list event) (s e : date) :
  map Some (emitted_uids evs s e) =
  map (fun ev => uid_of_triple (triple ev)) (filtered_events evs s e).
Proof.
  unfold emitted_uids.
  assert (H : forall l l', map Some l = map make_ics_event l' ->
            map Some (map ics_uid l) = map (fun ev => uid_of_triple (triple ev)) l').
  { induction l as [|x l IH]; intros [|ev l'] Hm; simpl in *; try discriminate; auto.
    injection Hm as Hx Hl. rewrite (IH _ Hl). f_equal.
    unfold make_ics_event in Hx. unfold uid_of_triple, triple.
    destruct (ev_date ev); [|discriminate].
    injection Hx as ->. reflexivity. }
  apply H, calendar_events_map.
Qed.

Lemma filtered_events_triples (evs1 evs2 : list event) (s e : date) :
  map triple evs1 = map triple evs2 ->
  map triple (filtered_events evs1 s e) = map triple (filtered_events evs2 s e).
Proof.
  unfold filtered_events. revert evs2.
  induction evs1 as [|a l1 IH]; intros [|b l2] H; cbn [map filter] in *;
    try discriminate; auto.
  injection H as Ht Hc Hd Hl.
  assert (in_window s e a = in_window s e b) as ->.
  { unfold in_window. rewrite Hd. reflexivity. }
  destruct (in_window s e b); cbn [map];
    [f_equal; [unfold triple; congruence|]|]; apply IH; exact Hl.
Qed.

(** C3. The identifier given to an emitted event is [uid_of_triple] of its
    (ticker, category, date): it does not depend on the title, the
    description, the output path, the files already present or the log.
    Hence two events with the same triple get the same identifier, and two
    runs over event lists with the same triples emit the same identifiers,
    also inside the written file. *)
Theorem uid_is_function_of_triple (evs : list event) (s e : date) :
  map Some (emitted_uids evs s e)
    = map (fun ev => uid_of_triple (triple ev)) (filtered_events evs s e)
  /\ (forall ev1 ev2 x1 x2,
        triple ev1 = triple ev2 ->
        make_ics_event ev1 = Some x1 -> make_ics_event ev2 = Some x2 ->
        ics_uid x1 = ics_uid x2)
  /\ (forall evs', map triple evs = map triple evs' ->
        emitted_uids evs' s e = emitted_uids evs s e)
  /\ (forall path1 path2 fs1 fs2 w1 w2,
        option_map (map ics_uid)
          (file_content (fst (write_ics_file evs path1 s e fs1 w1)) path1)
        = option_map (map ics_uid)
          (file_content (fst (write_ics_file evs path2 s e fs2 w2)) path2)).
Proof.
  split; [apply emitted_uids_triples|].
  split.
  { intros ev1 ev2 x1 x2 Ht H1 H2.
    unfold make_ics_event in *. unfold triple in Ht.
    injection Ht as Htk Hc Hd.
    destruct (ev_date ev1) as [d1|]; [|discriminate].
    destruct (ev_date ev2) as [d2|]; [|discriminate].
    injection H1 as <-. injection H2 as <-. simpl.
    injection Hd as ->. rewrite Htk, Hc. reflexivity. }
  split.
  { intros evs' Ht.
    assert (Inj : forall l l' : list string, map Some l = map Some l' -> l = l').
    { induction l as [|a l IH]; intros [|b l'] H; simpl in *; try discriminate; auto.
      injection H as -> Hl. f_equal; auto. }
    apply Inj. rewrite !emitted_uids_triples.
    rewrite <- !(map_map triple uid_of_triple).
    f_equal. symmetry. apply filtered_events_triples. exact Ht. }
  intros path1 path2 fs1 fs2 w1 w2. unfold write_ics_file, file_content; simpl.
  unfold str_eqb. rewrite !String.eqb_refl. reflexivity.
Qed.


(** ** The FX lookup *)

Lemma base_or_eur_nonempty (X : string) :
  X <> EmptyString -> base_or_eur (Some X) = X.
Proof.
  intros HX. unfold base_or_eur, str_eqb.
  destruct (String.eqb_spec X EmptyString); [contradiction | reflexivity].
Qed.

(** C7. For a currency code [X] (a non-empty string) [get_fx_rate X X] is
    [1.0], and so is [get_fx_rate X Y] whenever [X] and [Y] differ by case
    only; the world is left as it was: nothing is requested from the FX
    service and nothing is printed, whatever the service would answer. *)
Theorem get_fx_rate_same_currency (E : env) (X Y : string) (w : world) :
  X <> EmptyString ->
  (get_fx_rate E (Some X) X w = (Ok F1, w))
  /\ (upper X = upper Y -> get_fx_rate E (Some X) Y w = (Ok F1, w))
  /\ F1 = S754_finite false 4503599627370496 (-52).
Proof.
  intros HX. unfold get_fx_rate. rewrite (base_or_eur_nonempty HX).
  split; [|split].
  - unfold str_eqb. rewrite String.eqb_refl. reflexivity.
  - intros <-. unfold str_eqb. rewrite String.eqb_refl. reflexivity.
  - reflexivity.
Qed.

(** ** The date normaliser *)


Lemma safe_parse_date_total (E : env) (x : pyobj) :
  exists r, safe_parse_date E x = Ok r.
Proof.
  unfold safe_parse_date.
  destruct (is_none x || is_nan_float x); [eauto|].
  destruct (parse_date_body E x); eauto.
Qed.


(** ** Comparison of floats *)

Lemma SFcompare_swap (x y : float) :
  SFcompare y x = option_map CompOpp (SFcompare x y).
Proof.
  destruct x as [sx|sx| |sx mx ex], y as [sy|sy| |sy my ey]; simpl;
    try reflexivity; try (destruct sx; reflexivity); try (destruct sy; reflexivity);
    try (destruct sx, sy; reflexivity).
  assert (Hm : Pos.compare_cont Eq my mx = CompOpp (Pos.compare_cont Eq mx my))
    by (rewrite Pos.compare_cont_antisym; reflexivity).
  destruct sx, sy; simpl; try reflexivity;
    rewrite (Z.compare_antisym ex ey); destruct (ex ?= ey); simpl; try reflexivity;
    rewrite Hm; destruct (Pos.compare_cont Eq mx my); reflexivity.
Qed.

Lemma feqb_sym (x y : float) : feqb x y = feqb y x.
Proof.
  unfold feqb, SFeqb. rewrite (SFcompare_swap x y).
  destruct (SFcompare x y) as [[| |]|]; reflexivity.
Qed.

Lemma pair_eqb_sym (p q : date * float) : pair_eqb p q = pair_eqb q p.
Proof. unfold pair_eqb. rewrite date_eqb_sym, feqb_sym. reflexivity. Qed.

(** ** Sets and sorting *)

Section SetsAndSorting.
Context {A : Type}.
Variable eqb : A -> A -> bool.

Lemma FOP_snoc (R : A -> A -> Prop) (l : list A) (x : A) :
  ForallOrdPairs R l -> (forall y, In y l -> R y x) -> ForallOrdPairs R (l ++ [x]).
Proof.
  induction 1 as [|a l Ha Hl IH]; intros Hx; simpl.
  - constructor; constructor.
  - constructor.
    + apply Forall_app; split; [exact Ha|].
      constructor; [apply Hx; left; reflexivity | constructor].
    + apply IH. intros y Hy. apply Hx. right; exact Hy.
Qed.

Lemma py_set_fold_distinct (l seen : list A) :
  pairwise_distinct eqb seen ->
  pairwise_distinct eqb
    (fold_left (fun seen x => if existsb (fun y => eqb y x) seen then seen
                              else seen ++ [x]) l seen).
Proof.
  revert seen. induction l as [|x l IH]; intros seen Hs; simpl; [exact Hs|].
  apply IH. destruct (existsb (fun y => eqb y x) seen) eqn:Hex; [exact Hs|].
  apply FOP_snoc; [exact Hs|].
  intros y Hy. destruct (eqb y x) eqn:Hyx; [|reflexivity].
  assert (existsb (fun y => eqb y x) seen = true)
    by (apply existsb_exists; exists y; auto).
  congruence.
Qed.

Lemma py_set_distinct (l : list A) : pairwise_distinct eqb (py_set eqb l).
Proof. apply py_set_fold_distinct. constructor. Qed.

Lemma py_set_fold_incl (l seen : list A) (x : A) :
  In x (fold_left (fun seen x => if existsb (fun y => eqb y x) seen then seen
                                 else seen ++ [x]) l seen) ->
  In x seen \/ In x l.
Proof.
  revert seen. induction l as [|a l IH]; intros seen H; simpl in *; [auto|].
  apply IH in H. destruct H as [H | H]; [|auto].
  destruct (existsb (fun y => eqb y a) seen); [auto|].
  apply in_app_or in H. destruct H as [H | [<- | []]]; auto.
Qed.

Lemma py_set_incl (l : list A) (x : A) : In x (py_set eqb l) -> In x l.
Proof.
  intros H. apply py_set_fold_incl in H. destruct H as [[] | H]; exact H.
Qed.

Hypothesis eqb_eq : forall a b, eqb a b = true <-> a = b.

Lemma py_set_fold_keeps (l seen : list A) (x : A) :
  In x seen \/ In x l ->
  In x (fold_left (fun seen x => if existsb (fun y => eqb y x) seen then seen
                                 else seen ++ [x]) l seen).
Proof.
  revert seen. induction l as [|a l IH]; intros seen H; simpl in *; [tauto|].
  apply IH. destruct H as [H | [<- | H]]; auto.
  - left. destruct (existsb (fun y => eqb y a) seen); [exact H|].
    apply in_or_app; auto.
  - left. destruct (existsb (fun y => eqb y a) seen) eqn:Hex.
    + apply existsb_exists in Hex. destruct Hex as (y & Hy & Hya).
      apply eqb_eq in Hya. subst. exact Hy.
    + apply in_or_app; right; left; reflexivity.
Qed.

Lemma py_set_In (l : list A) (x : A) : In x (py_set eqb l) <-> In x l.
Proof.
  split; [apply py_set_incl|]. intros H. apply py_set_fold_keeps. auto.
Qed.

Lemma pairwise_distinct_NoDup (l : list A) : pairwise_distinct eqb l -> NoDup l.
Proof.
  induction 1 as [|a l Ha Hl IH]; constructor; [|exact IH].
  intros Hin. rewrite Forall_forall in Ha. specialize (Ha a Hin).
  assert (eqb a a = true) by (apply eqb_eq; reflexivity). congruence.
Qed.
End SetsAndSorting.

Lemma pairwise_distinct_perm {A} (eqb : A -> A -> bool) (l l' : list A) :
  (forall a b, eqb a b = eqb b a) ->
  Permutation l l' -> pairwise_distinct eqb l -> pairwise_distinct eqb l'.
Proof.
  intros Hsym Hp. unfold pairwise_distinct.
  induction Hp as [|x l l' Hp IH|x y l|l l' l'' H1 IH1 H2 IH2]; intros H.
  - exact H.
  - inversion H as [|? ? Hx Hl]; subst. constructor; [|apply IH; exact Hl].
    eapply Permutation_Forall; eassumption.
  - inversion H as [|? ? Hy Hl]; subst. inversion Hl as [|? ? Hx Hl']; subst.
    inversion Hy as [|? ? Hyx Hy']; subst.
    constructor; [constructor; [rewrite Hsym; exact Hyx | exact Hx]|].
    constructor; assumption.
  - auto.
Qed.

Section InsertionSort.
Context {A : Type}.
Variable leb : A -> A -> bool.

Lemma insert_sorted_perm (x : A) (l : list A) :
  Permutation (insert_sorted leb x l) (x :: l).
Proof.
  induction l as [|y l IH]; simpl; [reflexivity|].
  destruct (leb x y); [reflexivity|].
  rewrite IH. apply perm_swap.
Qed.

Lemma sorted_perm (l : list A) : Permutation (sorted leb l) l.
Proof.
  induction l as [|x l IH]; simpl; [reflexivity|].
  unfold sorted in *. simpl. rewrite insert_sorted_perm. constructor. exact IH.
Qed.

Hypothesis leb_total : forall a b, leb a b = true \/ leb b a = true.
Hypothesis leb_trans : forall a b c, leb a b = true -> leb b c = true -> leb a c = true.

Lemma insert_sorted_sorted (x : A) (l : list A) :
  StronglySorted (fun a b => leb a b = true) l ->
  StronglySorted (fun a b => leb a b = true) (insert_sorted leb x l).
Proof.
  induction 1 as [|y l Hl IH Hy]; simpl.
  - constructor; constructor.
  - destruct (leb x y) eqn:Hxy.
    + constructor; [constructor; assumption|].
      constructor; [exact Hxy|].
      rewrite Forall_forall in *. intros z Hz. eapply leb_trans; eauto.
    + constructor; [exact IH|].
      eapply Permutation_Forall; [symmetry; apply insert_sorted_perm|].
      constructor; [|exact Hy].
      destruct (leb_total x y); congruence.
Qed.

Lemma sorted_sorted (l : list A) :
  StronglySorted (fun a b => leb a b = true) (sorted leb l).
Proof.
  induction l as [|x l IH]; simpl; [constructor|].
  apply insert_sorted_sorted. exact IH.
Qed.
End InsertionSort.

Lemma strictly_sorted_dates (l : list date) :
  NoDup l -> StronglySorted (fun a b => date_leb a b = true) l ->
  StronglySorted date_lt l.
Proof.
  intros Hnd Hs. induction Hs as [|a l Hl IH Ha]; [constructor|].
  inversion Hnd as [|? ? Hnotin Hnd']; subst.
  constructor; [apply IH; exact Hnd'|].
  rewrite Forall_forall in *. intros b Hb. apply date_ltb_spec.
  split; [apply Ha; exact Hb|]. intros ->. contradiction.
Qed.

Lemma truthy_dates_In (l : list (option date)) (d : date) :
  In d (truthy_dates l) <-> In (Some d) l.
Proof.
  unfold truthy_dates. rewrite in_flat_map. split.
  - intros ([x|] & Hx & Hd); simpl in Hd; [|contradiction].
    destruct Hd as [<- | []]. exact Hx.
  - intros H. exists (Some d). split; [exact H | left; reflexivity].
Qed.

(** What the cleaning of a date list gives, for any iteration order. *)
Lemma clean_dates_spec (E : env) (l : list (option date)) :
  env_sets_ok E ->
  NoDup (clean_dates E l)
  /\ StronglySorted date_lt (clean_dates E l)
  /\ (forall d, In d (clean_dates E l) <-> In (Some d) l)
  /\ (forall d, In (Some d) l -> count_occ date_eq_dec (clean_dates E l) d = 1%nat).
Proof.
  intros [Hperm _]. unfold clean_dates.
  set (u := py_set date_eqb (truthy_dates l)).
  assert (Hp : Permutation (sorted date_leb (set_order_dates E u)) u).
  { rewrite sorted_perm. apply Hperm. }
  assert (Hnd : NoDup (sorted date_leb (set_order_dates E u))).
  { eapply Permutation_NoDup; [symmetry; exact Hp|].
    apply (@pairwise_distinct_NoDup _ date_eqb date_eqb_eq). apply py_set_distinct. }
  assert (Hin : forall d, In d (sorted date_leb (set_order_dates E u)) <-> In (Some d) l).
  { intros d. split; intros H.
    - apply truthy_dates_In. apply (@py_set_In _ date_eqb date_eqb_eq).
      eapply Permutation_in; [exact Hp | exact H].
    - eapply Permutation_in; [symmetry; exact Hp|].
      apply (@py_set_In _ date_eqb date_eqb_eq). apply truthy_dates_In. exact H. }
  split; [exact Hnd|]. split.
  { apply strictly_sorted_dates; [exact Hnd|].
    apply sorted_sorted; [apply date_leb_total | apply date_leb_trans]. }
  split; [exact Hin|].
  intros d Hd. apply NoDup_count_occ'; [exact Hnd | apply Hin; exact Hd].
Qed.

Lemma by_date_total (p q : date * float) : by_date p q = true \/ by_date q p = true.
Proof. apply date_leb_total. Qed.

Lemma by_date_trans (p q r : date * float) :
  by_date p q = true -> by_date q r = true -> by_date p r = true.
Proof. apply date_leb_trans. Qed.

(** What the cleaning of the dividend list gives, for any iteration order. *)
Lemma clean_pairs_spec (E : env) (l : list (date * float)) :
  env_sets_ok E ->
  pairwise_distinct pair_eqb (clean_pairs E l)
  /\ StronglySorted date_le_fst (clean_pairs E l)
  /\ (forall p, In p (clean_pairs E l) -> In p l).
Proof.
  intros [_ Hperm]. unfold clean_pairs.
  set (u := py_set pair_eqb l).
  assert (Hp : Permutation u (sorted by_date (set_order_pairs E u))).
  { symmetry. rewrite sorted_perm. apply Hperm. }
  split.
  { eapply pairwise_distinct_perm; [apply pair_eqb_sym | exact Hp |].
    apply py_set_distinct. }
  split.
  { apply sorted_sorted; [apply by_date_total | apply by_date_trans]. }
  intros p Hin. apply (@py_set_incl _ pair_eqb).
  eapply Permutation_in; [symmetry; exact Hp | exact Hin].
Qed.

(** ** The fetcher *)

Lemma try_except_unit_ok {S} (body : M S unit) (h : exc -> M S unit) :
  (forall e s, fst (h e s) = Ok tt) -> forall s, fst (try_except body h s) = Ok tt.
Proof.
  intros Hh s. unfold try_except. destruct (body s) as [[[]|e] s']; [reflexivity|].
  apply Hh.
Qed.

Lemma bind_unit_ok {S} (m k : M S unit) :
  (forall s, fst (m s) = Ok tt) -> (forall s, fst (k s) = Ok tt) ->
  forall s, fst (bind m (fun _ => k) s) = Ok tt.
Proof.
  intros Hm Hk s. unfold bind. specialize (Hm s).
  destruct (m s) as [[[]|e] s']; simpl in Hm; [apply Hk | discriminate].
Qed.

Lemma fetch_blocks_ok (E : env) (ticker : string) (tk : ticker_handle) (s : fetch_state) :
  fst (fetch_blocks E ticker tk s) = Ok tt.
Proof.
  revert s. unfold fetch_blocks.
  repeat (apply bind_unit_ok; [intros s; apply try_except_unit_ok; reflexivity|]).
  intros s; apply try_except_unit_ok; reflexivity.
Qed.

Lemma fetch_from_handle_result (E : env) (ticker : string) (tk : ticker_handle) (w : world) :
  fst (fetch_from_handle E ticker tk w)
  = Ok (fetch_cleanup E (fetch_collected E ticker tk w)).
Proof.
  unfold fetch_from_handle, fetch_collected.
  pose proof (fetch_blocks_ok E ticker tk (fetch_init w)) as H.
  destruct (fetch_blocks E ticker tk (fetch_init w)) as [r s]; simpl in *.
  rewrite H. reflexivity.
Qed.


Lemma dict_get_In {V} (d : list (string * V)) (k : string) (v : V) :
  dict_get d k = Some v -> exists k', In (k', v) d.
Proof.
  induction d as [|[k' v'] d IH]; simpl; [discriminate|].
  destruct (str_eqb k' k).
  - intros H; injection H as ->. exists k'. left; reflexivity.
  - intros H. destruct (IH H) as [k'' Hk]. exists k''. right; exact Hk.
Qed.

Lemma loc_first_wf (df : frame) (label : string) :
  frame_wf df -> in_index df label = true -> exists c, loc_first df label = Ok c.
Proof.
  unfold frame_wf, in_index, loc_first. intros Hwf Hin.
  destruct (dict_get df label) as [cells|] eqn:Hg; [|discriminate].
  destruct (dict_get_In _ _ Hg) as [k Hk].
  rewrite Forall_forall in Hwf. specialize (Hwf _ Hk). simpl in Hwf.
  destruct cells as [|c cells]; [contradiction | eauto].
Qed.

Lemma info_block_state (ticker : string) (tk : ticker_handle) (w : world) :
  let s1 := snd (fetch_info_block ticker tk (fetch_init w)) in
  last_div_amount s1 = last_dividend_value tk /\ out_dividends s1 = [].
Proof.
  unfold fetch_info_block, last_dividend_value, try_except, bind, lift, modify.
  simpl. destruct (tk_info tk) as [info|e]; simpl; auto.
Qed.

Lemma cal_earnings_row_keeps (E : env) (df : frame) (s : fetch_state) :
  frame_wf df ->
  exists s', cal_earnings_row E df s = (Ok tt, s')
             /\ out_dividends s' = out_dividends s
             /\ last_div_amount s' = last_div_amount s.
Proof.
  intros Hwf. unfold cal_earnings_row.
  destruct (in_index df "Earnings Date") eqn:Hin; [|exists s; auto].
  destruct (loc_first_wf _ Hwf Hin) as [c Hc].
  destruct (safe_parse_date_total E c) as [r Hr].
  unfold bind, lift. rewrite Hc, Hr.
  destruct r; [eexists; split; [reflexivity | auto] | exists s; auto].
Qed.

Lemma cal_exdiv_row_keeps (E : env) (df : frame) (s : fetch_state) :
  frame_wf df ->
  exists s', cal_exdiv_row E df s = (Ok tt, s')
             /\ out_dividends s' = out_dividends s
             /\ last_div_amount s' = last_div_amount s.
Proof.
  intros Hwf. unfold cal_exdiv_row.
  destruct (in_index df "Ex-Dividend Date") eqn:Hin; [|exists s; auto].
  destruct (loc_first_wf _ Hwf Hin) as [c Hc].
  destruct (safe_parse_date_total E c) as [r Hr].
  unfold bind, lift. rewrite Hc, Hr.
  destruct r; [eexists; split; [reflexivity | auto] | exists s; auto].
Qed.

Lemma cal_pay_row_records (E : env) (df : frame) (s : fetch_state) (c : pyobj) (d : date) :
  loc_first df "Dividend Date" = Ok c ->
  safe_parse_date E c = Ok (Some d) ->
  out_dividends (snd (cal_pay_row E df s))
  = out_dividends s ++ pay_pair E d (last_div_amount s).
Proof.
  intros Hc Hd. unfold cal_pay_row, pay_pair.
  assert (in_index df "Dividend Date" = true) as ->.
  { unfold in_index. unfold loc_first in Hc.
    destruct (dict_get df "Dividend Date"); [reflexivity | discriminate]. }
  unfold bind, lift, get. rewrite Hc, Hd.
  destruct (py_gt0 (last_div_amount s)) as [[|]|e]; simpl;
    try (rewrite app_nil_r; reflexivity).
  destruct (py_float E (last_div_amount s)); simpl;
    [reflexivity | rewrite app_nil_r; reflexivity].
Qed.

Lemma calendar_block_records (E : env) (ticker : string) (tk : ticker_handle)
    (s : fetch_state) (cal : cal_value) (df : frame) (c : pyobj) (d : date) :
  tk_calendar tk = Ok cal -> calendar_frame E cal = Ok df ->
  frame_empty df = false -> frame_wf df ->
  loc_first df "Dividend Date" = Ok c ->
  safe_parse_date E c = Ok (Some d) ->
  out_dividends (snd (fetch_calendar_block E ticker tk s))
  = out_dividends s ++ pay_pair E d (last_div_amount s).
Proof.
  intros Hcal Hdf Hne Hwf Hc Hd.
  unfold fetch_calendar_block, try_except, bind at 1 2, lift.
  rewrite Hcal, Hdf, Hne. unfold calendar_rows, bind.
  destruct (cal_earnings_row_keeps E s Hwf) as (s1 & -> & D1 & L1).
  destruct (cal_exdiv_row_keeps E s1 Hwf) as (s2 & -> & D2 & L2).
  pose proof (cal_pay_row_records E df s2 Hc Hd) as Hp.
  rewrite D2, D1, L2, L1 in Hp.
  destruct (cal_pay_row E df s2) as [[[]|e] s3]; simpl in *; exact Hp.
Qed.

(** C9. When the forward-looking calendar is a usable table whose
    'Dividend Date' row parses to the date [d], the calendar block records
    exactly one pair, [d] with the last dividend value of the general
    information, when that value is a number greater than zero, and no pair
    otherwise: none for a zero, negative or NaN value, none for a [None],
    none when the key is absent or the information could not be loaded. *)
Theorem pay_date_recorded_iff_positive (E : env) (ticker : string)
    (tk : ticker_handle) (w : world) (cal : cal_value) (df : frame)
    (c : pyobj) (d : date) :
  tk_calendar tk = Ok cal -> calendar_frame E cal = Ok df ->
  frame_empty df = false -> frame_wf df ->
  loc_first df "Dividend Date" = Ok c ->
  safe_parse_date E c = Ok (Some d) ->
  let s1 := snd (fetch_info_block ticker tk (fetch_init w)) in
  let s2 := snd (fetch_calendar_block E ticker tk s1) in
  let v := last_dividend_value tk in
  last_div_amount s1 = v
  /\ out_dividends s2 = pay_pair E d v
  /\ (forall f, v = PyFloat f ->
        out_dividends s2 = if fltb F0 f then [(d, f)] else [])
  /\ (forall f, v = PyFloat f ->
        ((exists p, In p (out_dividends s2)) <-> fltb F0 f = true))
  /\ (forall n a, v = PyInt n -> float_of_int n = Ok a ->
        out_dividends s2 = if 0 <? n then [(d, a)] else [])
  /\ (v = PyNone -> out_dividends s2 = [])
  /\ ((forall info, tk_info tk = Ok info -> i_lastDividendValue info = None ->
         out_dividends s2 = [])
      /\ (forall e, tk_info tk = Raise e -> out_dividends s2 = [])).
Proof.
  intros Hcal Hdf Hne Hwf Hc Hd s1 s2 v.
  destruct (info_block_state ticker tk w) as [Hv Hnil]. fold s1 in Hv, Hnil.
  assert (Hs2 : out_dividends s2 = pay_pair E d v).
  { unfold s2. rewrite (@calendar_block_records E ticker tk s1 cal df c d Hcal Hdf Hne Hwf Hc Hd).
    rewrite Hnil, Hv. reflexivity. }
  split; [exact Hv|]. split; [exact Hs2|].
  split. { intros f Hf. rewrite Hs2, Hf. unfold pay_pair; simpl.
           destruct (fltb F0 f); reflexivity. }
  split. { intros f Hf. rewrite Hs2, Hf. unfold pay_pair; simpl.
           destruct (fltb F0 f); split; intros H; auto; try discriminate.
           - exists (d, f). left; reflexivity.
           - destruct H as [p []]. }
  split. { intros n a Hn Ha. rewrite Hs2, Hn. unfold pay_pair; simpl.
           rewrite Ha. destruct (0 <? n); reflexivity. }
  split. { intros Hn. rewrite Hs2, Hn. reflexivity. }
  split.
  - intros info Hi Hnone. rewrite Hs2. unfold v, last_dividend_value.
    rewrite Hi, Hnone. reflexivity.
  - intros e He. rewrite Hs2. unfold v, last_dividend_value. rewrite He. reflexivity.
Qed.

(** ** The holdings loop *)

Lemma keeps_ret {A} (a : A) : keeps (ret a).
Proof. intros s; simpl. split; [auto | exists []; rewrite app_nil_r; reflexivity]. Qed.

Lemma keeps_raise {A} (e : exc) : keeps (@raise build_state A e).
Proof. intros s; simpl. split; [auto | exists []; rewrite app_nil_r; reflexivity]. Qed.

Lemma keeps_lift {A} (r : result A) : keeps (lift r).
Proof. intros s; simpl. split; [auto | exists []; rewrite app_nil_r; reflexivity]. Qed.

Lemma keeps_get : keeps (@get build_state).
Proof. intros s; simpl. split; [auto | exists []; rewrite app_nil_r; reflexivity]. Qed.

Lemma keeps_bind {A B} (m : M build_state A) (k : A -> M build_state B) :
  keeps m -> (forall a, keeps (k a)) -> keeps (bind m k).
Proof.
  intros Hm Hk s. unfold bind. destruct (Hm s) as [T1 [l1 E1]].
  destruct (m s) as [[a|e] s1]; simpl in *.
  - destruct (Hk a s1) as [T2 [l2 E2]]. split; [auto|].
    exists (l1 ++ l2). rewrite E2, E1, app_assoc. reflexivity.
  - split; [auto | exists l1; exact E1].
Qed.

Lemma keeps_try_except {A} (m : M build_state A) (h : exc -> M build_state A) :
  keeps m -> (forall e, keeps (h e)) -> keeps (try_except m h).
Proof.
  intros Hm Hh s. unfold try_except. destruct (Hm s) as [T1 [l1 E1]].
  destruct (m s) as [[a|e] s1]; simpl in *.
  - split; [auto | exists l1; exact E1].
  - destruct (Hh e s1) as [T2 [l2 E2]]. split; [auto|].
    exists (l1 ++ l2). rewrite E2, E1, app_assoc. reflexivity.
Qed.

Lemma keeps_for_each {A} (xs : list A) (body : A -> M build_state unit) :
  (forall x, keeps (body x)) -> keeps (for_each xs body).
Proof.
  intros Hb. induction xs as [|x xs IH]; simpl; [apply keeps_ret|].
  apply keeps_bind; [apply Hb | intros _; exact IH].
Qed.

Lemma keeps_in_world {A} (m : M world A) : keeps (in_world m).
Proof.
  intros s. unfold in_world. destruct (m (b_world s)) as [r w']; simpl.
  split; [auto | exists []; rewrite app_nil_r; reflexivity].
Qed.

Lemma keeps_add_event (ev : event) : keeps (modify (add_event ev)).
Proof. intros s; simpl. split; [auto | exists [ev]; reflexivity]. Qed.

Lemma keeps_bind_ticker (t : string) : keeps (modify (bind_ticker t)).
Proof.
  intros s; simpl. split; [discriminate | exists []; rewrite app_nil_r; reflexivity].
Qed.

Lemma keeps_build_print (l : log_line) : keeps (modify (build_print l)).
Proof. intros s; simpl. split; [auto | exists []; rewrite app_nil_r; reflexivity]. Qed.

Lemma keeps_process_holding (E : env) (row : holding_row) : keeps (process_holding E row).
Proof.
  unfold process_holding.
  apply keeps_bind; [apply keeps_lift | intros ticker].
  apply keeps_bind; [apply keeps_bind_ticker | intros _].
  destruct (str_eqb ticker EmptyString); [apply keeps_ret|].
  apply keeps_bind; [apply keeps_lift | intros country].
  apply keeps_bind; [apply keeps_lift | intros market].
  destruct (row_cantidad row =? 0); [apply keeps_ret|].
  apply keeps_bind; [apply keeps_build_print | intros _].
  apply keeps_bind; [apply keeps_in_world | intros info].
  apply keeps_bind; [apply keeps_in_world | intros fx].
  apply keeps_bind; [apply keeps_for_each; intros; apply keeps_add_event | intros _].
  apply keeps_bind.
  { apply keeps_for_each. intros item.
    destruct (positive_amount (snd item)); [|apply keeps_ret].
    apply keeps_bind; [apply keeps_lift | intros; apply keeps_add_event]. }
  intros _. apply keeps_for_each; intros; apply keeps_add_event.
Qed.

Lemma keeps_holding_handler (e : exc) : keeps (holding_handler e).
Proof.
  unfold holding_handler. apply keeps_bind; [apply keeps_get | intros st].
  destruct (b_ticker st); [apply keeps_build_print | apply keeps_raise].
Qed.

Lemma keeps_build_loop (E : env) (rows : list holding_row) : keeps (build_loop E rows).
Proof.
  unfold build_loop. apply keeps_for_each. intros row.
  apply keeps_try_except; [apply keeps_process_holding | apply keeps_holding_handler].
Qed.

(** With [ticker] bound the [except] clause cannot fail, so neither can
    a row. *)
Lemma holding_ok_when_bound (E : env) (row : holding_row) (s : build_state) :
  b_ticker s <> None ->
  fst (try_except (process_holding E row) holding_handler s) = Ok tt.
Proof.
  intros Hb. unfold try_except.
  destruct (keeps_process_holding E row s) as [T _].
  destruct (process_holding E row s) as [[[]|e] s1]; simpl in *; [reflexivity|].
  unfold holding_handler, bind, get. specialize (T Hb).
  destruct (b_ticker s1); [reflexivity | contradiction].
Qed.

Lemma build_loop_ok_when_bound (E : env) (rows : list holding_row) (s : build_state) :
  b_ticker s <> None -> fst (build_loop E rows s) = Ok tt.
Proof.
  revert s. unfold build_loop.
  induction rows as [|row rows IH]; intros s Hb; simpl; [reflexivity|].
  unfold bind at 1.
  pose proof (holding_ok_when_bound E row s Hb) as Hok.
  destruct (@keeps_try_except _ _ _ (keeps_process_holding E row)
              keeps_holding_handler s) as [T _].
  destruct (try_except (process_holding E row) holding_handler s) as [r s1].
  simpl in *. subst r. apply IH. auto.
Qed.

(** A row whose ticker is a string leaves [ticker] bound. *)
Lemma process_holding_binds (E : env) (row : holding_row) (t : string) (s : build_state) :
  row_ticker row = CellStr t ->
  b_ticker (snd (process_holding E row s)) <> None.
Proof.
  intros Ht.
  assert (Hs : process_holding E row s
               = process_holding E row (bind_ticker (strip t) s))
    by (unfold process_holding; rewrite Ht; reflexivity).
  rewrite Hs. apply keeps_process_holding. discriminate.
Qed.

(** A first row whose ticker is a string binds [ticker]; from then on no
    row can abort the loop. *)
Lemma build_survives_after_first_ticker (E : env) (row : holding_row)
    (rows : list holding_row) (t : string) (w : world) :
  row_ticker row = CellStr t ->
  exists evs, fst (build_events_from_holdings E (row :: rows) w) = Ok evs.
Proof.
  intros Ht. unfold build_events_from_holdings.
  assert (H : fst (build_loop E (row :: rows) (mkbuild [] None w)) = Ok tt).
  { unfold build_loop; simpl. unfold bind at 1.
    set (s0 := mkbuild [] None w).
    assert (Hrow : fst (try_except (process_holding E row) holding_handler s0) = Ok tt
                   /\ b_ticker (snd (try_except (process_holding E row) holding_handler s0))
                      <> None).
    { unfold try_except.
      pose proof (process_holding_binds E row s0 Ht) as Hp.
      destruct (process_holding E row s0) as [[[]|e] s1]; simpl in *.
      - auto.
      - unfold holding_handler, bind, get.
        destruct (b_ticker s1) eqn:Hb; simpl; [|contradiction].
        rewrite Hb. split; [reflexivity | discriminate]. }
    destruct Hrow as [Hok Hb].
    destruct (try_except (process_holding E row) holding_handler s0) as [r s1].
    simpl in *. subst r. apply (build_loop_ok_when_bound E rows s1 Hb). }
  destruct (build_loop E (row :: rows) (mkbuild [] None w)) as [r s]; simpl in *.
  rewrite H. simpl. eauto.
Qed.

(** Events built before a row are still there after it, raise or not. *)
Lemma build_loop_retains_events (E : env) (rows : list holding_row) (s : build_state) :
  exists l, b_events (snd (build_loop E rows s)) = b_events s ++ l.
Proof. apply keeps_build_loop. Qed.

(** C8 (failing input). A table whose first row has an empty ticker field:
    the row raises, the [except] clause prints the still unbound [ticker],
    and the [NameError] it gets ends the whole run; the second holding is
    never processed. *)
Theorem first_holding_without_ticker_aborts (E : env) (w : world) :
  build_events_from_holdings E [holding_without_ticker; holding_aapl] w
  = (Raise NameError, w).
Proof. destruct w; reflexivity. Qed.

(** A later row without ticker is logged under the ticker of the row
    before it. *)
Lemma later_holding_logged_with_stale_ticker (E : env) :
  build_events_from_holdings E [holding_sold; holding_without_ticker] world0
  = (Ok [], mkworld [LogHoldingError "MSFT" AttributeError] []).
Proof. reflexivity. Qed.

(** ** Instances on the sample data *)

Lemma uid_is_function_of_triple_witness :
  triple sample_exdiv = triple sample_exdiv_again
  /\ exists x1 x2,
       make_ics_event sample_exdiv = Some x1
       /\ make_ics_event sample_exdiv_again = Some x2
       /\ ics_uid x1 = ics_uid x2.
Proof.
  split; [reflexivity|]. eexists. eexists.
  split; [reflexivity|]. split; [reflexivity|].
  apply (proj1 (proj2 (uid_is_function_of_triple [sample_exdiv] jun01 jun30))
           sample_exdiv sample_exdiv_again); reflexivity.
Defined.


Lemma get_fx_rate_same_currency_witness :
  "usd"%string <> EmptyString
  /\ get_fx_rate sample_env (Some "usd"%string) "USD" world0 = (Ok F1, world0).
Proof.
  split; [discriminate|].
  apply (proj1 (proj2 (@get_fx_rate_same_currency sample_env "usd" "USD" world0
                         ltac:(discriminate)))).
  reflexivity.
Defined.



Lemma sample_calendar_wf : frame_wf sample_calendar.
Proof. repeat constructor; discriminate. Qed.

Lemma pay_date_recorded_iff_positive_witness :
  out_dividends
    (snd (fetch_calendar_block sample_env "AAPL" sample_handle
            (snd (fetch_info_block "AAPL" sample_handle (fetch_init world0)))))
  = [(may10, F1)].
Proof.
  apply (proj1 (proj2 (proj2
    (@pay_date_recorded_iff_positive sample_env "AAPL" sample_handle world0
       (CalFrame sample_calendar) sample_calendar (PyDate may10) may10
       eq_refl eq_refl eq_refl sample_calendar_wf eq_refl eq_refl))) F1).
  reflexivity.
Defined.

(** ** Rounding to nearest, ties to even *)

Unset Implicit Arguments.

Lemma digits2_log2 (p : positive) : Zpos (digits2_pos p) = Z.log2 (Zpos p) + 1.
Proof.
  induction p as [p IH|p IH|]; simpl; try reflexivity.
  - rewrite Pos2Z.inj_succ, IH. destruct p; simpl; lia.
  - rewrite Pos2Z.inj_succ, IH. destruct p; simpl; lia.
Qed.

Lemma Zdigits2_pos (m : Z) : 0 < m -> Zdigits2 m = Z.log2 m + 1.
Proof. destruct m; try lia. intros _. apply digits2_log2. Qed.

Lemma Zdigits2_bounds (m : Z) :
  0 < m -> 2 ^ (Zdigits2 m - 1) <= m < 2 ^ Zdigits2 m.
Proof.
  intros H. rewrite Zdigits2_pos by exact H.
  replace (Z.log2 m + 1 - 1) with (Z.log2 m) by lia.
  replace (Z.log2 m + 1) with (Z.succ (Z.log2 m)) by lia.
  apply Z.log2_spec. exact H.
Qed.

Lemma Zdigits2_unique (m d : Z) :
  2 ^ (d - 1) <= m < 2 ^ d -> 0 < d -> Zdigits2 m = d.
Proof.
  intros H Hd. assert (0 < m).
  { assert (0 < 2 ^ (d - 1)) by (apply Z.pow_pos_nonneg; lia). lia. }
  rewrite Zdigits2_pos by assumption.
  assert (Z.log2 m = d - 1); [|lia].
  apply Z.log2_unique; [lia|]. replace (Z.succ (d - 1)) with d by lia. exact H.
Qed.

Lemma Zdigits2_nonneg (m : Z) : 0 <= Zdigits2 m.
Proof. destruct m; simpl; lia. Qed.

Lemma Zdigits2_mono (a b : Z) : 0 <= a <= b -> Zdigits2 a <= Zdigits2 b.
Proof.
  intros [Ha Hab]. destruct (Z.eq_dec a 0) as [->|Hn].
  - simpl. apply Zdigits2_nonneg.
  - rewrite !Zdigits2_pos by lia. pose proof (Z.log2_le_mono a b Hab). lia.
Qed.

Lemma Zdigits2_shift (m k : Z) : 0 < m -> 0 <= k -> Zdigits2 (m * 2 ^ k) = Zdigits2 m + k.
Proof.
  intros Hm Hk. assert (0 < 2 ^ k) by (apply Z.pow_pos_nonneg; lia).
  assert (0 < m * 2 ^ k) by (apply Z.mul_pos_pos; assumption).
  rewrite !Zdigits2_pos by assumption. rewrite Z.log2_mul_pow2 by lia. lia.
Qed.

(** shr_1 on the encoding *)
Lemma sshiftn_0 (x : Z) : sshiftn 0 x = x.
Proof.
  unfold sshiftn. change (2 ^ (0 + 1)) with 2.
  pose proof (Z.div_mod x 2 ltac:(lia)). pose proof (Z.mod_pos_bound x 2 ltac:(lia)).
  destruct (Z.eqb_spec (x mod 2) 0); lia.
Qed.

Lemma sshiftn_succ (n x : Z) : 0 <= n -> sshiftn 1 (sshiftn n x) = sshiftn (n + 1) x.
Proof.
  intros Hn. unfold sshiftn. change (2 ^ (1 + 1)) with 4.
  set (P := 2 ^ (n + 1)).
  assert (HP : 0 < P) by (apply Z.pow_pos_nonneg; lia).
  replace (2 ^ (n + 1 + 1)) with (P * 2) by (unfold P; rewrite (Z.pow_add_r 2 (n+1) 1) by lia; reflexivity).
  pose proof (Z.div_mod x P ltac:(lia)) as D1.
  pose proof (Z.mod_pos_bound x P ltac:(lia)) as B1.
  set (a := x / P) in *. set (r := x mod P) in *.
  pose proof (Z.div_mod a 2 ltac:(lia)) as D2.
  pose proof (Z.mod_pos_bound a 2 ltac:(lia)) as B2.
  assert (Hq : x / (P * 2) = a / 2).
  { unfold a. rewrite Z.div_div by lia. reflexivity. }
  assert (Hr : x mod (P * 2) = r + P * (a mod 2)).
  { rewrite Z.rem_mul_r by lia. fold a r. reflexivity. }
  rewrite Hq, Hr.
  set (b := if r =? 0 then 0 else 1).
  assert (Hb : 0 <= b <= 1 /\ (b = 0 <-> r = 0)).
  { unfold b. destruct (Z.eqb_spec r 0); lia. }
  assert (H4 : (2 * a + b) / 4 = a / 2).
  { symmetry. apply (Z.div_unique _ 4 _ (2 * (a mod 2) + b)); lia. }
  assert (H4m : (2 * a + b) mod 4 = 2 * (a mod 2) + b).
  { symmetry. apply (Z.mod_unique _ 4 (a / 2)); lia. }
  rewrite H4, H4m.
  destruct (Z.eqb_spec (2 * (a mod 2) + b) 0); destruct (Z.eqb_spec (r + P * (a mod 2)) 0); nia.
Qed.

Lemma shr_1_enc (mrs : shr_record) :
  0 <= shr_m mrs -> enc (shr_1 mrs) = sshiftn 1 (enc mrs) /\ 0 <= shr_m (shr_1 mrs).
Proof.
  destruct mrs as [m r s]. simpl. intros Hm.
  unfold sshiftn, enc. change (2 ^ (1 + 1)) with 4.
  assert (Hgen : forall m' (r' : bool),
             m = 2 * m' + b2z r' -> 0 <= m' ->
             4 * m' + 2 * b2z r' + b2z (r || s)
             = 2 * ((4 * m + 2 * b2z r + b2z s) / 4)
               + (if (4 * m + 2 * b2z r + b2z s) mod 4 =? 0 then 0 else 1)).
  { intros m' r' Em Hm'.
    assert (Hq : (4 * m + 2 * b2z r + b2z s) / 4 = m).
    { symmetry. apply (Z.div_unique _ 4 _ (2 * b2z r + b2z s)); destruct r, s; simpl; lia. }
    assert (Hr : (4 * m + 2 * b2z r + b2z s) mod 4 = 2 * b2z r + b2z s).
    { symmetry. apply (Z.mod_unique _ 4 m); destruct r, s; simpl; lia. }
    rewrite Hq, Hr.
    destruct r, s, r'; cbn [b2z orb] in *;
      match goal with |- context [?a =? 0] => destruct (Z.eqb_spec a 0) end; lia. }
  destruct m as [|[p|p|]|p]; cbn [shr_m shr_r shr_s]; try lia.
  - split; [apply (Hgen 0 false); simpl; lia | lia].
  - split; [apply (Hgen (Zpos p) true); simpl; lia | lia].
  - split; [apply (Hgen (Zpos p) false); simpl; lia | lia].
  - split; [apply (Hgen 0 true); simpl; lia | lia].
Qed.

Lemma iter_pos_nat {A} (f : A -> A) (p : positive) (x : A) :
  SpecFloat.iter_pos f p x = Nat.iter (Pos.to_nat p) f x.
Proof.
  revert x. induction p as [p IH|p IH|]; intros x; cbn [SpecFloat.iter_pos].
  - rewrite !IH, Pos2Nat.inj_xI.
    replace (S (2 * Pos.to_nat p)) with (Pos.to_nat p + S (Pos.to_nat p))%nat by lia.
    rewrite Nat.iter_add, Nat.iter_succ_r. reflexivity.
  - rewrite !IH, Pos2Nat.inj_xO.
    replace (2 * Pos.to_nat p)%nat with (Pos.to_nat p + Pos.to_nat p)%nat by lia.
    rewrite Nat.iter_add. reflexivity.
  - reflexivity.
Qed.

Lemma iter_shr_1_enc (n : nat) (mrs : shr_record) :
  0 <= shr_m mrs ->
  enc (Nat.iter n shr_1 mrs) = sshiftn (Z.of_nat n) (enc mrs)
  /\ 0 <= shr_m (Nat.iter n shr_1 mrs).
Proof.
  intros Hm. induction n as [|n [IH1 IH2]].
  - simpl. rewrite sshiftn_0. auto.
  - rewrite Nat.iter_succ. destruct (shr_1_enc _ IH2) as [E1 E2].
    split; [|exact E2]. rewrite E1, IH1, sshiftn_succ by lia.
    f_equal. lia.
Qed.

Lemma enc_shr_m (mrs : shr_record) : shr_m mrs = enc mrs / 4.
Proof.
  destruct mrs as [m r s]. unfold enc; simpl.
  apply (Z.div_unique _ 4 _ (2 * b2z r + b2z s)); destruct r, s; simpl; lia.
Qed.

Lemma enc_code (mrs : shr_record) :
  code_of_loc (loc_of_shr_record mrs) = enc mrs mod 4.
Proof.
  destruct mrs as [m r s]. unfold enc; simpl.
  apply (Z.mod_unique _ 4 m); destruct r, s; simpl; lia.
Qed.

Lemma enc_of_loc (m : Z) (l : location) :
  enc (shr_record_of_loc m l) = 4 * m + code_of_loc l.
Proof. destruct l as [|[| |]]; unfold enc; simpl; lia. Qed.

Lemma shr_enc (mrs : shr_record) (e n : Z) :
  0 <= shr_m mrs ->
  enc (fst (shr mrs e n)) = sshiftn (Z.max 0 n) (enc mrs)
  /\ snd (shr mrs e n) = e + Z.max 0 n
  /\ 0 <= shr_m (fst (shr mrs e n)).
Proof.
  intros Hm. destruct n as [|p|p]; simpl.
  - rewrite sshiftn_0. repeat split; lia.
  - rewrite iter_pos_nat. destruct (iter_shr_1_enc (Pos.to_nat p) mrs Hm) as [E1 E2].
    rewrite E1, positive_nat_Z. repeat split; auto.
  - rewrite sshiftn_0. repeat split; lia.
Qed.

Lemma rne_enc (mrs : shr_record) :
  round_nearest_even (shr_m mrs) (loc_of_shr_record mrs) = rne (enc mrs).
Proof.
  unfold rne. rewrite <- enc_shr_m, <- enc_code.
  destruct mrs as [m [|] [|]]; simpl; reflexivity.
Qed.

Lemma sshiftn_exact_div (n m : Z) : 0 <= n -> sshiftn n (4 * m) / 4 = m / 2 ^ n.
Proof.
  intros Hn. unfold sshiftn.
  assert (HP : 0 < 2 ^ n) by (apply Z.pow_pos_nonneg; lia).
  replace (2 ^ (n + 1)) with (2 ^ n * 2) by (rewrite Z.pow_add_r by lia; reflexivity).
  set (a := 4 * m / (2 ^ n * 2)).
  set (b := if (4 * m) mod (2 ^ n * 2) =? 0 then 0 else 1).
  assert (Hb : 0 <= b <= 1) by (unfold b; destruct (_ =? _); lia).
  assert (H : (2 * a + b) / 4 = a / 2).
  { pose proof (Z.div_mod a 2 ltac:(lia)). pose proof (Z.mod_pos_bound a 2 ltac:(lia)).
    symmetry. apply (Z.div_unique _ 4 _ (2 * (a mod 2) + b)); lia. }
  rewrite H. unfold a. rewrite Z.div_div by lia.
  replace (2 ^ n * 2 * 2) with (4 * 2 ^ n) by lia.
  rewrite Z.div_mul_cancel_l by lia. reflexivity.
Qed.

Lemma sshiftn_mono (n x y : Z) : 0 <= n -> x <= y -> sshiftn n x <= sshiftn n y.
Proof.
  intros Hn Hxy. unfold sshiftn. set (P := 2 ^ (n + 1)).
  assert (HP : 0 < P) by (apply Z.pow_pos_nonneg; lia).
  pose proof (Z.div_mod x P ltac:(lia)). pose proof (Z.mod_pos_bound x P HP).
  pose proof (Z.div_mod y P ltac:(lia)). pose proof (Z.mod_pos_bound y P HP).
  pose proof (Z.div_le_mono x y P HP Hxy).
  destruct (Z.eqb_spec (x mod P) 0); destruct (Z.eqb_spec (y mod P) 0); nia.
Qed.

Lemma sshiftn_exact (n z : Z) : 0 <= n -> sshiftn n (4 * (z * 2 ^ n)) = 4 * z.
Proof.
  intros Hn. unfold sshiftn.
  assert (HP : 0 < 2 ^ n) by (apply Z.pow_pos_nonneg; lia).
  replace (2 ^ (n + 1)) with (2 ^ n * 2) by (rewrite Z.pow_add_r by lia; reflexivity).
  replace (4 * (z * 2 ^ n)) with ((2 * z) * (2 ^ n * 2)) by lia.
  rewrite Z.div_mul, Z.mod_mul by lia. rewrite Z.eqb_refl. lia.
Qed.

Lemma sshiftn_small (n x : Z) : 0 <= n -> 0 <= x < 2 ^ (n + 1) -> 0 <= sshiftn n x <= 1.
Proof.
  intros Hn Hx. unfold sshiftn. rewrite Z.div_small by lia.
  destruct (_ =? _); lia.
Qed.

Lemma sshiftn_nonneg (n x : Z) : 0 <= n -> 0 <= x -> 0 <= sshiftn n x.
Proof.
  intros Hn Hx. unfold sshiftn.
  assert (HP : 0 < 2 ^ (n + 1)) by (apply Z.pow_pos_nonneg; lia).
  pose proof (Z.div_pos x _ Hx HP). destruct (_ =? _); lia.
Qed.

Lemma rne_4 (z : Z) : rne (4 * z) = z.
Proof.
  unfold rne. replace (4 * z) with (z * 4) by lia.
  rewrite Z.div_mul, Z.mod_mul by lia. reflexivity.
Qed.

Lemma rne_bounds (x : Z) : x / 4 <= rne x <= x / 4 + 1.
Proof.
  unfold rne. destruct (_ <=? _); [lia|].
  destruct (_ =? _); [destruct (Z.even _); lia | lia].
Qed.

Lemma rne_mono (x y : Z) : x <= y -> rne x <= rne y.
Proof.
  intros Hxy.
  pose proof (Z.div_mod x 4 ltac:(lia)). pose proof (Z.mod_pos_bound x 4 ltac:(lia)).
  pose proof (Z.div_mod y 4 ltac:(lia)). pose proof (Z.mod_pos_bound y 4 ltac:(lia)).
  destruct (Z.eq_dec (x / 4) (y / 4)) as [E|N].
  - unfold rne. rewrite E.
    destruct (Z.leb_spec (x mod 4) 1); destruct (Z.leb_spec (y mod 4) 1);
      destruct (Z.eqb_spec (x mod 4) 2); destruct (Z.eqb_spec (y mod 4) 2);
      destruct (Z.even (y / 4)); lia.
  - pose proof (rne_bounds x). pose proof (rne_bounds y). lia.
Qed.

Lemma rne_nonneg (x : Z) : 0 <= x -> 0 <= rne x.
Proof. intros H. rewrite <- (rne_4 0). apply rne_mono. lia. Qed.

Lemma rne_small (x : Z) : 0 <= x <= 1 -> rne x = 0.
Proof.
  intros H. unfold rne. rewrite Z.div_small, Z.mod_small by lia.
  destruct (Z.leb_spec x 1); [reflexivity | lia].
Qed.

Lemma stk_exact (N : Z) : stk N 1 = 4 * N.
Proof. unfold stk. rewrite Z.div_1_r, Z.mod_1_r, Z.eqb_refl. lia. Qed.

Lemma stk_nonneg (N D : Z) : 0 <= N -> 0 < D -> 0 <= stk N D.
Proof.
  intros HN HD. unfold stk. pose proof (Z.div_pos (2 * N) D ltac:(lia) HD).
  destruct (_ =? _); lia.
Qed.

Lemma stk_mono (N N' D : Z) : 0 < D -> N <= N' -> stk N D <= stk N' D.
Proof.
  intros HD HN. unfold stk.
  pose proof (Z.div_mod (2 * N) D ltac:(lia)). pose proof (Z.mod_pos_bound (2 * N) D HD).
  pose proof (Z.div_mod (2 * N') D ltac:(lia)). pose proof (Z.mod_pos_bound (2 * N') D HD).
  pose proof (Z.div_le_mono (2 * N) (2 * N') D HD ltac:(lia)).
  destruct (Z.eqb_spec ((2 * N) mod D) 0); destruct (Z.eqb_spec ((2 * N') mod D) 0); nia.
Qed.

Lemma stk_scale (c N D : Z) : 0 < c -> 0 < D -> stk (c * N) (c * D) = stk N D.
Proof.
  intros Hc HD. unfold stk.
  replace (2 * (c * N)) with (c * (2 * N)) by lia.
  rewrite Z.div_mul_cancel_l by lia. rewrite Z.mul_mod_distr_l by lia.
  destruct (Z.eqb_spec ((2 * N) mod D) 0) as [->|Hn].
  - rewrite Z.mul_0_r. reflexivity.
  - destruct (Z.eqb_spec (c * ((2 * N) mod D)) 0); [nia | reflexivity].
Qed.

Lemma stk_div4 (N D : Z) : 0 < D -> stk N D / 4 = N / D.
Proof.
  intros HD. unfold stk.
  set (a := 2 * N / D). set (b := if (2 * N) mod D =? 0 then 0 else 1).
  assert (Hb : 0 <= b <= 1) by (unfold b; destruct (_ =? _); lia).
  pose proof (Z.div_mod a 2 ltac:(lia)). pose proof (Z.mod_pos_bound a 2 ltac:(lia)).
  assert (H4 : (2 * a + b) / 4 = a / 2).
  { symmetry. apply (Z.div_unique _ 4 _ (2 * (a mod 2) + b)); lia. }
  rewrite H4. unfold a. rewrite Z.div_div by lia.
  replace (D * 2) with (2 * D) by lia. rewrite Z.div_mul_cancel_l by lia. reflexivity.
Qed.

Lemma stk_shift1 (N D : Z) : 0 < D -> sshiftn 1 (stk N D) = stk N (2 * D).
Proof.
  intros HD. unfold sshiftn, stk. change (2 ^ (1 + 1)) with 4.
  set (y := 2 * N).
  pose proof (Z.div_mod y D ltac:(lia)) as D1. pose proof (Z.mod_pos_bound y D HD) as B1.
  set (a := y / D) in *. set (r := y mod D) in *.
  pose proof (Z.div_mod a 2 ltac:(lia)) as D2. pose proof (Z.mod_pos_bound a 2 ltac:(lia)) as B2.
  assert (Hq : y / (2 * D) = a / 2).
  { unfold a. rewrite Z.div_div by lia. f_equal. lia. }
  assert (Hr : y mod (2 * D) = r + D * (a mod 2)).
  { replace (2 * D) with (D * 2) by lia. rewrite Z.rem_mul_r by lia. reflexivity. }
  rewrite Hq, Hr.
  set (b := if r =? 0 then 0 else 1).
  assert (Hb : 0 <= b <= 1 /\ (b = 0 <-> r = 0)) by (unfold b; destruct (Z.eqb_spec r 0); lia).
  assert (H4 : (2 * a + b) / 4 = a / 2).
  { symmetry. apply (Z.div_unique _ 4 _ (2 * (a mod 2) + b)); lia. }
  assert (H4m : (2 * a + b) mod 4 = 2 * (a mod 2) + b).
  { symmetry. apply (Z.mod_unique _ 4 (a / 2)); lia. }
  rewrite H4, H4m.
  destruct (Z.eqb_spec (2 * (a mod 2) + b) 0); destruct (Z.eqb_spec (r + D * (a mod 2)) 0); nia.
Qed.

Lemma stk_shift (n N D : Z) : 0 <= n -> 0 < D -> sshiftn n (stk N D) = stk N (D * 2 ^ n).
Proof.
  intros Hn HD. revert n Hn. apply natlike_ind.
  - rewrite sshiftn_0. simpl. rewrite Z.mul_1_r. reflexivity.
  - intros n Hn IH. unfold Z.succ. rewrite <- sshiftn_succ by lia. rewrite IH.
    assert (0 < 2 ^ n) by (apply Z.pow_pos_nonneg; lia).
    rewrite stk_shift1 by nia. f_equal. rewrite Z.pow_add_r by lia.
    change (2 ^ 1) with 2. ring.
Qed.

Lemma pow2_pos (n : Z) : 0 <= n -> 0 < 2 ^ n.
Proof. intros H. apply Z.pow_pos_nonneg; lia. Qed.

Lemma pow2_le (a b : Z) : a <= b -> 2 ^ a <= 2 ^ b.
Proof. intros H. apply Z.pow_le_mono_r; lia. Qed.

Lemma pow2_lt (a b : Z) : 0 <= b -> a < b -> 2 ^ a < 2 ^ b.
Proof. intros Hb H. apply Z.pow_lt_mono_r; lia. Qed.

Lemma pow2_add (a b : Z) : 0 <= a -> 0 <= b -> 2 ^ (a + b) = 2 ^ a * 2 ^ b.
Proof. intros. apply Z.pow_add_r; lia. Qed.

Lemma pow2_split (a b : Z) : 0 <= b <= a -> 2 ^ a = 2 ^ (a - b) * 2 ^ b.
Proof. intros H. rewrite <- pow2_add by lia. f_equal. lia. Qed.

Lemma Zdigits2_lt_pow (m : Z) : 0 <= m -> m < 2 ^ Zdigits2 m.
Proof.
  intros H. destruct (Z.eq_dec m 0) as [->|Hn]; [simpl; lia|].
  apply Zdigits2_bounds. lia.
Qed.

Lemma Zdigits2_le (m d : Z) : 0 <= m -> 0 <= d -> m < 2 ^ d -> Zdigits2 m <= d.
Proof.
  intros Hm Hd H. destruct (Z.eq_dec m 0) as [->|Hn]; [simpl; lia|].
  destruct (Zdigits2_bounds m ltac:(lia)) as [L _].
  destruct (Z.le_gt_cases (Zdigits2 m) d) as [|G]; [assumption|].
  pose proof (pow2_le d (Zdigits2 m - 1) ltac:(lia)). lia.
Qed.

Lemma enc_lt_pow (X : Z) : 0 <= X -> X < 4 * 2 ^ Zdigits2 (X / 4).
Proof.
  intros H. pose proof (Z.div_mod X 4 ltac:(lia)). pose proof (Z.mod_pos_bound X 4 ltac:(lia)).
  pose proof (Zdigits2_lt_pow (X / 4) (Z.div_pos X 4 H ltac:(lia))). lia.
Qed.

Lemma Zdigits2_div_shift (N D j : Z) :
  0 < D -> 0 < N / D -> 0 <= j -> Zdigits2 (N * 2 ^ j / D) = Zdigits2 (N / D) + j.
Proof.
  intros HD Hq Hj.
  destruct (Zdigits2_bounds (N / D) Hq) as [L U].
  pose proof (Z.div_mod N D ltac:(lia)) as DM. pose proof (Z.mod_pos_bound N D HD) as MB.
  pose proof (pow2_pos j Hj) as Pj.
  assert (Hd : 0 < Zdigits2 (N / D)).
  { destruct (N / D); simpl in *; lia. }
  apply Zdigits2_unique; [|lia]. split.
  - apply Z.div_le_lower_bound; [exact HD|].
    replace (Zdigits2 (N / D) + j - 1) with ((Zdigits2 (N / D) - 1) + j) by lia.
    rewrite pow2_add by lia.
    assert (D * 2 ^ (Zdigits2 (N / D) - 1) <= N) by nia.
    rewrite Z.mul_assoc. apply Z.mul_le_mono_nonneg_r; lia.
  - apply Z.div_lt_upper_bound; [exact HD|].
    rewrite pow2_add by lia.
    assert (N < D * 2 ^ Zdigits2 (N / D)) by nia.
    rewrite Z.mul_assoc. apply Z.mul_lt_mono_pos_r; lia.
Qed.

Lemma iter_xO_pow (d m : positive) : Zpos (Pos.iter xO m d) = Zpos m * 2 ^ Zpos d.
Proof.
  induction d as [|d IH] using Pos.peano_ind.
  - simpl. lia.
  - rewrite Pos.iter_succ, Pos2Z.inj_xO, IH, Pos2Z.inj_succ.
    unfold Z.succ. rewrite pow2_add by lia. change (2 ^ 1) with 2. ring.
Qed.

Lemma shl_align_spec (mx : positive) (ex ex' : Z) :
  snd (shl_align mx ex ex') = Z.min ex ex'
  /\ Zpos (fst (shl_align mx ex ex')) = Zpos mx * 2 ^ (ex - Z.min ex ex').
Proof.
  unfold shl_align. destruct (ex' - ex) as [|d|d] eqn:E; cbn [fst snd].
  - replace (Z.min ex ex') with ex by lia. rewrite Z.sub_diag. simpl. lia.
  - replace (Z.min ex ex') with ex by lia. rewrite Z.sub_diag. simpl. lia.
  - replace (Z.min ex ex') with ex' by lia. rewrite iter_xO_pow.
    replace (ex - ex') with (Zpos d) by lia. split; reflexivity.
Qed.

Section Rounding.
Variables prec emax : Z.

Local Abbreviation fexp := (fexp prec emax).
Local Abbreviation emin := (emin prec emax).
Local Abbreviation renc := (round_enc prec emax).
Local Abbreviation fpair := (float_of_pair prec emax).

Lemma binary_round_aux_enc (s : bool) (mx ex : Z) (lx : location) :
  0 <= mx ->
  binary_round_aux prec emax s mx ex lx
  = fpair s (renc (4 * mx + code_of_loc lx) ex).
Proof.
  intros Hm. unfold binary_round_aux, shr_fexp, round_enc, float_of_pair.
  assert (Hq : (4 * mx + code_of_loc lx) / 4 = mx).
  { symmetry. apply (Z.div_unique _ 4 _ (code_of_loc lx)); destruct lx as [|[| |]]; simpl; lia. }
  rewrite Hq.
  set (n1 := fexp (Zdigits2 mx + ex) - ex).
  assert (H0 : 0 <= shr_m (shr_record_of_loc mx lx)) by (destruct lx as [|[| |]]; simpl; lia).
  destruct (shr_enc (shr_record_of_loc mx lx) ex n1 H0) as (E1 & E2 & E3).
  destruct (shr (shr_record_of_loc mx lx) ex n1) as [mrs' e'] eqn:Hs1.
  cbn [fst snd] in *. rewrite enc_of_loc in E1. rewrite rne_enc, E1.
  set (m1 := rne (sshiftn (Z.max 0 n1) (4 * mx + code_of_loc lx))).
  subst e'. set (e1 := ex + Z.max 0 n1).
  set (n2 := fexp (Zdigits2 m1 + e1) - e1).
  assert (Hm1 : 0 <= m1).
  { unfold m1. rewrite <- E1, <- rne_enc.
    destruct mrs' as [m' [|] [|]]; simpl in *; try lia; destruct (Z.even m'); lia. }
  assert (H1 : 0 <= shr_m (shr_record_of_loc m1 loc_Exact)) by (simpl; lia).
  destruct (shr_enc (shr_record_of_loc m1 loc_Exact) e1 n2 H1) as (F1 & F2 & F3).
  destruct (shr (shr_record_of_loc m1 loc_Exact) e1 n2) as [mrs'' e''] eqn:Hs2.
  cbn [fst snd] in *. rewrite enc_of_loc in F1. simpl (code_of_loc loc_Exact) in F1.
  rewrite Z.add_0_r in F1.
  rewrite (enc_shr_m mrs''), F1, sshiftn_exact_div by lia. subst e''. reflexivity.
Qed.

Hypothesis Hprec : 0 < prec.
Hypothesis Hemax : prec < emax.
Variable K : Z.
Hypothesis HK : K <= emin.
Local Abbreviation target := (target prec emax K).
Local Abbreviation mant := (mant prec emax K).
Local Abbreviation rounded := (rounded prec emax K).

Lemma emin_nonpos : emin <= 0.
Proof. unfold SpecFloat.emin. lia. Qed.

Lemma fexp_mono (a b : Z) : a <= b -> fexp a <= fexp b.
Proof. unfold SpecFloat.fexp. lia. Qed.

Lemma fexp_ge_emin (a : Z) : emin <= fexp a.
Proof. unfold SpecFloat.fexp. lia. Qed.

Lemma target_ge (X : Z) : K <= target X.
Proof. unfold target. pose proof (fexp_ge_emin (Zdigits2 (X / 4) + K)). lia. Qed.

Lemma mant_nonneg (X : Z) : 0 <= X -> 0 <= mant X.
Proof.
  intros H. unfold mant. apply rne_nonneg, sshiftn_nonneg; [|exact H].
  pose proof (target_ge X). lia.
Qed.

Lemma mant_upper (X : Z) :
  0 <= X -> target X - K <= Zdigits2 (X / 4) ->
  mant X <= 2 ^ (Zdigits2 (X / 4) - (target X - K)).
Proof.
  intros HX Hn. pose proof (target_ge X) as Ht. unfold mant.
  set (n := target X - K) in *. set (d := Zdigits2 (X / 4)) in *.
  rewrite <- (rne_4 (2 ^ (d - n))). apply rne_mono.
  rewrite <- (sshiftn_exact n (2 ^ (d - n))) by lia.
  apply sshiftn_mono; [lia|].
  rewrite <- pow2_split by lia. pose proof (enc_lt_pow X HX). fold d in H. lia.
Qed.

Lemma mant_zero (X : Z) :
  0 <= X -> Zdigits2 (X / 4) < target X - K -> mant X = 0.
Proof.
  intros HX Hn. pose proof (target_ge X) as Ht. unfold mant.
  apply rne_small, sshiftn_small; [lia|]. split; [exact HX|].
  pose proof (enc_lt_pow X HX).
  pose proof (Zdigits2_nonneg (X / 4)).
  pose proof (pow2_le (Zdigits2 (X / 4) + 2) (target X - K + 1) ltac:(lia)).
  rewrite pow2_add in H1 by lia. change (2 ^ 2) with 4 in H1. lia.
Qed.

Lemma mant_lower (X : Z) :
  0 < X / 4 -> target X - K <= Zdigits2 (X / 4) - 1 ->
  2 ^ (Zdigits2 (X / 4) - 1 - (target X - K)) <= mant X.
Proof.
  intros HX Hn. pose proof (target_ge X) as Ht. unfold mant.
  set (n := target X - K) in *. set (d := Zdigits2 (X / 4)) in *.
  rewrite <- (rne_4 (2 ^ (d - 1 - n))). apply rne_mono.
  rewrite <- (sshiftn_exact n (2 ^ (d - 1 - n))) by lia.
  apply sshiftn_mono; [lia|].
  rewrite <- pow2_split by lia.
  destruct (Zdigits2_bounds (X / 4) HX) as [L _]. fold d in L.
  pose proof (Z.div_mod X 4 ltac:(lia)). pose proof (Z.mod_pos_bound X 4 ltac:(lia)). lia.
Qed.

Lemma rounded_mono (X Y : Z) : 0 <= X <= Y -> rounded X <= rounded Y.
Proof.
  intros [HX HXY].
  assert (Hd : Zdigits2 (X / 4) <= Zdigits2 (Y / 4)).
  { apply Zdigits2_mono. split; [apply Z.div_pos; lia | apply Z.div_le_mono; lia]. }
  pose proof (target_ge X) as HtX. pose proof (target_ge Y) as HtY.
  assert (Ht : target X <= target Y) by (apply fexp_mono; lia).
  destruct (Z.eq_dec (target X) (target Y)) as [E|N].
  - unfold rounded, mant. rewrite E.
    apply Z.mul_le_mono_nonneg_r; [pose proof (pow2_pos (target Y - K)); lia|].
    apply rne_mono, sshiftn_mono; lia.
  - assert (HtY' : target Y = Zdigits2 (Y / 4) + K - prec).
    { unfold target, SpecFloat.fexp in *. lia. }
    assert (HdXY : Zdigits2 (X / 4) < Zdigits2 (Y / 4)).
    { destruct (Z.eq_dec (Zdigits2 (X / 4)) (Zdigits2 (Y / 4))) as [E|]; [|lia].
      unfold target in N. rewrite E in N. contradiction. }
    pose proof (Zdigits2_nonneg (X / 4)) as HdX.
    assert (HY4 : 0 < Y / 4).
    { destruct (Z.eq_dec (Y / 4) 0) as [E|]; [rewrite E in HdXY; simpl in HdXY; lia|].
      pose proof (Z.div_pos Y 4 ltac:(lia) ltac:(lia)). lia. }
    apply Z.le_trans with (2 ^ (Zdigits2 (Y / 4) - 1)).
    + destruct (Z.le_gt_cases (target X - K) (Zdigits2 (X / 4))) as [Hn|Hn].
      * unfold rounded.
        apply Z.le_trans with (2 ^ (Zdigits2 (X / 4) - (target X - K)) * 2 ^ (target X - K)).
        { apply Z.mul_le_mono_nonneg_r; [pose proof (pow2_pos (target X - K)); lia|].
          apply mant_upper; assumption. }
        rewrite <- pow2_split by lia. apply pow2_le. lia.
      * unfold rounded. rewrite mant_zero by assumption.
        pose proof (pow2_pos (Zdigits2 (Y / 4) - 1)). lia.
    + unfold rounded.
      apply Z.le_trans with (2 ^ (Zdigits2 (Y / 4) - 1 - (target Y - K)) * 2 ^ (target Y - K)).
      * rewrite <- pow2_split by lia. lia.
      * apply Z.mul_le_mono_nonneg_r; [pose proof (pow2_pos (target Y - K)); lia|].
        apply mant_lower; [assumption | lia].
Qed.

Lemma round_enc_base (X : Z) :
  renc X K
  = (mant X / 2 ^ Z.max 0 (fexp (Zdigits2 (mant X) + target X) - target X),
     target X + Z.max 0 (fexp (Zdigits2 (mant X) + target X) - target X)).
Proof.
  unfold round_enc, mant. fold (target X). pose proof (target_ge X).
  replace (Z.max 0 (target X - K)) with (target X - K) by lia.
  replace (K + (target X - K)) with (target X) by lia. reflexivity.
Qed.

(** The result of rounding: a canonical mantissa and exponent with the
    rounded value, or a zero mantissa. *)
Lemma round_enc_canonical (X : Z) :
  0 <= X ->
  let m := fst (renc X K) in
  let e := snd (renc X K) in
  0 <= m /\ K <= e /\ m * 2 ^ (e - K) = rounded X
  /\ (0 < m -> fexp (Zdigits2 m + e) = e).
Proof.
  intros HX. rewrite round_enc_base. cbn [fst snd].
  pose proof (target_ge X) as Ht. pose proof (mant_nonneg X HX) as Hm.
  pose proof (Zdigits2_nonneg (X / 4)) as Hd.
  set (t := target X) in *. set (m1 := mant X) in *.
  destruct (Z.eq_dec m1 0) as [E0|N0].
  { rewrite E0. simpl (Zdigits2 0).
    assert (fexp (0 + t) <= t).
    { unfold t, target, SpecFloat.fexp. pose proof emin_nonpos. lia. }
    replace (Z.max 0 (fexp (0 + t) - t)) with 0 by lia.
    unfold rounded. fold m1 t. rewrite E0, Z.pow_0_r, Z.div_1_r, Z.add_0_r.
    rewrite !Z.mul_0_l. repeat split; lia. }
  assert (Hm1 : 0 < m1) by lia.
  assert (Hn : t - K <= Zdigits2 (X / 4)).
  { destruct (Z.le_gt_cases (t - K) (Zdigits2 (X / 4))); [assumption|].
    pose proof (mant_zero X HX ltac:(assumption)). unfold m1 in N0. contradiction. }
  pose proof (mant_upper X HX Hn) as Hup. fold t m1 in Hup.
  destruct (Zdigits2_bounds m1 Hm1) as [DL DU].
  destruct (Z.le_gt_cases emin (Zdigits2 (X / 4) + K - prec)) as [Hnorm|Hsub].
  - (* normal range: the mantissa has [prec] digits before rounding *)
    assert (Et : t = Zdigits2 (X / 4) + K - prec).
    { unfold t, target, SpecFloat.fexp. lia. }
    assert (HX4 : 0 < X / 4).
    { destruct (Z.eq_dec (X / 4) 0) as [E|]; [rewrite E in *; simpl in *; lia|].
      pose proof (Z.div_pos X 4 HX ltac:(lia)). lia. }
    pose proof (mant_lower X HX4 ltac:(fold t; lia)) as Hlo. fold t m1 in Hlo.
    replace (Zdigits2 (X / 4) - (t - K)) with prec in Hup by lia.
    replace (Zdigits2 (X / 4) - 1 - (t - K)) with (prec - 1) in Hlo by lia.
    destruct (Z.eq_dec m1 (2 ^ prec)) as [Ecarry|Ncarry].
    + assert (Ed : Zdigits2 m1 = prec + 1).
      { apply Zdigits2_unique; [|lia]. replace (prec + 1 - 1) with prec by lia.
        rewrite Ecarry. split; [lia|]. apply pow2_lt; lia. }
      rewrite Ed.
      assert (En : fexp (prec + 1 + t) = t + 1) by (unfold SpecFloat.fexp; lia).
      rewrite En. replace (Z.max 0 (t + 1 - t)) with 1 by lia.
      change (2 ^ 1) with 2.
      assert (Eh : m1 / 2 = 2 ^ (prec - 1)).
      { rewrite Ecarry. rewrite (pow2_split prec 1) by lia. change (2 ^ 1) with 2.
        apply Z.div_mul. lia. }
      rewrite Eh. pose proof (pow2_pos (prec - 1) ltac:(lia)).
      split; [lia|]. split; [lia|]. split.
      * unfold rounded. fold t m1. rewrite Ecarry.
        replace (t + 1 - K) with ((t - K) + 1) by lia.
        rewrite (pow2_add (t - K) 1) by lia. rewrite (pow2_split prec 1) by lia. ring.
      * intros _.
        assert (Zdigits2 (2 ^ (prec - 1)) = prec) as ->.
        { apply Zdigits2_unique; [|lia]. split; [lia|]. apply pow2_lt; lia. }
        unfold SpecFloat.fexp. lia.
    + assert (Ed : Zdigits2 m1 = prec).
      { apply Zdigits2_unique; [|lia]. lia. }
      rewrite Ed.
      assert (En : fexp (prec + t) = t) by (unfold SpecFloat.fexp; lia).
      rewrite En. replace (Z.max 0 (t - t)) with 0 by lia.
      change (2 ^ 0) with 1. rewrite Z.div_1_r, Z.add_0_r.
      split; [lia|]. split; [lia|]. split; [reflexivity|].
      intros _. rewrite Ed. exact En.
  - (* subnormal range *)
    assert (Et : t = emin) by (unfold t, target, SpecFloat.fexp; lia).
    assert (Hdig : Zdigits2 m1 <= prec).
    { apply Zdigits2_le; [lia | lia|].
      apply Z.le_lt_trans with (2 ^ (Zdigits2 (X / 4) - (t - K))); [exact Hup|].
      apply pow2_lt; lia. }
    assert (En : fexp (Zdigits2 m1 + t) = t) by (unfold SpecFloat.fexp; lia).
    rewrite En. replace (Z.max 0 (t - t)) with 0 by lia.
    change (2 ^ 0) with 1. rewrite Z.div_1_r, Z.add_0_r.
    split; [lia|]. split; [lia|]. split; [reflexivity|].
    intros _. exact En.
Qed.

(** Canonical numbers are ordered as their exponents, then mantissas. *)
Lemma canonical_order (m e m' e' : Z) :
  0 < m -> 0 < m' -> K <= e -> K <= e' ->
  fexp (Zdigits2 m + e) = e -> fexp (Zdigits2 m' + e') = e' ->
  m * 2 ^ (e - K) <= m' * 2 ^ (e' - K) ->
  e < e' \/ (e = e' /\ m <= m').
Proof.
  intros Hm Hm' He He' Hc Hc' Hle.
  destruct (Z.lt_trichotomy e e') as [L|[E|G]]; [left; exact L| |].
  - right. split; [exact E|]. subst e'.
    pose proof (pow2_pos (e - K) ltac:(lia)). nia.
  - exfalso.
    assert (Hd : Zdigits2 m' + e' < Zdigits2 m + e).
    { destruct (Z.le_gt_cases (Zdigits2 m + e) (Zdigits2 m' + e')) as [H|H]; [|lia].
      pose proof (fexp_mono _ _ H). lia. }
    destruct (Zdigits2_bounds m Hm) as [L _].
    destruct (Zdigits2_bounds m' Hm') as [_ U].
    pose proof (Zdigits2_nonneg m). pose proof (Zdigits2_nonneg m').
    assert (Zdigits2 m <> 0).
    { intros E0. rewrite E0 in L. simpl in L.
      destruct m; simpl in E0; try lia. }
    assert (Hv1 : 2 ^ (Zdigits2 m - 1 + (e - K)) <= m * 2 ^ (e - K)).
    { rewrite pow2_add by lia. apply Z.mul_le_mono_nonneg_r; [pose proof (pow2_pos (e - K)); lia | exact L]. }
    assert (Hv2 : m' * 2 ^ (e' - K) < 2 ^ (Zdigits2 m' + (e' - K))).
    { rewrite pow2_add by lia. apply Z.mul_lt_mono_pos_r; [apply pow2_pos; lia | exact U]. }
    pose proof (pow2_le (Zdigits2 m' + (e' - K)) (Zdigits2 m - 1 + (e - K)) ltac:(lia)).
    lia.
Qed.

Lemma float_of_pair_leb (m e m' e' : Z) :
  0 <= m -> 0 <= m' ->
  (0 < m -> 0 < m' /\ (e < e' \/ (e = e' /\ m <= m'))) ->
  SFleb (fpair false (m, e)) (fpair false (m', e')) = true.
Proof.
  intros Hm Hm' H. unfold float_of_pair; cbn [fst snd].
  destruct m as [|p|p]; [| |lia].
  - destruct m' as [|p'|p']; [reflexivity| |lia].
    destruct (e' <=? emax - prec); reflexivity.
  - destruct (H ltac:(lia)) as [Hp Ho].
    destruct m' as [|p'|p']; try lia.
    destruct (Z.leb_spec e (emax - prec)); destruct (Z.leb_spec e' (emax - prec));
      try reflexivity; [|lia].
    unfold SFleb, SFcompare. destruct Ho as [L|[-> L]].
    + rewrite (proj2 (Z.compare_lt_iff e e') L). reflexivity.
    + rewrite Z.compare_refl.
      rewrite Pos.compare_cont_spec. simpl.
      destruct (Pos.compare_spec p p'); try reflexivity. lia.
Qed.

(** Rounding is monotone. *)
Lemma round_enc_mono (X Y : Z) :
  0 <= X <= Y ->
  SFleb (fpair false (renc X K)) (fpair false (renc Y K)) = true.
Proof.
  intros [HX HXY].
  destruct (round_enc_canonical X HX) as (M1 & E1 & V1 & C1).
  destruct (round_enc_canonical Y ltac:(lia)) as (M2 & E2 & V2 & C2).
  pose proof (rounded_mono X Y ltac:(lia)) as HR.
  destruct (renc X K) as [m e]. destruct (renc Y K) as [m' e'].
  cbn [fst snd] in *.
  apply float_of_pair_leb; [assumption..|].
  intros Hpos.
  assert (0 < m').
  { destruct (Z.eq_dec m' 0) as [E|]; [|lia].
    rewrite E in V2. simpl in V2. pose proof (pow2_pos (e - K) ltac:(lia)). nia. }
  split; [assumption|].
  apply canonical_order; auto. lia.
Qed.

(** A mantissa and exponent fine enough for [binary_round_aux] can be
    brought to the exponent [K] without changing the result. *)
Lemma round_enc_align (N D e : Z) :
  0 < D -> 0 < N / D -> K <= e -> e <= fexp (Zdigits2 (N / D) + e) ->
  renc (stk N D) e = renc (stk (N * 2 ^ (e - K)) D) K.
Proof.
  intros HD Hq He Hpre. unfold round_enc.
  rewrite !stk_div4 by exact HD.
  rewrite Zdigits2_div_shift by lia.
  replace (Zdigits2 (N / D) + (e - K) + K) with (Zdigits2 (N / D) + e) by lia.
  set (t := fexp (Zdigits2 (N / D) + e)) in *.
  replace (Z.max 0 (t - e)) with (t - e) by lia.
  replace (Z.max 0 (t - K)) with (t - K) by lia.
  pose proof (pow2_pos (e - K) ltac:(lia)). pose proof (pow2_pos (t - e) ltac:(lia)).
  rewrite !stk_shift by lia.
  replace (D * 2 ^ (t - K)) with (2 ^ (e - K) * (D * 2 ^ (t - e))).
  2: { rewrite (pow2_split (t - K) (e - K)) by lia.
       replace (t - K - (e - K)) with (t - e) by lia. ring. }
  replace (N * 2 ^ (e - K)) with (2 ^ (e - K) * N) by ring.
  rewrite stk_scale by nia.
  replace (e + (t - e)) with t by lia. replace (K + (t - K)) with t by lia.
  reflexivity.
Qed.

Lemma round_enc_align_exact (m e : Z) :
  0 < m -> K <= e -> e <= fexp (Zdigits2 m + e) ->
  renc (4 * m) e = renc (4 * (m * 2 ^ (e - K))) K.
Proof.
  intros Hm He Hpre. rewrite <- !stk_exact.
  apply round_enc_align; rewrite ?Z.div_1_r; auto; lia.
Qed.

Lemma round_enc_canonical_id (m e : Z) :
  0 < m -> fexp (Zdigits2 m + e) = e -> renc (4 * m) e = (m, e).
Proof.
  intros Hm Hc. unfold round_enc.
  replace (4 * m / 4) with m by (symmetry; rewrite Z.mul_comm; apply Z.div_mul; lia).
  rewrite Hc, Z.sub_diag. simpl (Z.max 0 0). rewrite sshiftn_0, rne_4, Z.add_0_r.
  rewrite Hc, Z.sub_diag. simpl (Z.max 0 0). rewrite Z.pow_0_r, Z.div_1_r, Z.add_0_r.
  reflexivity.
Qed.

(** A number of the format is its own rounding. *)
Lemma round_enc_representable (s : bool) (m : positive) (e : Z) :
  bounded prec emax m e = true ->
  fpair s (renc (4 * (Zpos m * 2 ^ (e - K))) K) = S754_finite s m e.
Proof.
  unfold bounded, canonical_mantissa. intros H.
  apply andb_true_iff in H. destruct H as [Hc Hb].
  apply Z.eqb_eq in Hc. apply Z.leb_le in Hb.
  assert (He : K <= e) by (pose proof (fexp_ge_emin (Zpos (digits2_pos m) + e)); lia).
  rewrite <- round_enc_align_exact;
    [|lia|exact He|change (Zdigits2 (Zpos m)) with (Zpos (digits2_pos m)); lia].
  rewrite round_enc_canonical_id; [|lia|exact Hc].
  unfold float_of_pair; cbn [fst snd].
  destruct (Z.leb_spec e (emax - prec)); [reflexivity | lia].
Qed.

(** [binary_round] is the rounding at exponent [K] of the same value. *)
Lemma binary_round_base (s : bool) (m : positive) (e : Z) :
  K <= e ->
  binary_round prec emax s m e
  = fpair s (renc (4 * (Zpos m * 2 ^ (e - K))) K).
Proof.
  intros He. unfold binary_round.
  destruct (shl_align_spec m e (fexp (Zpos (digits2_pos m) + e))) as [E1 E2].
  destruct (shl_align m e (fexp (Zpos (digits2_pos m) + e))) as [mz ez].
  cbn [fst snd] in *.
  rewrite binary_round_aux_enc by lia. simpl (code_of_loc loc_Exact).
  rewrite Z.add_0_r. f_equal.
  pose proof (fexp_ge_emin (Zpos (digits2_pos m) + e)) as Hfe.
  assert (Hdig : Zdigits2 (Zpos mz) + ez = Zpos (digits2_pos m) + e).
  { rewrite E2. rewrite Zdigits2_shift by lia. simpl (Zdigits2 (Zpos m)). lia. }
  rewrite round_enc_align_exact; [|lia|lia|rewrite Hdig; lia].
  f_equal. f_equal. rewrite E2, <- Z.mul_assoc, <- pow2_add by lia.
  f_equal. f_equal. lia.
Qed.

(** The order of two positive numbers of the format is that of their
    values. *)
Lemma SFleb_finite_pos (m m' : positive) (e e' : Z) :
  bounded prec emax m e = true -> bounded prec emax m' e' = true ->
  (SFleb (S754_finite false m e) (S754_finite false m' e') = true
   <-> Zpos m * 2 ^ (e - K) <= Zpos m' * 2 ^ (e' - K)).
Proof.
  unfold bounded, canonical_mantissa. intros H H'.
  apply andb_true_iff in H. destruct H as [Hc _]. apply Z.eqb_eq in Hc.
  apply andb_true_iff in H'. destruct H' as [Hc' _]. apply Z.eqb_eq in Hc'.
  assert (He : K <= e) by (pose proof (fexp_ge_emin (Zpos (digits2_pos m) + e)); lia).
  assert (He' : K <= e') by (pose proof (fexp_ge_emin (Zpos (digits2_pos m') + e')); lia).
  split.
  - intros Hle.
    destruct (Z.le_gt_cases (Zpos m * 2 ^ (e - K)) (Zpos m' * 2 ^ (e' - K))) as [|G];
      [assumption|exfalso].
    destruct (canonical_order (Zpos m') e' (Zpos m) e) as [L|[E L]]; auto; try lia.
    + unfold SFleb, SFcompare in Hle.
      rewrite (proj2 (Z.compare_gt_iff e e') L) in Hle. discriminate.
    + subst e'. assert (Zpos m' < Zpos m) by (pose proof (pow2_pos (e - K) ltac:(lia)); nia).
      unfold SFleb, SFcompare in Hle. rewrite Z.compare_refl in Hle.
      rewrite Pos.compare_cont_spec in Hle. simpl in Hle.
      destruct (Pos.compare_spec m m'); try discriminate; lia.
  - intros Hle.
    change (S754_finite false m e) with
      (match Zpos m with Z0 => S754_zero false | Zpos p => S754_finite false p e
                    | Zneg _ => S754_nan end).
    destruct (canonical_order (Zpos m) e (Zpos m') e') as [L|[E L]]; auto; try lia.
    + unfold SFleb, SFcompare.
      rewrite (proj2 (Z.compare_lt_iff e e') L). reflexivity.
    + subst e'. unfold SFleb, SFcompare. rewrite Z.compare_refl.
      rewrite Pos.compare_cont_spec. simpl.
      destruct (Pos.compare_spec m m'); try reflexivity. lia.
Qed.

End Rounding.

(** ** Binary64 *)

Lemma prec64_pos : 0 < prec64.
Proof. unfold prec64. lia. Qed.

Lemma prec64_lt_emax64 : prec64 < emax64.
Proof. unfold prec64, emax64. lia. Qed.

Lemma K64_le_emin : K64 <= emin prec64 emax64.
Proof. unfold K64, emin, prec64, emax64. lia. Qed.

Lemma emin64_eq : emin prec64 emax64 = emin64.
Proof. reflexivity. Qed.

Lemma U64_pos : 0 < U64.
Proof. unfold U64. apply pow2_pos. lia. Qed.

Lemma pow2_units (e : Z) : emin64 <= e -> 2 ^ (e - K64) = 2 ^ (e - emin64) * U64.
Proof.
  intros He. unfold U64, K64, emin64 in *. rewrite <- pow2_add by lia.
  f_equal. lia.
Qed.

Lemma bounded_exponent (m : positive) (e : Z) :
  bounded prec64 emax64 m e = true ->
  fexp prec64 emax64 (Zpos (digits2_pos m) + e) = e /\ emin64 <= e <= emax64 - prec64.
Proof.
  unfold bounded, canonical_mantissa. intros H.
  apply andb_true_iff in H. destruct H as [Hc Hb].
  apply Z.eqb_eq in Hc. apply Z.leb_le in Hb.
  split; [exact Hc|]. split; [|exact Hb].
  pose proof (fexp_ge_emin prec64 emax64 (Zpos (digits2_pos m) + e)).
  rewrite emin64_eq in H. lia.
Qed.

Lemma rho_mono (X Y : Z) : 0 <= X <= Y -> SFleb (rho false X) (rho false Y) = true.
Proof.
  apply (round_enc_mono prec64 emax64 prec64_pos prec64_lt_emax64 K64 K64_le_emin).
Qed.

Lemma rho_representable (s : bool) (m : positive) (e : Z) :
  bounded prec64 emax64 m e = true ->
  rho s (4 * (Zpos m * 2 ^ (e - K64))) = S754_finite s m e.
Proof.
  apply (round_enc_representable prec64 emax64 K64 K64_le_emin).
Qed.

Lemma rho_zero (s : bool) : rho s 0 = S754_zero s.
Proof. reflexivity. Qed.

(** The three shapes of a rounded non-negative value. *)
Lemma rho_cases (s : bool) (X : Z) :
  0 <= X ->
  (rho s X = S754_zero s /\ rounded64 X = 0)
  \/ (exists m e, rho s X = S754_finite s m e
                  /\ bounded prec64 emax64 m e = true
                  /\ Zpos m * 2 ^ (e - K64) = rounded64 X)
  \/ (rho s X = S754_infinity s /\ 0 < rounded64 X).
Proof.
  intros HX. unfold rho, rounded64.
  destruct (round_enc_canonical prec64 emax64 prec64_pos prec64_lt_emax64 K64
              K64_le_emin X HX) as (Hm & He & Hv & Hc).
  destruct (round_enc prec64 emax64 X K64) as [m e]. cbn [fst snd] in *.
  unfold float_of_pair; cbn [fst snd].
  destruct m as [|p|p]; [| |lia].
  - left. split; [reflexivity|]. rewrite <- Hv. reflexivity.
  - specialize (Hc ltac:(lia)).
    destruct (Z.leb_spec e (emax64 - prec64)) as [Hb|Hb].
    + right; left. exists p, e. split; [reflexivity|]. split; [|exact Hv].
      unfold bounded, canonical_mantissa. apply andb_true_iff. split.
      * apply Z.eqb_eq. exact Hc.
      * apply Z.leb_le. exact Hb.
    + right; right. split; [reflexivity|]. rewrite <- Hv.
      apply Z.mul_pos_pos; [lia | apply pow2_pos; lia].
Qed.

Lemma rho_has_sign (s : bool) (X : Z) : 0 <= X -> has_sign s (rho s X).
Proof.
  intros HX. destruct (rho_cases s X HX) as [[-> _]|[(m & e & -> & _)|[-> _]]];
    reflexivity.
Qed.

Lemma rho_opp (s : bool) (X : Z) : rho (negb s) X = SFopp (rho s X).
Proof.
  unfold rho, float_of_pair.
  destruct (fst (round_enc prec64 emax64 X K64)); [reflexivity| |reflexivity].
  destruct (_ <=? _); reflexivity.
Qed.

Lemma rho_valid (s : bool) (X : Z) : 0 <= X -> is_float64 (rho s X) = true.
Proof.
  intros HX. destruct (rho_cases s X HX) as [[-> _]|[(m & e & -> & Hb & _)|[-> _]]];
    try reflexivity. exact Hb.
Qed.

Lemma Zdigits2_mul_lower (a b : Z) :
  0 < a -> 0 < b -> Zdigits2 a + Zdigits2 b - 1 <= Zdigits2 (a * b).
Proof.
  intros Ha Hb.
  destruct (Zdigits2_bounds a Ha) as [La _]. destruct (Zdigits2_bounds b Hb) as [Lb _].
  assert (Hab : 0 < a * b) by (apply Z.mul_pos_pos; assumption).
  destruct (Zdigits2_bounds (a * b) Hab) as [_ Uab].
  pose proof (Zdigits2_nonneg a). pose proof (Zdigits2_nonneg b).
  assert (0 < Zdigits2 a) by (destruct a; simpl in *; lia).
  assert (0 < Zdigits2 b) by (destruct b; simpl in *; lia).
  destruct (Z.le_gt_cases (Zdigits2 a + Zdigits2 b - 1) (Zdigits2 (a * b))) as [|G];
    [assumption|exfalso].
  pose proof (pow2_le (Zdigits2 (a * b)) ((Zdigits2 a - 1) + (Zdigits2 b - 1)) ltac:(lia)) as P.
  rewrite pow2_add in P by lia.
  pose proof (pow2_pos (Zdigits2 a - 1) ltac:(lia)).
  pose proof (pow2_pos (Zdigits2 b - 1) ltac:(lia)).
  assert (2 ^ (Zdigits2 a - 1) * 2 ^ (Zdigits2 b - 1) <= a * b) by nia.
  lia.
Qed.

(** The product of two finite floats is the rounding of the exact
    product of their values. *)
Lemma fmul_finite (sx sy : bool) (mx my : positive) (ex ey : Z) :
  bounded prec64 emax64 mx ex = true -> bounded prec64 emax64 my ey = true ->
  fmul (S754_finite sx mx ex) (S754_finite sy my ey)
  = rho (xorb sx sy)
        (4 * ((Zpos mx * 2 ^ (ex - emin64)) * (Zpos my * 2 ^ (ey - emin64)))).
Proof.
  intros Hx Hy.
  destruct (bounded_exponent mx ex Hx) as [Cx [Lx _]].
  destruct (bounded_exponent my ey Hy) as [Cy [Ly _]].
  unfold fmul, SFmul. rewrite binary_round_aux_enc by lia.
  simpl (code_of_loc loc_Exact). rewrite Z.add_0_r. unfold rho. f_equal.
  rewrite (round_enc_align_exact prec64 emax64 K64).
  - f_equal. f_equal. rewrite Pos2Z.inj_mul.
    replace (ex + ey - K64) with ((ex - emin64) + (ey - emin64))
      by (unfold K64, emin64; lia).
    rewrite pow2_add by lia. ring.
  - lia.
  - unfold K64, emin64 in *. lia.
  - pose proof (Zdigits2_mul_lower (Zpos mx) (Zpos my) ltac:(lia) ltac:(lia)) as Hd.
    rewrite Pos2Z.inj_mul.
    change (Zdigits2 (Zpos mx)) with (Zpos (digits2_pos mx)) in Hd.
    change (Zdigits2 (Zpos my)) with (Zpos (digits2_pos my)) in Hd.
    unfold fexp, emin, prec64, emax64, emin64 in *. lia.
Qed.

Lemma nonneg_finite_cases (x : float) :
  nonneg_finite x = true ->
  (exists s, x = S754_zero s)
  \/ (exists m e, x = S754_finite false m e /\ bounded prec64 emax64 m e = true).
Proof.
  unfold nonneg_finite, is_float64. intros H. apply andb_true_iff in H.
  destruct H as [Hv Hs]. destruct x as [s|s| |s m e]; try discriminate.
  - left. eauto.
  - destruct s; [discriminate|]. right. exists m, e. split; [reflexivity | exact Hv].
Qed.

Lemma units_finite_pos (m : positive) (e : Z) :
  emin64 <= e -> 0 < units (S754_finite false m e).
Proof.
  intros He. cbn [units cond_Zopp]. apply Z.mul_pos_pos; [lia | apply pow2_pos; lia].
Qed.

Lemma units_nonneg (x : float) : nonneg_finite x = true -> 0 <= units x.
Proof.
  intros H. destruct (nonneg_finite_cases x H) as [[s ->]|(m & e & -> & Hb)].
  - simpl. lia.
  - destruct (bounded_exponent m e Hb) as [_ [L _]].
    pose proof (units_finite_pos m e L). lia.
Qed.

Lemma units_scaled (m : positive) (e : Z) :
  emin64 <= e -> Zpos m * 2 ^ (e - K64) = units (S754_finite false m e) * U64.
Proof. intros He. cbn [units cond_Zopp]. rewrite pow2_units by exact He. ring. Qed.

(** On zeros and positive finite floats the order is that of the values. *)
Lemma SFleb_units (x y : float) :
  nonneg_finite x = true -> nonneg_finite y = true ->
  (SFleb x y = true <-> units x <= units y).
Proof.
  intros Hx Hy.
  destruct (nonneg_finite_cases x Hx) as [[s ->]|(m & e & -> & Hb)];
    destruct (nonneg_finite_cases y Hy) as [[s' ->]|(m' & e' & -> & Hb')].
  - simpl. split; [lia | reflexivity].
  - destruct (bounded_exponent m' e' Hb') as [_ [L _]].
    pose proof (units_finite_pos m' e' L). cbn [units] in *. simpl (units (S754_zero s)).
    split; [lia | reflexivity].
  - destruct (bounded_exponent m e Hb) as [_ [L _]].
    pose proof (units_finite_pos m e L). simpl (units (S754_zero s')).
    split; [discriminate | lia].
  - destruct (bounded_exponent m e Hb) as [_ [L _]].
    destruct (bounded_exponent m' e' Hb') as [_ [L' _]].
    rewrite (SFleb_finite_pos prec64 emax64 K64 K64_le_emin m m' e e' Hb Hb').
    rewrite !units_scaled by assumption.
    pose proof U64_pos. split; intros; nia.
Qed.

Lemma rho_below (X : Z) (y : float) :
  0 <= X -> nonneg_finite y = true -> SFleb (rho false X) y = true ->
  nonneg_finite (rho false X) = true /\ units (rho false X) * U64 = rounded64 X.
Proof.
  intros HX Hy Hle.
  destruct (rho_cases false X HX) as [[E R]|[(m & e & E & Hb & R)|[E _]]].
  - rewrite E. split; [reflexivity|]. simpl. lia.
  - rewrite E. destruct (bounded_exponent m e Hb) as [_ [L _]]. split.
    + unfold nonneg_finite, is_float64. simpl. rewrite Hb. reflexivity.
    + rewrite <- units_scaled by exact L. exact R.
  - rewrite E in Hle.
    destruct (nonneg_finite_cases y Hy) as [[s ->]|(m & e & -> & _)]; discriminate.
Qed.

Lemma rounded64_zero : rounded64 0 = 0.
Proof.
  destruct (rho_cases false 0 ltac:(lia)) as [[_ R]|[(m & e & E & _)|[E _]]];
    [exact R | rewrite rho_zero in E; discriminate..].
Qed.

Lemma rounded64_units (x : float) :
  nonneg_finite x = true -> rounded64 (4 * (units x * U64)) = units x * U64.
Proof.
  intros Hx. destruct (nonneg_finite_cases x Hx) as [[s ->]|(m & e & -> & Hb)].
  - simpl. apply rounded64_zero.
  - destruct (bounded_exponent m e Hb) as [_ [L _]].
    rewrite <- units_scaled by exact L.
    pose proof (rho_representable false m e Hb) as Hr.
    destruct (rho_cases false (4 * (Zpos m * 2 ^ (e - K64))))
      as [[E _]|[(m' & e' & E & _ & R)|[E _]]].
    + apply Z.mul_nonneg_nonneg; [lia|].
      apply Z.mul_nonneg_nonneg; [lia | apply Z.pow_nonneg; lia].
    + rewrite Hr in E. discriminate.
    + rewrite Hr in E. injection E as <- <-. symmetry. exact R.
    + rewrite Hr in E. discriminate.
Qed.

Lemma rho_of_float (x : float) (m : positive) (e : Z) :
  x = S754_finite false m e -> bounded prec64 emax64 m e = true ->
  rho false (4 * (units x * U64)) = x.
Proof.
  intros -> Hb. destruct (bounded_exponent m e Hb) as [_ [L _]].
  rewrite <- units_scaled by exact L. apply rho_representable. exact Hb.
Qed.

Lemma units_F1 : units F1 = U64.
Proof.
  unfold F1, units, cond_Zopp, U64, emin64.
  change (Zpos 4503599627370496) with (2 ^ 52).
  rewrite <- pow2_add by lia. reflexivity.
Qed.

Lemma F1_nonneg_finite : nonneg_finite F1 = true.
Proof. reflexivity. Qed.

(** Multiplying by a rate of at most one: the product is the rounding of
    the exact product, and is not above the amount. *)
Lemma fmul_rate (g f : float) :
  nonneg_finite g = true -> nonneg_finite f = true -> SFleb f F1 = true ->
  nonneg_finite (fmul g f) = true
  /\ units (fmul g f) * U64 = rounded64 (4 * (units g * units f))
  /\ units (fmul g f) <= units g.
Proof.
  intros Hg Hf Hle.
  assert (HF : units f <= U64).
  { rewrite <- units_F1. apply SFleb_units; auto using F1_nonneg_finite. }
  pose proof (units_nonneg f Hf) as HF0. pose proof (units_nonneg g Hg) as HG0.
  destruct (nonneg_finite_cases g Hg) as [[s Eg]|(m & e & Eg & Hb)].
  { (* a zero amount *)
    subst g. destruct (nonneg_finite_cases f Hf) as [[s' ->]|(m' & e' & -> & _)];
      cbn [units fmul SFmul]; rewrite Z.mul_0_l, Z.mul_0_r, rounded64_zero;
      repeat split; lia. }
  destruct (nonneg_finite_cases f Hf) as [[s' Ef]|(m' & e' & Ef & Hb')].
  { (* a zero rate *)
    subst f. rewrite Eg. cbn [fmul SFmul]. simpl (units (S754_zero _)).
    rewrite Z.mul_0_r, Z.mul_0_r, rounded64_zero. rewrite <- Eg.
    repeat split; lia. }
  assert (Hm : fmul g f = rho false (4 * (units g * units f))).
  { rewrite Eg, Ef. rewrite fmul_finite by assumption. reflexivity. }
  assert (Hbelow : SFleb (rho false (4 * (units g * units f))) g = true).
  { rewrite <- (rho_of_float g m e Eg Hb) at 2. apply rho_mono. nia. }
  rewrite Hm.
  assert (Hpos : 0 <= 4 * (units g * units f)) by nia.
  destruct (rho_below _ g Hpos Hg Hbelow) as [Hn Hu].
  split; [exact Hn|]. split; [exact Hu|].
  apply SFleb_units; assumption.
Qed.

Lemma shl_align_min (m : positive) (e ez : Z) :
  ez <= e -> Zpos (fst (shl_align m e ez)) = Zpos m * 2 ^ (e - ez).
Proof.
  intros H. destruct (shl_align_spec m e ez) as [_ E].
  rewrite E. replace (Z.min e ez) with ez by lia. reflexivity.
Qed.

(** The aligned mantissas of a subtraction, against the values. *)
Lemma aligned_units (m : positive) (e ez : Z) :
  emin64 <= ez <= e ->
  Zpos (fst (shl_align m e ez)) * 2 ^ (ez - emin64) = units (S754_finite false m e).
Proof.
  intros H. rewrite shl_align_min by lia. cbn [units cond_Zopp].
  rewrite <- Z.mul_assoc, <- pow2_add by lia. f_equal. f_equal. lia.
Qed.

Lemma fsub_finite_units (mx my : positive) (ex ey : Z) :
  bounded prec64 emax64 mx ex = true -> bounded prec64 emax64 my ey = true ->
  let z := Zpos (fst (shl_align mx ex (Z.min ex ey)))
           - Zpos (fst (shl_align my ey (Z.min ex ey))) in
  fsub (S754_finite false mx ex) (S754_finite false my ey)
  = binary_normalize prec64 emax64 z (Z.min ex ey) false
  /\ z * 2 ^ (Z.min ex ey - emin64)
     = units (S754_finite false mx ex) - units (S754_finite false my ey)
  /\ emin64 <= Z.min ex ey.
Proof.
  intros Hx Hy z.
  destruct (bounded_exponent mx ex Hx) as [_ [Lx _]].
  destruct (bounded_exponent my ey Hy) as [_ [Ly _]].
  split; [reflexivity|]. split; [|lia].
  unfold z. rewrite Z.mul_sub_distr_r, !aligned_units by lia. reflexivity.
Qed.

(** Subtracting a smaller amount: the difference is the rounding of the
    exact difference, is not negative, and is not above the minuend. *)
Lemma fsub_smaller (x y : float) :
  nonneg_finite x = true -> nonneg_finite y = true -> units y <= units x ->
  nonneg_finite (fsub x y) = true
  /\ units (fsub x y) * U64 = rounded64 (4 * ((units x - units y) * U64))
  /\ units (fsub x y) <= units x.
Proof.
  intros Hx Hy Hle.
  pose proof (units_nonneg x Hx) as HX0. pose proof (units_nonneg y Hy) as HY0.
  pose proof U64_pos as HU.
  destruct (nonneg_finite_cases y Hy) as [[s' Ey]|(my & ey & Ey & Hby)].
  { (* nothing to subtract *)
    assert (E : fsub x y = x \/ (exists s, fsub x y = S754_zero s) /\ units x = 0).
    { subst y. destruct (nonneg_finite_cases x Hx) as [[s ->]|(m & e & -> & _)].
      - right. split; [|reflexivity]. destruct s, s'; cbn; eauto.
      - left. reflexivity. }
    subst y. simpl (units (S754_zero s')). rewrite Z.sub_0_r.
    rewrite rounded64_units by exact Hx.
    destruct E as [-> | [[s ->] E0]]; [repeat split; auto; lia|].
    simpl (units (S754_zero s)). rewrite E0. repeat split; lia. }
  destruct (nonneg_finite_cases x Hx) as [[s Ex]|(mx & ex & Ex & Hbx)].
  { (* the minuend is zero, so the subtrahend cannot be positive *)
    exfalso. subst x y. destruct (bounded_exponent my ey Hby) as [_ [L _]].
    pose proof (units_finite_pos my ey L). simpl (units (S754_zero s)) in Hle. lia. }
  destruct (fsub_finite_units mx my ex ey Hbx Hby) as (Es & Ez & Lz).
  rewrite <- Ex, <- Ey in Es, Ez. cbv zeta in Es, Ez.
  set (z := Zpos (fst (shl_align mx ex (Z.min ex ey)))
            - Zpos (fst (shl_align my ey (Z.min ex ey)))) in *.
  set (ez := Z.min ex ey) in *.
  pose proof (pow2_pos (ez - emin64) ltac:(lia)) as Hp.
  assert (Hz : 0 <= z) by nia.
  rewrite Es. destruct z as [|p|p] eqn:Ezp; [| |lia].
  - (* the two amounts are equal *)
    cbn [binary_normalize]. simpl (units (S754_zero false)).
    replace (units x - units y) with 0 by lia.
    rewrite Z.mul_0_l, Z.mul_0_r, rounded64_zero. repeat split; lia.
  - cbn [binary_normalize].
    rewrite (binary_round_base prec64 emax64 K64 K64_le_emin)
      by (unfold K64, emin64 in *; lia).
    fold (rho false (4 * (Zpos p * 2 ^ (ez - K64)))).
    assert (Hv : Zpos p * 2 ^ (ez - K64) = (units x - units y) * U64).
    { rewrite pow2_units by lia. rewrite <- Ez. ring. }
    rewrite Hv.
    assert (Hbelow : SFleb (rho false (4 * ((units x - units y) * U64))) x = true).
    { rewrite <- (rho_of_float x mx ex Ex Hbx) at 2. apply rho_mono. nia. }
    assert (Hpos : 0 <= 4 * ((units x - units y) * U64)) by nia.
    destruct (rho_below _ x Hpos Hx Hbelow) as [Hn Hu].
    split; [exact Hn|]. split; [exact Hu|].
    apply SFleb_units; assumption.
Qed.

Lemma has_sign_true_not_positive (r : float) : has_sign true r -> fltb F0 r = false.
Proof. destruct r as [s|s| |s m e]; simpl; intros H; try contradiction; subst; reflexivity. Qed.

Lemma has_sign_false_nonneg (r : float) : has_sign false r -> SFleb F0 r = true.
Proof. destruct r as [s|s| |s m e]; simpl; intros H; try contradiction; subst; reflexivity. Qed.

(** Subtracting a larger amount never gives a positive number. *)
Lemma fsub_larger (x y : float) :
  nonneg_finite x = true -> nonneg_finite y = true -> units x <= units y ->
  fltb F0 (fsub x y) = false.
Proof.
  intros Hx Hy Hle.
  destruct (nonneg_finite_cases x Hx) as [[s Ex]|(mx & ex & Ex & Hbx)];
    destruct (nonneg_finite_cases y Hy) as [[s' Ey]|(my & ey & Ey & Hby)].
  - subst. destruct s, s'; reflexivity.
  - subst. reflexivity.
  - exfalso. subst. destruct (bounded_exponent mx ex Hbx) as [_ [L _]].
    pose proof (units_finite_pos mx ex L). simpl (units (S754_zero s')) in Hle. lia.
  - destruct (fsub_finite_units mx my ex ey Hbx Hby) as (Es & Ez & Lz).
    rewrite <- Ex, <- Ey in Es, Ez. cbv zeta in Es, Ez.
    set (z := Zpos (fst (shl_align mx ex (Z.min ex ey)))
              - Zpos (fst (shl_align my ey (Z.min ex ey)))) in *.
    set (ez := Z.min ex ey) in *.
    pose proof (pow2_pos (ez - emin64) ltac:(lia)) as Hp.
    assert (Hz : z <= 0) by nia.
    rewrite Es. destruct z as [|p|p]; [reflexivity | lia |].
    cbn [binary_normalize].
    rewrite (binary_round_base prec64 emax64 K64 K64_le_emin)
      by (unfold K64, emin64 in *; lia).
    apply has_sign_true_not_positive.
    apply (rho_has_sign true).
    apply Z.mul_nonneg_nonneg; [lia|].
    apply Z.mul_nonneg_nonneg; [lia | apply Z.pow_nonneg; lia].
Qed.

Lemma py_max_0 (y : float) :
  nonneg_finite y = true ->
  nonneg_finite (py_max F0 y) = true /\ units (py_max F0 y) = units y.
Proof.
  intros Hy. unfold py_max.
  destruct (nonneg_finite_cases y Hy) as [[s ->]|(m & e & -> & Hb)].
  - simpl. split; reflexivity.
  - simpl. split; [exact Hy | reflexivity].
Qed.

Lemma rounded64_mono (X Y : Z) : 0 <= X <= Y -> rounded64 X <= rounded64 Y.
Proof. apply (rounded_mono prec64 emax64 prec64_pos K64 K64_le_emin). Qed.

(** ** Rounding to six decimals *)

Lemma stk_decompose (n d : Z) :
  0 < d -> stk n d = 4 * (n / d) + remainder_code (n mod d) d.
Proof.
  intros Hd. unfold stk, remainder_code.
  pose proof (Z.div_mod n d ltac:(lia)) as DM. pose proof (Z.mod_pos_bound n d Hd) as MB.
  set (q := n / d) in *. set (r := n mod d) in *.
  destruct (Z.compare_spec (2 * r) d) as [E|L|G].
  - assert (Hq : 2 * n / d = 2 * q + 1).
    { symmetry. apply (Z.div_unique _ d _ 0); lia. }
    assert (Hr : (2 * n) mod d = 0).
    { symmetry. apply (Z.mod_unique _ d (2 * q + 1)); lia. }
    rewrite Hq, Hr, Z.eqb_refl. lia.
  - assert (Hq : 2 * n / d = 2 * q).
    { symmetry. apply (Z.div_unique _ d _ (2 * r)); lia. }
    assert (Hr : (2 * n) mod d = 2 * r).
    { symmetry. apply (Z.mod_unique _ d (2 * q)); lia. }
    rewrite Hq, Hr.
    destruct (Z.eqb_spec (2 * r) 0); destruct (Z.eqb_spec r 0); lia.
  - assert (Hq : 2 * n / d = 2 * q + 1).
    { symmetry. apply (Z.div_unique _ d _ (2 * r - d)); lia. }
    assert (Hr : (2 * n) mod d = 2 * r - d).
    { symmetry. apply (Z.mod_unique _ d (2 * q + 1)); lia. }
    rewrite Hq, Hr. destruct (Z.eqb_spec (2 * r - d) 0); lia.
Qed.

Lemma remainder_code_range (r d : Z) : 0 <= remainder_code r d < 4.
Proof.
  unfold remainder_code. destruct (2 * r ?= d); [lia | destruct (r =? 0); lia | lia].
Qed.

Lemma round_half_even_rne (n d : Z) : 0 < d -> round_half_even n d = rne (stk n d).
Proof.
  intros Hd. rewrite stk_decompose by exact Hd. unfold round_half_even, rne.
  pose proof (remainder_code_range (n mod d) d) as Hc.
  assert (Hq : (4 * (n / d) + remainder_code (n mod d) d) / 4 = n / d).
  { symmetry. apply (Z.div_unique _ 4 _ (remainder_code (n mod d) d)); lia. }
  assert (Hr : (4 * (n / d) + remainder_code (n mod d) d) mod 4
               = remainder_code (n mod d) d).
  { symmetry. apply (Z.mod_unique _ 4 (n / d)); lia. }
  rewrite Hq, Hr. unfold remainder_code.
  destruct (2 * (n mod d) ?= d); [reflexivity | | reflexivity].
  destruct (n mod d =? 0); reflexivity.
Qed.

Lemma code_new_location (r : Z) :
  code_of_loc (new_location 1000000 r) = remainder_code r 1000000.
Proof.
  unfold new_location. change (Z.even 1000000) with true. cbv iota.
  unfold new_location_even, remainder_code.
  destruct (Z.eqb_spec r 0) as [->|Hr]; [reflexivity|].
  destruct (Z.compare_spec (2 * r) 1000000); reflexivity.
Qed.

Lemma Zdigits2_lower (m k : Z) : 0 <= k -> 2 ^ k <= m -> k + 1 <= Zdigits2 m.
Proof.
  intros Hk H. pose proof (pow2_pos k Hk).
  destruct (Zdigits2_bounds m ltac:(lia)) as [_ U].
  destruct (Z.le_gt_cases (k + 1) (Zdigits2 m)) as [|G]; [assumption|].
  pose proof (pow2_le (Zdigits2 m) k ltac:(lia)). lia.
Qed.

(** Reading [k / 10^6] back is rounding it to the nearest binary64. *)
Lemma strtod_e6_rho (k : Z) : 0 <= k -> strtod_e6 false k = rho6 k.
Proof.
  intros Hk. unfold rho6. destruct k as [|p|p]; [| |lia].
  { rewrite Z.mul_0_l. reflexivity. }
  unfold strtod_e6, SFdiv_core_binary.
  change (Zdigits2 1000000) with 20. rewrite !Z.add_0_r, Z.sub_diag.
  change (Zdigits2 (Zpos p)) with (Zpos (digits2_pos p)).
  set (d1 := Zpos (digits2_pos p)).
  assert (Hd1 : 1 <= d1) by (unfold d1; lia).
  set (e' := Z.min (fexp prec64 emax64 (d1 - 20)) 0).
  assert (He' : e' = Z.min (d1 - 73) 0).
  { unfold e', fexp, emin, prec64, emax64. lia. }
  set (N := match 0 - e' with
            | 0 => Zpos p
            | Zpos _ => Z.shiftl (Zpos p) (0 - e')
            | Zneg _ => 0
            end).
  assert (HN : N = Zpos p * 2 ^ (- e')).
  { unfold N. destruct (0 - e') as [|s|s] eqn:Es.
    - replace (- e') with 0 by lia. rewrite Z.pow_0_r. lia.
    - rewrite Z.shiftl_mul_pow2 by lia. f_equal. f_equal. lia.
    - lia. }
  pose proof (Z_div_mod_eq_full N 1000000) as DM.
  pose proof (Z.mod_pos_bound N 1000000 ltac:(lia)) as MB.
  unfold Z.div, Z.modulo in DM, MB.
  destruct (Z.div_eucl N 1000000) as [q r] eqn:Hqr.
  assert (Eq_ : q = N / 1000000) by (unfold Z.div; rewrite Hqr; reflexivity).
  assert (Er_ : r = N mod 1000000) by (unfold Z.modulo; rewrite Hqr; reflexivity).
  destruct (Zdigits2_bounds (Zpos p) ltac:(lia)) as [Lp _].
  change (Zdigits2 (Zpos p)) with d1 in Lp.
  pose proof (pow2_pos (- e') ltac:(lia)) as Ppow.
  assert (HNlow : 2 ^ (d1 - 1 - e') <= N).
  { rewrite HN. replace (d1 - 1 - e') with ((d1 - 1) + (- e')) by lia.
    rewrite pow2_add by lia. apply Z.mul_le_mono_nonneg_r; lia. }
  assert (Hqlow : 2 ^ (d1 - 21 - e') <= q).
  { rewrite Eq_. apply Z.div_le_lower_bound; [lia|].
    apply Z.le_trans with (2 ^ 20 * 2 ^ (d1 - 21 - e')).
    - apply Z.mul_le_mono_nonneg_r; [apply Z.pow_nonneg; lia|].
      change (2 ^ 20) with 1048576. lia.
    - rewrite <- pow2_add by lia. replace (20 + (d1 - 21 - e')) with (d1 - 1 - e') by lia.
      exact HNlow. }
  pose proof (pow2_pos (d1 - 21 - e') ltac:(lia)) as Pq.
  rewrite binary_round_aux_enc by lia.
  rewrite code_new_location, Er_, Eq_, <- stk_decompose by lia.
  unfold rho. f_equal.
  rewrite (round_enc_align prec64 emax64 K64).
  - f_equal. f_equal. rewrite HN, <- Z.mul_assoc, <- pow2_add by (unfold K64; lia).
    f_equal. f_equal. lia.
  - lia.
  - rewrite <- Eq_. lia.
  - unfold K64. lia.
  - rewrite <- Eq_.
    pose proof (Zdigits2_lower q (d1 - 21 - e') ltac:(lia) Hqlow) as Hdq.
    unfold fexp, emin, prec64, emax64. lia.
Qed.

Lemma scaled6_as_units (m : positive) (e : Z) :
  emin64 <= e -> scaled6 m e = scaled6_units (units (S754_finite false m e)).
Proof.
  intros He. unfold scaled6, scaled6_units. cbn [units cond_Zopp].
  pose proof U64_pos as HU.
  destruct (Z.leb_spec 0 e) as [Hpos|Hneg].
  - replace (Zpos m * 2 ^ (e - emin64) * 1000000)
      with (U64 * (Zpos m * 2 ^ e * 1000000)).
    2: { unfold U64, emin64. replace (e - -1074) with (e + 1074) by lia.
         rewrite pow2_add by lia. ring. }
    rewrite <- (Z.mul_1_r U64) at 2. rewrite stk_scale by lia.
    rewrite stk_exact, rne_4. reflexivity.
  - rewrite round_half_even_rne by (apply pow2_pos; lia).
    f_equal.
    rewrite <- (stk_scale (2 ^ (e - emin64))); [|apply pow2_pos; lia|apply pow2_pos; lia].
    f_equal; [ring|].
    rewrite <- pow2_add by lia. unfold U64, emin64. f_equal. lia.
Qed.

Lemma scaled6_units_mono (u v : Z) : u <= v -> scaled6_units u <= scaled6_units v.
Proof.
  intros H. unfold scaled6_units. apply rne_mono, stk_mono; [apply U64_pos | lia].
Qed.

Lemma scaled6_units_nonneg (u : Z) : 0 <= u -> 0 <= scaled6_units u.
Proof.
  intros H. unfold scaled6_units. apply rne_nonneg, stk_nonneg; [lia | apply U64_pos].
Qed.

Lemma rho6_mono (j k : Z) : 0 <= j <= k -> SFleb (rho6 j) (rho6 k) = true.
Proof.
  intros H. unfold rho6. pose proof (pow2_pos (- K64) ltac:(unfold K64; lia)).
  apply rho_mono. split.
  - apply stk_nonneg; [nia | lia].
  - apply stk_mono; [lia | nia].
Qed.

Lemma rho6_has_sign (k : Z) : 0 <= k -> has_sign false (rho6 k).
Proof.
  intros H. unfold rho6. pose proof (pow2_pos (- K64) ltac:(unfold K64; lia)).
  apply rho_has_sign. apply stk_nonneg; [nia | lia].
Qed.

(** [round(x, 6)] of a positive finite float, in terms of its value. *)
Lemma round6_finite (m : positive) (e : Z) :
  bounded prec64 emax64 m e = true ->
  round6 (S754_finite false m e) = rho6 (scaled6_units (units (S754_finite false m e))).
Proof.
  intros Hb. destruct (bounded_exponent m e Hb) as [_ [L _]].
  unfold round6. rewrite scaled6_as_units by exact L.
  apply strtod_e6_rho, scaled6_units_nonneg.
  pose proof (units_finite_pos m e L). lia.
Qed.

Lemma zero_leb_has_sign (s : bool) (r : float) :
  has_sign false r -> SFleb (S754_zero s) r = true.
Proof. destruct r as [s'|s'| |s' m e]; simpl; intros H; try contradiction; subst; reflexivity. Qed.

(** Rounding to six decimals keeps a non-negative amount non-negative. *)
Lemma round6_nonneg (x : float) : nonneg_finite x = true -> SFleb F0 (round6 x) = true.
Proof.
  intros Hx. destruct (nonneg_finite_cases x Hx) as [[s ->]|(m & e & -> & Hb)].
  - reflexivity.
  - rewrite round6_finite by exact Hb. apply has_sign_false_nonneg, rho6_has_sign.
    apply scaled6_units_nonneg. apply (units_nonneg _ Hx).
Qed.

(** Rounding to six decimals is monotone on non-negative amounts. *)
Lemma round6_mono (x y : float) :
  nonneg_finite x = true -> nonneg_finite y = true -> units x <= units y ->
  SFleb (round6 x) (round6 y) = true.
Proof.
  intros Hx Hy Hle. pose proof (units_nonneg x Hx) as HX0.
  destruct (nonneg_finite_cases x Hx) as [[s Ex]|(m & e & Ex & Hb)];
    destruct (nonneg_finite_cases y Hy) as [[s' Ey]|(m' & e' & Ey & Hb')].
  - subst. reflexivity.
  - subst. rewrite (round6_finite m' e') by exact Hb'. cbn [round6].
    apply zero_leb_has_sign, rho6_has_sign, scaled6_units_nonneg.
    apply (units_nonneg _ Hy).
  - exfalso. subst. destruct (bounded_exponent m e Hb) as [_ [L _]].
    pose proof (units_finite_pos m e L). simpl (units (S754_zero s')) in Hle. lia.
  - rewrite Ex, Ey in *. rewrite (round6_finite m e), (round6_finite m' e') by assumption.
    apply rho6_mono. split; [apply scaled6_units_nonneg; exact HX0|].
    apply scaled6_units_mono. exact Hle.
Qed.

(** ** The tax calculator *)

Lemma nonneg_finite_spec (x : float) :
  nonneg_finite x = true <->
  is_float64 x = true /\ is_finite x = true /\ SFleb F0 x = true.
Proof.
  unfold nonneg_finite. rewrite andb_true_iff.
  destruct x as [s|s| |[|] m e]; simpl; intuition (try discriminate; auto).
Qed.

(** The raw amounts for a non-negative amount and rates of at most one:
    all are zeros or positive finite numbers, the withholding and the net
    are not above the gross amount, and the top-up is not above what is
    left after the withholding. *)
Lemma compute_net_raw_bounds (g f d : float) :
  nonneg_finite g = true -> nonneg_finite f = true -> nonneg_finite d = true ->
  SFleb f F1 = true -> SFleb d F1 = true ->
  let raw := compute_net_raw g f d in
  nonneg_finite (withholding_foreign raw) = true
  /\ nonneg_finite (spanish_tax_to_pay raw) = true
  /\ nonneg_finite (net_total raw) = true
  /\ units (withholding_foreign raw) <= units g
  /\ units (spanish_tax_to_pay raw) <= units (fsub g (withholding_foreign raw))
  /\ units (net_total raw) <= units g.
Proof.
  intros Hg Hf Hd Hf1 Hd1. unfold compute_net_raw. cbn [withholding_foreign
    spanish_tax_to_pay net_total gross_total].
  destruct (fmul_rate g f Hg Hf Hf1) as (Na & Ua & La).
  destruct (fmul_rate g d Hg Hd Hd1) as (Nb & Ub & Lb).
  set (a := fmul g f) in *. set (b := fmul g d) in *.
  destruct (fsub_smaller g a Hg Na La) as (Nx & Ux & Lx).
  set (x := fsub g a) in *.
  assert (Ht : nonneg_finite (py_max F0 (fsub b a)) = true
               /\ units (py_max F0 (fsub b a)) <= units x).
  { destruct (Z.le_gt_cases (units b) (units a)) as [Hba|Hab].
    - unfold py_max. rewrite (fsub_larger b a Nb Na Hba).
      split; [reflexivity|]. simpl (units F0). apply units_nonneg. exact Nx.
    - destruct (fsub_smaller b a Nb Na ltac:(lia)) as (Ns & Us & Ls).
      destruct (py_max_0 (fsub b a) Ns) as [Nt Ut].
      split; [exact Nt|]. rewrite Ut.
      pose proof U64_pos as HU. pose proof (units_nonneg a Na) as HA0.
      assert (rounded64 (4 * ((units b - units a) * U64))
              <= rounded64 (4 * ((units g - units a) * U64)))
        by (apply rounded64_mono; nia).
      nia. }
  destruct Ht as [Nt Lt].
  destruct (fsub_smaller x (py_max F0 (fsub b a)) Nx Nt Lt) as (Nn & Un & Ln).
  repeat split; auto. lia.
Qed.

(** C1 (as amended). For a finite amount [g >= 0] and rates between 0 and
    1, the four fields are the roundings to six decimals of the gross
    amount, of [g * foreign], of the top-up [max(0, g*domestic - g*foreign)]
    and of the net [g - withholding - top-up], all in binary64; the top-up
    is not negative, before and after rounding; the net is not above the
    gross amount, before rounding against [g] and after rounding against
    the rounded gross amount. *)
Theorem compute_net_fields (g f d : float) :
  nonneg_finite g = true -> nonneg_finite f = true -> nonneg_finite d = true ->
  SFleb f F1 = true -> SFleb d F1 = true ->
  let raw := compute_net_raw g f d in
  let out := compute_net g f d in
  (gross_total out = round6 g
   /\ withholding_foreign out = round6 (fmul g f)
   /\ spanish_tax_to_pay out = round6 (spanish_tax_to_pay raw)
   /\ net_total out = round6 (net_total raw))
  /\ spanish_tax_to_pay raw = py_max F0 (fsub (fmul g d) (fmul g f))
  /\ net_identity raw
  /\ SFleb F0 (spanish_tax_to_pay raw) = true
  /\ SFleb F0 (spanish_tax_to_pay out) = true
  /\ SFleb (net_total raw) g = true
  /\ SFleb (net_total out) (gross_total out) = true.
Proof.
  intros Hg Hf Hd Hf1 Hd1 raw out.
  destruct (compute_net_raw_bounds g f d Hg Hf Hd Hf1 Hd1)
    as (Nw & Nt & Nn & Lw & Lt & Ln).
  fold raw in Nw, Nt, Nn, Lw, Lt, Ln.
  split; [repeat split|]. split; [reflexivity|]. split; [reflexivity|].
  split; [apply nonneg_finite_spec; exact Nt|].
  split; [apply round6_nonneg; exact Nt|].
  split; [apply SFleb_units; assumption|].
  apply round6_mono; assumption.
Qed.

Lemma compute_net_fields_witness :
  SFleb (net_total (compute_net f_55 f_030 SPANISH_RATE))
        (gross_total (compute_net f_55 f_030 SPANISH_RATE)) = true.
Proof.
  apply (compute_net_fields f_55 f_030 SPANISH_RATE); reflexivity.
Defined.

(** C1 (as stated) fails on the rounded fields.  For the amount 1e-06
    withheld at 50% the fields are 1e-06, 0.0, 0.0 and 0.0: the net field
    is not the gross field minus the other two.  For the amount 6e-07 with
    no tax the net field is 1e-06, above the amount itself. *)
Lemma rounded_fields_break_identity :
  (nonneg_finite f_1e6 = true /\ nonneg_finite f_half = true
   /\ SFleb f_half F1 = true /\ nonneg_finite F0 = true)
  /\ ~ net_identity (compute_net f_1e6 f_half F0)
  /\ SFleb (net_total (compute_net f_6e7 F0 F0)) f_6e7 = false.
Proof.
  split; [repeat split|]. split; [|vm_compute; reflexivity].
  unfold net_identity. vm_compute. discriminate.
Qed.

(** ** Order and sign of products and differences *)

Lemma SFcompare_opp (x y : float) : SFcompare (SFopp x) (SFopp y) = SFcompare y x.
Proof.
  destruct x as [sx|sx| |sx mx ex], y as [sy|sy| |sy my ey]; simpl;
    try reflexivity; try (destruct sx; reflexivity); try (destruct sy; reflexivity);
    try (destruct sx, sy; reflexivity).
  assert (Hm : Pos.compare_cont Eq my mx = CompOpp (Pos.compare_cont Eq mx my))
    by (rewrite Pos.compare_cont_antisym; reflexivity).
  destruct sx, sy; simpl; try reflexivity;
    rewrite (Z.compare_antisym ex ey); destruct (ex ?= ey); simpl; try reflexivity;
    rewrite Hm; destruct (Pos.compare_cont Eq mx my); reflexivity.
Qed.

Lemma SFleb_not_ltb (x y : float) : SFleb x y = true -> SFltb y x = false.
Proof.
  unfold SFleb, SFltb. rewrite (SFcompare_swap x y).
  destruct (SFcompare x y) as [[| |]|]; simpl; congruence.
Qed.

Lemma SFltb_opp (x y : float) : SFltb (SFopp x) (SFopp y) = SFltb y x.
Proof. unfold SFltb. rewrite SFcompare_opp. reflexivity. Qed.

Lemma units_opp (s : bool) (m : positive) (e : Z) :
  units (S754_finite s m e) = cond_Zopp s (units (S754_finite false m e)).
Proof. reflexivity. Qed.

(** Finite floats compare as their values. *)
Lemma SFcompare_finite_units (sx sy : bool) (mx my : positive) (ex ey : Z) :
  bounded prec64 emax64 mx ex = true -> bounded prec64 emax64 my ey = true ->
  SFcompare (S754_finite sx mx ex) (S754_finite sy my ey)
  = Some (units (S754_finite sx mx ex) ?= units (S754_finite sy my ey)).
Proof.
  intros Hx Hy.
  destruct (bounded_exponent mx ex Hx) as [_ [Lx _]].
  destruct (bounded_exponent my ey Hy) as [_ [Ly _]].
  pose proof (units_finite_pos mx ex Lx) as Px.
  pose proof (units_finite_pos my ey Ly) as Py.
  assert (Hpos : forall (m m' : positive) (e e' : Z),
             bounded prec64 emax64 m e = true -> bounded prec64 emax64 m' e' = true ->
             SFcompare (S754_finite false m e) (S754_finite false m' e')
             = Some (units (S754_finite false m e) ?= units (S754_finite false m' e'))).
  { intros m m' e e' Hb Hb'.
    assert (N : nonneg_finite (S754_finite false m e) = true)
      by (unfold nonneg_finite, is_float64; simpl; rewrite Hb; reflexivity).
    assert (N' : nonneg_finite (S754_finite false m' e') = true)
      by (unfold nonneg_finite, is_float64; simpl; rewrite Hb'; reflexivity).
    pose proof (SFleb_units _ _ N N') as L1. pose proof (SFleb_units _ _ N' N) as L2.
    unfold SFleb in L1, L2. rewrite (SFcompare_swap (S754_finite false m e)) in L2.
    destruct (SFcompare (S754_finite false m e) (S754_finite false m' e')) as [c|] eqn:Ec;
      [|simpl in Ec; discriminate].
    f_equal.
    remember (units (S754_finite false m e)) as ux eqn:Eux.
    remember (units (S754_finite false m' e')) as uy eqn:Euy.
    clear Eux Euy Ec.
    destruct (Z.compare_spec ux uy) as [E|L|G];
      destruct c; cbn [option_map CompOpp] in L1, L2; try reflexivity; exfalso;
      destruct L1 as [L1a L1b]; destruct L2 as [L2a L2b];
      first [ specialize (L1a eq_refl); lia
            | specialize (L2a eq_refl); lia
            | assert (T : false = true) by (apply L1b; lia); discriminate
            | assert (T : false = true) by (apply L2b; lia); discriminate ]. }
  destruct sx, sy.
  - change (S754_finite true mx ex) with (SFopp (S754_finite false mx ex)).
    change (S754_finite true my ey) with (SFopp (S754_finite false my ey)).
    rewrite SFcompare_opp, Hpos by assumption. f_equal.
    cbn [SFopp negb]. rewrite (units_opp true mx), (units_opp true my).
    cbn [cond_Zopp]. rewrite Z.compare_opp. reflexivity.
  - rewrite (units_opp true mx). cbn [cond_Zopp]. simpl SFcompare.
    f_equal. symmetry. apply Z.compare_lt_iff. lia.
  - rewrite (units_opp true my). cbn [cond_Zopp]. simpl SFcompare.
    f_equal. symmetry. apply Z.compare_gt_iff. lia.
  - apply Hpos; assumption.
Qed.

Lemma fmul_valid (x y : float) :
  is_float64 x = true -> is_float64 y = true -> is_float64 (fmul x y) = true.
Proof.
  intros Hx Hy. destruct x as [sx|sx| |sx mx ex], y as [sy|sy| |sy my ey];
    try reflexivity.
  unfold is_float64 in Hx, Hy. simpl in Hx, Hy.
  destruct (bounded_exponent mx ex Hx) as [_ [Lx _]].
  destruct (bounded_exponent my ey Hy) as [_ [Ly _]].
  rewrite fmul_finite by assumption. apply rho_valid.
  pose proof (pow2_pos (ex - emin64) ltac:(lia)).
  pose proof (pow2_pos (ey - emin64) ltac:(lia)). nia.
Qed.

Lemma sign_order (x y : float) :
  has_sign false x -> has_sign true y -> SFltb x y = false.
Proof.
  destruct x as [sx|sx| |sx mx ex], y as [sy|sy| |sy my ey]; simpl;
    intros Hx Hy; try contradiction; subst; reflexivity.
Qed.

(** A difference of two floats whose first is not the greater is never
    positive. *)
Lemma fsub_not_positive (b a : float) :
  is_float64 b = true -> is_float64 a = true -> SFltb a b = false ->
  fltb F0 (fsub b a) = false.
Proof.
  intros Hb Ha Hlt.
  destruct b as [sb|sb| |sb mb eb], a as [sa|sa| |sa ma ea];
    try reflexivity;
    try (destruct sb, sa; try reflexivity; discriminate);
    try (destruct sb; try reflexivity; discriminate);
    try (destruct sa; try reflexivity; discriminate).
  unfold is_float64 in Hb, Ha. simpl in Hb, Ha.
  destruct (bounded_exponent mb eb Hb) as [_ [Lb _]].
  destruct (bounded_exponent ma ea Ha) as [_ [La _]].
  unfold SFltb in Hlt. rewrite SFcompare_finite_units in Hlt by assumption.
  assert (Hu : units (S754_finite sb mb eb) <= units (S754_finite sa ma ea)).
  { destruct (Z.compare_spec (units (S754_finite sa ma ea)) (units (S754_finite sb mb eb)));
      try lia; discriminate. }
  unfold fsub, SFsub.
  set (ez := Z.min eb ea).
  set (z := cond_Zopp sb (Zpos (fst (shl_align mb eb ez)))
            - cond_Zopp sa (Zpos (fst (shl_align ma ea ez)))).
  assert (Hz : z * 2 ^ (ez - emin64)
               = units (S754_finite sb mb eb) - units (S754_finite sa ma ea)).
  { unfold z. rewrite (units_opp sb), (units_opp sa).
    rewrite <- (aligned_units mb eb ez), <- (aligned_units ma ea ez) by (unfold ez; lia).
    destruct sb, sa; cbn [cond_Zopp]; ring. }
  pose proof (pow2_pos (ez - emin64) ltac:(unfold ez; lia)) as Hp.
  assert (Hz0 : z <= 0) by nia.
  destruct z as [|p|p]; [reflexivity | lia |].
  cbn [binary_normalize].
  rewrite (binary_round_base prec64 emax64 K64 K64_le_emin)
    by (unfold K64, emin64, ez in *; lia).
  apply has_sign_true_not_positive. apply (rho_has_sign true).
  apply Z.mul_nonneg_nonneg; [lia|].
  apply Z.mul_nonneg_nonneg; [lia | apply Z.pow_nonneg; lia].
Qed.

Lemma SFltb_neg_inf (x : float) : SFltb x (S754_infinity true) = false.
Proof. destruct x as [s|[|]| |[|] m e]; reflexivity. Qed.

Lemma SFltb_pos_inf (y : float) : SFltb (S754_infinity false) y = false.
Proof. destruct y as [s|[|]| |[|] m e]; reflexivity. Qed.

(** Multiplying by a non-negative amount keeps the order of the rates. *)
Lemma fmul_keeps_order (g d f : float) :
  is_float64 g = true -> is_float64 d = true -> is_float64 f = true ->
  SFleb F0 g = true -> SFleb d f = true ->
  SFltb (fmul g f) (fmul g d) = false.
Proof.
  intros Hg Hd Hf Hg0 Hdf.
  destruct g as [sg|sg| |sg mg eg]; try discriminate.
  - (* a zero amount *)
    destruct d as [sd|sd| |sd md ed], f as [sf|sf| |sf mf ef]; try discriminate;
      reflexivity.
  - (* an infinite amount *)
    destruct sg; [discriminate|].
    destruct d as [sd|sd| |sd md ed], f as [sf|sf| |sf mf ef]; try discriminate;
      try reflexivity; destruct sd, sf; try reflexivity; discriminate.
  - destruct sg; [discriminate|].
    unfold is_float64 in Hg. simpl in Hg.
    destruct (bounded_exponent mg eg Hg) as [_ [Lg _]].
    pose proof (units_finite_pos mg eg Lg) as PG. cbn [units cond_Zopp] in PG.
    destruct d as [sd|sd| |sd md ed], f as [sf|sf| |sf mf ef]; try discriminate;
      try reflexivity;
      try (destruct sd, sf; try reflexivity; discriminate);
      try (destruct sd; try reflexivity; discriminate);
      try (destruct sf; try reflexivity; discriminate).
    + (* a zero domestic rate and a finite foreign rate *)
      destruct sf; [discriminate|].
      unfold is_float64 in Hf. simpl in Hf.
      rewrite fmul_finite by assumption.
      destruct (bounded_exponent mf ef Hf) as [_ [Lf _]].
      pose proof (units_finite_pos mf ef Lf) as PF. cbn [units cond_Zopp] in PF.
      cbn [fmul SFmul xorb].
      apply SFleb_not_ltb. apply zero_leb_has_sign. apply rho_has_sign. nia.
    + (* an infinite domestic rate: it is negative *)
      destruct sd; [|discriminate].
      change (fmul (S754_finite false mg eg) (S754_infinity true))
        with (S754_infinity true).
      apply SFltb_neg_inf.
    + (* a finite domestic rate and a zero foreign rate *)
      destruct sd; [|discriminate].
      unfold is_float64 in Hd. simpl in Hd.
      rewrite fmul_finite by assumption.
      destruct (bounded_exponent md ed Hd) as [_ [Ld _]].
      pose proof (units_finite_pos md ed Ld) as PD. cbn [units cond_Zopp] in PD.
      cbn [fmul SFmul xorb].
      assert (Hs : has_sign true
                     (rho true (4 * (Zpos mg * 2 ^ (eg - emin64) * (Zpos md * 2 ^ (ed - emin64))))))
        by (apply rho_has_sign; nia).
      destruct (rho true _) as [s|s| |s m e]; simpl in Hs; try contradiction;
        subst; destruct sf; reflexivity.
    + (* an infinite foreign rate: it is positive *)
      destruct sf; [discriminate|].
      change (fmul (S754_finite false mg eg) (S754_infinity false))
        with (S754_infinity false).
      apply SFltb_pos_inf.
    + (* two finite rates *)
      unfold is_float64 in Hd, Hf. simpl in Hd, Hf.
      destruct (bounded_exponent md ed Hd) as [_ [Ld _]].
      destruct (bounded_exponent mf ef Hf) as [_ [Lf _]].
      pose proof (units_finite_pos md ed Ld) as PD. cbn [units cond_Zopp] in PD.
      pose proof (units_finite_pos mf ef Lf) as PF. cbn [units cond_Zopp] in PF.
      unfold SFleb in Hdf. rewrite SFcompare_finite_units in Hdf by assumption.
      assert (Hu : units (S754_finite sd md ed) <= units (S754_finite sf mf ef)).
      { destruct (Z.compare_spec (units (S754_finite sd md ed))
                    (units (S754_finite sf mf ef))); try lia; discriminate. }
      rewrite !fmul_finite by assumption. cbn [xorb].
      set (G := Zpos mg * 2 ^ (eg - emin64)) in *.
      set (D := Zpos md * 2 ^ (ed - emin64)) in *.
      set (F := Zpos mf * 2 ^ (ef - emin64)) in *.
      rewrite (units_opp sd), (units_opp sf) in Hu. cbn [units] in Hu.
      fold D F in Hu.
      destruct sd, sf; cbn [cond_Zopp] in Hu.
      * change true with (negb false). rewrite !rho_opp, SFltb_opp.
        apply SFleb_not_ltb, rho_mono. nia.
      * apply sign_order; apply rho_has_sign; nia.
      * exfalso. lia.
      * apply SFleb_not_ltb, rho_mono. nia.
Qed.

(** With a foreign rate that covers the domestic one, nothing is left to
    pay. *)
Lemma topup_raw_zero (g f d : float) :
  is_float64 g = true -> is_float64 f = true -> is_float64 d = true ->
  SFleb F0 g = true -> SFleb d f = true ->
  spanish_tax_to_pay (compute_net_raw g f d) = F0.
Proof.
  intros Hg Hf Hd Hg0 Hdf.
  unfold compute_net_raw; cbn [spanish_tax_to_pay]. unfold py_max.
  rewrite fsub_not_positive; [reflexivity | apply fmul_valid; assumption..|].
  apply fmul_keeps_order; assumption.
Qed.

(** C2. For every amount [g >= 0] and any two rates with [foreign >=
    domestic] (floats of any sign or size, the infinities included), the
    top-up is exactly [0.0], before rounding and in the returned field. *)
Theorem topup_zero_when_foreign_covers (g f d : float) :
  is_float64 g = true -> is_float64 f = true -> is_float64 d = true ->
  SFleb F0 g = true -> SFleb d f = true ->
  spanish_tax_to_pay (compute_net_raw g f d) = F0
  /\ spanish_tax_to_pay (compute_net g f d) = F0.
Proof.
  intros Hg Hf Hd Hg0 Hdf.
  pose proof (topup_raw_zero g f d Hg Hf Hd Hg0 Hdf) as H.
  split; [exact H|].
  unfold compute_net; cbn [spanish_tax_to_pay]. rewrite H. reflexivity.
Qed.

Lemma topup_zero_when_foreign_covers_witness :
  spanish_tax_to_pay (compute_net f_55 f_030 SPANISH_RATE) = F0.
Proof.
  apply (topup_zero_when_foreign_covers f_55 f_030 SPANISH_RATE); reflexivity.
Defined.






(* ================================================================== *)
(** * Part III. Further properties                                     *)
(* ================================================================== *)

(** ** The FX lookup: fallbacks and effects *)

Lemma upper_char_idem (c : ascii) : upper_char (upper_char c) = upper_char c.
Proof. destruct c as [[] [] [] [] [] [] [] []]; reflexivity. Qed.

Lemma upper_idem (s : string) : upper (upper s) = upper s.
Proof.
  induction s as [|c s IH]; simpl; [reflexivity|].
  rewrite upper_char_idem, IH. reflexivity.
Qed.

Lemma upper_empty (s : string) : upper s = EmptyString <-> s = EmptyString.
Proof. destruct s; simpl; split; intros H; try discriminate; reflexivity. Qed.

Lemma upper_base_or_eur (b : string) :
  upper (base_or_eur (Some (upper b))) = upper (base_or_eur (Some b)).
Proof.
  unfold base_or_eur, str_eqb.
  destruct (String.eqb_spec b EmptyString) as [->|Hb]; [reflexivity|].
  destruct (String.eqb_spec (upper b) EmptyString) as [Hu|_].
  - apply (proj1 (upper_empty b)) in Hu. contradiction.
  - apply upper_idem.
Qed.




(** X3. The codes are compared and sent in upper case, so the lookup does not
    distinguish codes that differ by case only; a missing or empty base
    code stands for EUR. *)
Theorem get_fx_rate_case_insensitive (E : env) (b t : string) (w : world) :
  get_fx_rate E (Some (upper b)) (upper t) w = get_fx_rate E (Some b) t w
  /\ get_fx_rate E None t w = get_fx_rate E (Some EUR) t w
  /\ get_fx_rate E (Some EmptyString) t w = get_fx_rate E (Some EUR) t w.
Proof.
  split; [|split; reflexivity].
  unfold get_fx_rate. rewrite upper_base_or_eur, upper_idem. reflexivity.
Qed.

(** ** The calendar writer: files, identifiers and windows *)





Lemma str_length_app (a b : string) :
  String.length (a ++ b) = (String.length a + String.length b)%nat.
Proof. induction a as [|c a IH]; simpl; [reflexivity | rewrite IH; reflexivity]. Qed.

Lemma str_app_assoc (a b c : string) : ((a ++ b) ++ c = a ++ (b ++ c))%string.
Proof. induction a as [|x a IH]; simpl; [reflexivity | rewrite IH; reflexivity]. Qed.

(** Two equal concatenations whose second parts have the same length. *)
Lemma str_app_inj (a b x y : string) :
  String.length x = String.length y ->
  (a ++ x = b ++ y)%string -> a = b /\ x = y.
Proof.
  revert b. induction a as [|c a IH]; intros [|c' b] Hl H; simpl in H.
  - auto.
  - exfalso. apply (f_equal String.length) in H. simpl in H.
    rewrite str_length_app in H. lia.
  - exfalso. apply (f_equal String.length) in H. simpl in H.
    rewrite str_length_app in H. lia.
  - injection H as -> H. destruct (IH b Hl H) as [-> ->]. auto.
Qed.

Lemma digit_char_inj (a b : Z) :
  0 <= a < 10 -> 0 <= b < 10 -> digit_char a = digit_char b -> a = b.
Proof.
  intros Ha Hb H. unfold digit_char in H.
  apply (f_equal nat_of_ascii) in H.
  rewrite !nat_ascii_embedding in H by lia. lia.
Qed.

Lemma digits_fixed_length (w : nat) (n : Z) (acc : string) :
  String.length (digits_fixed w n acc) = (w + String.length acc)%nat.
Proof.
  revert n acc. induction w as [|w IH]; intros n acc; simpl; [reflexivity|].
  rewrite IH. simpl. lia.
Qed.

Lemma digits_fixed_inj (w : nat) (n n' : Z) (acc acc' : string) :
  0 <= n < 10 ^ Z.of_nat w -> 0 <= n' < 10 ^ Z.of_nat w ->
  digits_fixed w n acc = digits_fixed w n' acc' -> n = n' /\ acc = acc'.
Proof.
  revert n n' acc acc'. induction w as [|w IH]; intros n n' acc acc' Hn Hn' H.
  - simpl in *. split; [lia | exact H].
  - rewrite Nat2Z.inj_succ, Z.pow_succ_r in Hn, Hn' by lia.
    simpl in H. apply IH in H.
    + destruct H as [Hq Hs]. injection Hs as Hd ->.
      apply digit_char_inj in Hd; try (apply Z.mod_pos_bound; lia).
      split; [|reflexivity].
      rewrite (Z.div_mod n 10), (Z.div_mod n' 10) by lia. lia.
    + split; [apply Z.div_pos; lia | apply Z.div_lt_upper_bound; lia].
    + split; [apply Z.div_pos; lia | apply Z.div_lt_upper_bound; lia].
Qed.

Lemma isoformat_length (d : date) : String.length (isoformat d) = 10%nat.
Proof.
  unfold isoformat. rewrite digits_fixed_length. cbn [String.length].
  rewrite digits_fixed_length. cbn [String.length].
  rewrite digits_fixed_length. reflexivity.
Qed.

Lemma string_tail_inj (c : ascii) (a b : string) : String c a = String c b -> a = b.
Proof. intros H; injection H; auto. Qed.

Lemma isoformat_inj (d d' : date) :
  fits_iso d -> fits_iso d' -> isoformat d = isoformat d' -> d = d'.
Proof.
  intros (Hy & Hm & Hd) (Hy' & Hm' & Hd') H. unfold isoformat in H.
  apply digits_fixed_inj in H; [|simpl; lia..]. destruct H as [Ey H].
  apply string_tail_inj in H.
  apply digits_fixed_inj in H; [|simpl; lia..]. destruct H as [Em H].
  apply string_tail_inj in H.
  apply digits_fixed_inj in H; [|simpl; lia..]. destruct H as [Ed _].
  destruct d, d'; simpl in *; subst; reflexivity.
Qed.

Lemma valid_date_fits_iso (d : date) : valid_date d -> fits_iso d.
Proof.
  intros (Hy & Hm & Hd). unfold fits_iso.
  assert (days_in_month (year d) (month d) <= 31).
  { unfold days_in_month. destruct (month d =? 2); [destruct (is_leap (year d)); lia|].
    destruct ((month d =? 4) || (month d =? 6) || (month d =? 9) || (month d =? 11)); lia. }
  lia.
Qed.

(** One ticker followed by one kind cannot read as another ticker followed
    by another kind. *)
Lemma ticker_color_inj (t t' c c' : string) :
  In c event_colors -> In c' event_colors ->
  (t ++ "-" ++ c ++ "-" = t' ++ "-" ++ c' ++ "-")%string -> t = t' /\ c = c'.
Proof.
  assert (Hsame : forall k, (t ++ k = t' ++ k)%string -> t = t').
  { intros k H. apply (str_app_inj t t' k k eq_refl H). }
  assert (Hsuffix : forall a b x y, (a ++ x = b ++ y)%string ->
            (String.length x <= String.length y)%nat ->
            exists p, y = (p ++ x)%string).
  { intros a. induction a as [|ch a IH]; intros b x y H Hl.
    - simpl in H. subst x. destruct b as [|ch b].
      + exists EmptyString. reflexivity.
      + exfalso. simpl in Hl. rewrite str_length_app in Hl. lia.
    - destruct b as [|ch' b].
      + simpl in H. exists (String ch a). subst y. reflexivity.
      + simpl in H. injection H as _ H. apply (IH b); assumption. }
  intros Hc Hc' H.
  simpl in Hc, Hc'.
  destruct Hc as [<-|[<-|[<-|[]]]]; destruct Hc' as [<-|[<-|[<-|[]]]];
    try (split; [eapply Hsame; exact H | reflexivity]); exfalso.
  all: first
    [ destruct (Hsuffix _ _ _ _ H ltac:(simpl; lia)) as [p Hp]
    | symmetry in H; destruct (Hsuffix _ _ _ _ H ltac:(simpl; lia)) as [p Hp] ].
  all: destruct p as [|c1 [|c2 [|c3 p]]]; simpl in Hp; try discriminate Hp;
       apply (f_equal String.length) in Hp; simpl in Hp;
       rewrite str_length_app in Hp; simpl in Hp; lia.
Qed.

(** X18. Within the three kinds of event and for dates whose fields fit the
    ISO widths, the identifier determines the ticker, the kind and the
    date: two events with different triples never share an identifier. *)
Theorem event_uid_injective (t t' c c' : string) (d d' : date) :
  In c event_colors -> In c' event_colors ->
  fits_iso d -> fits_iso d' ->
  event_uid t c d = event_uid t' c' d' ->
  t = t' /\ c = c' /\ d = d'.
Proof.
  intros Hc Hc' Hd Hd' H. unfold event_uid in H.
  assert (Hr : forall t c d, (t ++ "-" ++ c ++ "-" ++ isoformat d ++ uid_suffix
                 = (t ++ "-" ++ c ++ "-") ++ (isoformat d ++ uid_suffix))%string).
  { intros. rewrite !str_app_assoc. reflexivity. }
  rewrite !Hr in H.
  apply str_app_inj in H;
    [|rewrite !str_length_app, !isoformat_length; reflexivity].
  destruct H as [Hp Hi].
  apply str_app_inj in Hi; [|reflexivity]. destruct Hi as [Hi _].
  apply isoformat_inj in Hi; [|assumption..].
  destruct (ticker_color_inj t t' c c' Hc Hc' Hp) as [-> ->]. auto.
Qed.

Lemma event_uid_injective_witness :
  "AAPL"%string = "AAPL"%string /\ "orange"%string = "orange"%string /\ jun01 = jun01.
Proof.
  apply (event_uid_injective "AAPL" "AAPL" "orange" "orange" jun01 jun01);
    try (simpl; auto); try (unfold fits_iso; simpl; lia).
Defined.

(** X19. The edges of the window: a window whose end is before its start
    writes a calendar without events, and widening a window never drops an
    event that was kept. *)
Theorem window_edges (evs : list event) (s e : date) :
  (date_ltb e s = true -> calendar_events evs s e = [])
  /\ (forall s' e', date_leb s' s = true -> date_leb e e' = true ->
        incl (filtered_events evs s e) (filtered_events evs s' e')).
Proof.
  split.
  - intros Hlt. unfold calendar_events.
    assert (filtered_events evs s e = []) as ->; [|reflexivity].
    unfold filtered_events. induction evs as [|ev evs IH]; simpl; [reflexivity|].
    destruct (in_window s e ev) eqn:Hw; [|exact IH].
    exfalso. apply in_window_spec in Hw. destruct Hw as (d & _ & H1 & H2).
    pose proof (date_leb_trans _ _ _ H1 H2) as Hse.
    rewrite (date_ltb_not_leb _ _ Hlt) in Hse. discriminate.
  - intros s' e' Hs He ev Hin.
    apply filtered_events_In in Hin. destruct Hin as [Hin Hw].
    apply filtered_events_In. split; [exact Hin|].
    apply in_window_spec in Hw. destruct Hw as (d & Hd & H1 & H2).
    apply in_window_spec. exists d. split; [exact Hd|].
    split; eapply date_leb_trans; eassumption.
Qed.

Lemma window_edges_witness :
  calendar_events [sample_exdiv; sample_late] jun30 jun01 = []
  /\ incl (filtered_events [sample_exdiv; sample_late] jun01 jun01)
          (filtered_events [sample_exdiv; sample_late] may10 jun30).
Proof.
  split.
  - apply (proj1 (window_edges [sample_exdiv; sample_late] jun30 jun01)). reflexivity.
  - apply (proj2 (window_edges [sample_exdiv; sample_late] jun01 jun01)); reflexivity.
Defined.

(** ** The holdings loop: what a row contributes *)

Lemma adds_nothing {A} (P : event -> Prop) (m : M build_state A) :
  (forall s, b_events (snd (m s)) = b_events s) -> adds P m.
Proof. intros H s. exists []. rewrite app_nil_r. split; [apply H | constructor]. Qed.

Lemma adds_bind {A B} (P : event -> Prop) (m : M build_state A) (k : A -> M build_state B) :
  adds P m -> (forall a, adds P (k a)) -> adds P (bind m k).
Proof.
  intros Hm Hk s. unfold bind. destruct (Hm s) as (l1 & E1 & F1).
  destruct (m s) as [[a|e] s1]; simpl in *.
  - destruct (Hk a s1) as (l2 & E2 & F2).
    exists (l1 ++ l2). rewrite E2, E1, app_assoc. split; [reflexivity|].
    apply Forall_app; auto.
  - exists l1; auto.
Qed.

Lemma adds_try_except {A} (P : event -> Prop) (m : M build_state A)
    (h : exc -> M build_state A) :
  adds P m -> (forall e, adds P (h e)) -> adds P (try_except m h).
Proof.
  intros Hm Hh s. unfold try_except. destruct (Hm s) as (l1 & E1 & F1).
  destruct (m s) as [[a|e] s1]; simpl in *.
  - exists l1; auto.
  - destruct (Hh e s1) as (l2 & E2 & F2).
    exists (l1 ++ l2). rewrite E2, E1, app_assoc. split; [reflexivity|].
    apply Forall_app; auto.
Qed.

Lemma adds_for_each {A} (P : event -> Prop) (xs : list A) (body : A -> M build_state unit) :
  (forall x, adds P (body x)) -> adds P (for_each xs body).
Proof.
  intros Hb. induction xs as [|x xs IH]; simpl.
  - apply adds_nothing. reflexivity.
  - apply adds_bind; [apply Hb | intros _; exact IH].
Qed.

Lemma adds_in_world {A} (P : event -> Prop) (m : M world A) : adds P (in_world m).
Proof.
  apply adds_nothing. intros s. unfold in_world.
  destruct (m (b_world s)); reflexivity.
Qed.

Lemma adds_add_event (P : event -> Prop) (ev : event) :
  P ev -> adds P (modify (add_event ev)).
Proof. intros H s. exists [ev]. split; [reflexivity | repeat constructor; exact H]. Qed.

Lemma adds_process_holding (E : env) (row : holding_row) :
  adds well_formed_event (process_holding E row).
Proof.
  unfold process_holding.
  apply adds_bind; [apply adds_nothing; reflexivity | intros ticker].
  apply adds_bind; [apply adds_nothing; reflexivity | intros _].
  unfold str_eqb at 1.
  destruct (String.eqb_spec ticker EmptyString) as [|Hne];
    [apply adds_nothing; reflexivity|].
  apply adds_bind; [apply adds_nothing; reflexivity | intros country].
  apply adds_bind; [apply adds_nothing; reflexivity | intros market].
  destruct (row_cantidad row =? 0); [apply adds_nothing; reflexivity|].
  apply adds_bind; [apply adds_nothing; reflexivity | intros _].
  apply adds_bind; [apply adds_in_world | intros info].
  apply adds_bind; [apply adds_in_world | intros fx].
  assert (Hwf : forall ev, (exists d, ev_date ev = Some d) ->
            In (ev_color ev) event_colors -> ev_ticker ev = ticker ->
            well_formed_event ev).
  { intros ev Hd Hc Ht. repeat split; [exact Hd | exact Hc | rewrite Ht; exact Hne]. }
  apply adds_bind.
  { apply adds_for_each. intros d. apply adds_add_event.
    apply Hwf; simpl; eauto. }
  intros _. apply adds_bind.
  { apply adds_for_each. intros item.
    destruct (positive_amount (snd item)); [|apply adds_nothing; reflexivity].
    apply adds_bind; [apply adds_nothing; reflexivity | intros shares].
    apply adds_add_event. apply Hwf; simpl; eauto. }
  intros _. apply adds_for_each. intros d. apply adds_add_event.
  apply Hwf; simpl; eauto.
Qed.

Lemma adds_build_loop (E : env) (rows : list holding_row) :
  adds well_formed_event (build_loop E rows).
Proof.
  unfold build_loop. apply adds_for_each. intros row.
  apply adds_try_except; [apply adds_process_holding|].
  intros e. apply adds_nothing. intros s.
  unfold holding_handler, bind, get. simpl. destruct (b_ticker s); reflexivity.
Qed.

Lemma build_events_all_well_formed (E : env) (rows : list holding_row) (w : world)
    (evs : list event) :
  fst (build_events_from_holdings E rows w) = Ok evs -> Forall well_formed_event evs.
Proof.
  intros H. unfold build_events_from_holdings in H.
  destruct (adds_build_loop E rows (mkbuild [] None w)) as (l & El & Fl).
  destruct (build_loop E rows (mkbuild [] None w)) as [[[]|e] s]; simpl in *;
    [|discriminate].
  injection H as <-. rewrite El. exact Fl.
Qed.

(** X12. Every event the holdings loop returns has a date, is of one of the
    three kinds (orange, green, blue) and names a ticker that is not blank.
    So the writer never has to skip a dateless event, and splitting the
    list by kind loses no event and repeats none. *)
Theorem build_events_well_formed (E : env) (rows : list holding_row) (w : world)
    (evs : list event) :
  fst (build_events_from_holdings E rows w) = Ok evs ->
  Forall well_formed_event evs
  /\ (forall s e, List.length (calendar_events evs s e)
                  = List.length (filtered_events evs s e))
  /\ Permutation evs (of_color "green" evs ++ of_color "orange" evs ++ of_color "blue" evs).
Proof.
  intros H. pose proof (build_events_all_well_formed E rows w evs H) as Fl.
  clear H. split; [exact Fl|]. split.
  - intros s0 e0. unfold calendar_events, filtered_events.
    induction Fl as [|ev l Hev Fl IH]; simpl; [reflexivity|].
    destruct (in_window s0 e0 ev); simpl; [|exact IH].
    destruct Hev as ((d & Hd) & _). unfold make_ics_event at 1. rewrite Hd.
    cbn [app List.length]. f_equal. exact IH.
  - unfold of_color. induction Fl as [|ev l Hev Fl IH]; simpl; [constructor|].
    destruct Hev as (_ & Hc & _). simpl in Hc.
    destruct Hc as [<-|[<-|[<-|[]]]]; simpl.
    + apply Permutation_cons_app. exact IH.
    + constructor. exact IH.
    + rewrite app_assoc. apply Permutation_cons_app. rewrite <- app_assoc. exact IH.
Qed.

Lemma build_events_well_formed_witness :
  exists evs,
    fst (build_events_from_holdings sample_env [holding_aapl] world0) = Ok evs
    /\ Forall well_formed_event evs.
Proof.
  eexists. split; [vm_compute; reflexivity|].
  apply (build_events_well_formed sample_env [holding_aapl] world0).
  vm_compute; reflexivity.
Defined.

(** X9. A row whose ticker is blank, or whose quantity is zero, is skipped
    without a trace: no event, no request, no line printed, and no error.
    Only the local [ticker] is set. *)
Theorem skipped_rows_leave_no_trace (E : env) (row : holding_row) (t : string)
    (s : build_state) :
  row_ticker row = CellStr t ->
  strip t = EmptyString
  \/ (row_country row <> CellNaN /\ row_market row <> CellNaN /\ row_cantidad row = 0) ->
  try_except (process_holding E row) holding_handler s
  = (Ok tt, mkbuild (b_events s) (Some (strip t)) (b_world s)).
Proof.
  intros Ht Hskip. unfold try_except, process_holding. rewrite Ht.
  unfold bind at 1. cbn [lift required_strip].
  unfold bind at 1. cbn [modify]. unfold str_eqb at 1.
  destruct (String.eqb_spec (strip t) EmptyString) as [Hb|Hb]; [reflexivity|].
  destruct Hskip as [Hs|(Hc & Hm & Hq)]; [contradiction|].
  rewrite Hq. cbn [Z.eqb].
  destruct (row_country row) as [| |c]; try contradiction;
    destruct (row_market row) as [| |m]; try contradiction; reflexivity.
Qed.

Lemma skipped_rows_leave_no_trace_witness :
  try_except (process_holding sample_env holding_sold) holding_handler
    (mkbuild [] None world0)
  = (Ok tt, mkbuild [] (Some "MSFT"%string) world0).
Proof.
  apply (skipped_rows_leave_no_trace sample_env holding_sold "MSFT" (mkbuild [] None world0)).
  - reflexivity.
  - right. repeat split; discriminate.
Defined.

(** X10. A holding whose ticker the market-data library refuses is announced,
    logged as an error under its own ticker and skipped: it adds no event,
    asks no exchange rate, and the loop goes on. *)
Theorem refused_ticker_is_logged_and_skipped (E : env) (row : holding_row)
    (t : string) (e : exc) (s : build_state) :
  row_ticker row = CellStr t -> strip t <> EmptyString ->
  row_country row <> CellNaN -> row_market row <> CellNaN ->
  row_cantidad row <> 0 ->
  yf_Ticker E (strip t) = Raise e ->
  try_except (process_holding E row) holding_handler s
  = (Ok tt,
     mkbuild (b_events s) (Some (strip t))
       (print (LogHoldingError (strip t) e)
          (print (LogProcessing (strip t) (name_or (row_name row) (strip t)))
             (b_world s)))).
Proof.
  intros Ht Hb Hc Hm Hq Hyf. unfold try_except, process_holding. rewrite Ht.
  unfold bind at 1. cbn [lift required_strip].
  unfold bind at 1. cbn [modify]. unfold str_eqb at 1.
  destruct (String.eqb_spec (strip t) EmptyString) as [|_]; [contradiction|].
  destruct (Z.eqb_spec (row_cantidad row) 0) as [|_]; [contradiction|].
  destruct (row_country row) as [| |c]; try contradiction;
    destruct (row_market row) as [| |m]; try contradiction;
    unfold bind, lift, modify, in_world, fetch_info_for_ticker; simpl;
    rewrite Hyf; reflexivity.
Qed.

Lemma for_each_add_events {A} (f : A -> event) (xs : list A) (s : build_state) :
  for_each xs (fun x => modify (add_event (f x))) s
  = (Ok tt, mkbuild (b_events s ++ map f xs) (b_ticker s) (b_world s)).
Proof.
  revert s. induction xs as [|x xs IH]; intros s; simpl.
  - rewrite app_nil_r. destruct s; reflexivity.
  - unfold bind. cbn [modify]. rewrite IH. unfold add_event; simpl.
    rewrite <- app_assoc. reflexivity.
Qed.

Lemma for_each_steps {S A} (body : A -> M S unit) (g : A -> S -> S)
    (xs : list A) (s : S) :
  (forall x s, body x s = (Ok tt, g x s)) ->
  for_each xs body s = (Ok tt, fold_left (fun s x => g x s) xs s).
Proof.
  intros Hb. revert s. induction xs as [|x xs IH]; intros s; simpl; [reflexivity|].
  unfold bind. rewrite Hb. apply IH.
Qed.

Lemma for_each_dividend_events (shares : float) (cantidad : Z)
    (mk : float -> date * float -> event) (xs : list (date * float)) (s : build_state) :
  float_of_int cantidad = Ok shares ->
  for_each xs (fun item =>
    if positive_amount (snd item) then
      bind (lift (float_of_int cantidad)) (fun sh => modify (add_event (mk sh item)))
    else ret tt) s
  = (Ok tt,
     mkbuild (b_events s ++ flat_map (fun item =>
                if positive_amount (snd item) then [mk shares item] else []) xs)
             (b_ticker s) (b_world s)).
Proof.
  intros Hs.
  rewrite (for_each_steps _
             (fun item s => if positive_amount (snd item)
                            then add_event (mk shares item) s else s)).
  - f_equal. revert s. induction xs as [|x xs IH]; intros s; simpl.
    + rewrite app_nil_r. destruct s; reflexivity.
    + rewrite IH. destruct (positive_amount (snd x)); simpl;
        [rewrite <- app_assoc|]; reflexivity.
  - intros x s0. destruct (positive_amount (snd x)); [|reflexivity].
    unfold bind, lift. rewrite Hs. reflexivity.
Qed.

(** X11. A holding that goes through contributes, after the events already
    built and in this order: one ex-dividend event per ex-dividend date,
    one dividend event per dividend whose amount is greater than zero, and
    one earnings event per earnings date; dividends that are zero, negative
    or NaN give no event. *)
Theorem holding_events_in_order (E : env) (row : holding_row) (t country market : string)
    (shares fx : float) (info : ticker_info) (w1 w2 : world) (s : build_state) :
  let ticker := strip t in
  let name := name_or (row_name row) ticker in
  let currency := dict_get_default MARKET_CURRENCY market "USD"%string in
  let company_name :=
    match str_or (shortName info) (Some name) with Some n => n | None => name end in
  let scale := if str_eqb market "LON" then F001 else F1 in
  row_ticker row = CellStr t -> ticker <> EmptyString ->
  optional_strip_upper (row_country row) = Ok country ->
  optional_strip_upper (row_market row) = Ok market ->
  row_cantidad row <> 0 ->
  float_of_int (row_cantidad row) = Ok shares ->
  fetch_info_for_ticker E ticker (print (LogProcessing ticker name) (b_world s))
    = (Ok info, w1) ->
  get_fx_rate E (Some currency) EUR w1 = (Ok fx, w2) ->
  process_holding E row s
  = (Ok tt,
     mkbuild (b_events s
              ++ holding_events company_name ticker currency (row_cantidad row)
                   shares scale fx (rate_for country) info)
             (Some ticker) w2).
Proof.
  intros ticker name currency company_name scale Ht Hb Hc Hm Hq Hsh Hinfo Hfx.
  unfold process_holding. rewrite Ht.
  unfold bind at 1. cbn [lift required_strip]. fold ticker.
  unfold bind at 1. cbn [modify]. unfold str_eqb at 1.
  destruct (String.eqb_spec ticker EmptyString) as [|_]; [contradiction|].
  rewrite Hc, Hm.
  unfold bind at 1. cbn [lift]. unfold bind at 1. cbn [lift].
  destruct (Z.eqb_spec (row_cantidad row) 0) as [|_]; [contradiction|].
  unfold bind at 1. cbn [modify].
  unfold bind at 1. unfold in_world at 1.
  cbn [b_world build_print bind_ticker b_events b_ticker]. fold name. rewrite Hinfo.
  unfold bind at 1. unfold in_world at 1. cbn [b_world]. fold currency. rewrite Hfx.
  fold company_name scale.
  unfold bind at 1. rewrite for_each_add_events.
  unfold bind at 1.
  rewrite (for_each_dividend_events shares (row_cantidad row)
             (fun sh item =>
                dividend_event company_name ticker currency (row_cantidad row) scale fx
                  (dict_get_default FOREIGN_WITHHOLDING country DEFAULT_FOREIGN_WITHHOLDING)
                  (compute_net (fmul (fmul (fmul (snd item) sh) scale) fx)
                     (dict_get_default FOREIGN_WITHHOLDING country DEFAULT_FOREIGN_WITHHOLDING)
                     SPANISH_RATE)
                  (fst item) (snd item)) _ _ Hsh).
  rewrite for_each_add_events. cbn [b_events b_ticker b_world].
  unfold holding_events, rate_for. rewrite <- !app_assoc. reflexivity.
Qed.

Lemma holding_events_in_order_witness :
  process_holding sample_env holding_aapl (mkbuild [] None world0)
  = (Ok tt,
     mkbuild (holding_events "Apple Inc." "AAPL" "USD" 10 (float_of_Z 10) F1 F1
                (rate_for "US") sample_ticker_info)
             (Some "AAPL"%string)
             (mkworld [LogProcessing "AAPL" "AAPL";
                       LogEarningsFailed "AAPL" (OtherError "no earnings");
                       LogFxError "USD" "EUR" (OtherError "offline")]
                      ["USD"%string])).
Proof.
  apply (holding_events_in_order sample_env holding_aapl "AAPL" "US" "NASDAQ"
           (float_of_Z 10) F1 sample_ticker_info
           (mkworld [LogProcessing "AAPL" "AAPL";
                     LogEarningsFailed "AAPL" (OtherError "no earnings")] [])
           _ (mkbuild [] None world0));
    try reflexivity; discriminate.
Defined.

Lemma refused_ticker_is_logged_and_skipped_witness :
  try_except (process_holding sample_env_refusing holding_aapl) holding_handler
    (mkbuild [] None world0)
  = (Ok tt,
     mkbuild [] (Some "AAPL"%string)
       (mkworld [LogProcessing "AAPL" "AAPL";
                 LogHoldingError "AAPL" (OtherError "unknown ticker")] [])).
Proof.
  apply (refused_ticker_is_logged_and_skipped sample_env_refusing holding_aapl "AAPL"
           (OtherError "unknown ticker") (mkbuild [] None world0));
    try reflexivity; discriminate.
Defined.

(** ** The fetcher: where the returned dates come from *)

Lemma appends_same {X A} (proj : fetch_state -> list X) (P : X -> Prop)
    (m : M fetch_state A) :
  (forall s, proj (snd (m s)) = proj s) -> appends proj P m.
Proof. intros H s. exists []. rewrite app_nil_r. split; [apply H | constructor]. Qed.

Lemma appends_weaken {X A} (proj : fetch_state -> list X) (P Q : X -> Prop)
    (m : M fetch_state A) :
  (forall x, P x -> Q x) -> appends proj P m -> appends proj Q m.
Proof.
  intros HPQ Hm s. destruct (Hm s) as (l & El & Fl). exists l. split; [exact El|].
  eapply Forall_impl; eauto.
Qed.

Lemma appends_bind {X A B} (proj : fetch_state -> list X) (P : X -> Prop)
    (m : M fetch_state A) (k : A -> M fetch_state B) :
  appends proj P m -> (forall a, appends proj P (k a)) -> appends proj P (bind m k).
Proof.
  intros Hm Hk s. unfold bind. destruct (Hm s) as (l1 & E1 & F1).
  destruct (m s) as [[a|e] s1]; simpl in *.
  - destruct (Hk a s1) as (l2 & E2 & F2).
    exists (l1 ++ l2). rewrite E2, E1, app_assoc. split; [reflexivity|].
    apply Forall_app; auto.
  - exists l1; auto.
Qed.

Lemma appends_bind_lift {X A B} (proj : fetch_state -> list X) (P : X -> Prop)
    (r : result A) (k : A -> M fetch_state B) :
  (forall a, r = Ok a -> appends proj P (k a)) -> appends proj P (bind (lift r) k).
Proof.
  intros Hk s. unfold bind, lift. destruct r as [a|e].
  - apply Hk. reflexivity.
  - exists []. rewrite app_nil_r. split; [reflexivity | constructor].
Qed.

Lemma appends_try_except {X A} (proj : fetch_state -> list X) (P : X -> Prop)
    (m : M fetch_state A) (h : exc -> M fetch_state A) :
  appends proj P m -> (forall e, appends proj P (h e)) -> appends proj P (try_except m h).
Proof.
  intros Hm Hh s. unfold try_except. destruct (Hm s) as (l1 & E1 & F1).
  destruct (m s) as [[a|e] s1]; simpl in *.
  - exists l1; auto.
  - destruct (Hh e s1) as (l2 & E2 & F2).
    exists (l1 ++ l2). rewrite E2, E1, app_assoc. split; [reflexivity|].
    apply Forall_app; auto.
Qed.

Lemma appends_for_each {X A} (proj : fetch_state -> list X) (P : X -> Prop)
    (xs : list A) (body : A -> M fetch_state unit) :
  (forall x, In x xs -> appends proj P (body x)) -> appends proj P (for_each xs body).
Proof.
  induction xs as [|x xs IH]; intros Hb; simpl.
  - apply appends_same. reflexivity.
  - apply appends_bind; [apply Hb; left; reflexivity|].
    intros _. apply IH. intros y Hy. apply Hb. right; exact Hy.
Qed.

Lemma appends_modify {X} (proj : fetch_state -> list X) (P : X -> Prop)
    (f : fetch_state -> fetch_state) (l : list X) :
  (forall s, proj (f s) = proj s ++ l) -> Forall P l -> appends proj P (modify f).
Proof. intros H F s. exists l. split; [apply H | exact F]. Qed.

Lemma appends_keeps {X A} (proj : fetch_state -> list X) (P : X -> Prop)
    (m : M fetch_state A) (s : fetch_state) (x : X) :
  appends proj P m -> In x (proj s) -> In x (proj (snd (m s))).
Proof.
  intros Hm Hin. destruct (Hm s) as (l & -> & _). apply in_or_app. left; exact Hin.
Qed.

(** Decomposes a step of the fetcher that leaves the list [proj] alone. *)
Ltac leaves_alone :=
  repeat first
    [ apply appends_same; reflexivity
    | apply appends_bind; [|intros ?]
    | apply appends_try_except; [|intros ?]
    | apply appends_for_each; intros ? _
    | match goal with
      | |- appends _ _ (if ?c then _ else _) => destruct c
      | |- appends _ _ (match ?x with _ => _ end) => destruct x
      end ].

Lemma info_block_leaves {X} (proj : fetch_state -> list X) (P : X -> Prop)
    (ticker : string) (tk : ticker_handle) :
  (forall n s, proj (set_shortName n s) = proj s) ->
  (forall v s, proj (set_last_div v s) = proj s) ->
  (forall l s, proj (fetch_print l s) = proj s) ->
  appends proj P (fetch_info_block ticker tk).
Proof.
  intros H1 H2 H3. unfold fetch_info_block.
  apply appends_try_except; [|intros e; apply appends_same; intros s; apply H3].
  apply appends_bind; [apply appends_same; reflexivity | intros info].
  apply appends_bind; [apply appends_same; intros s; apply H1 | intros _].
  apply appends_same; intros s; apply H2.
Qed.

Lemma map_result_parse (E : env) (l : list pyobj) :
  map_result (safe_parse_date E) l = Ok (map (parse_or_none E) l).
Proof.
  induction l as [|x l IH]; simpl; [reflexivity|].
  unfold parse_or_none at 1.
  destruct (safe_parse_date_total E x) as [r ->]. simpl. rewrite IH. reflexivity.
Qed.

Lemma safe_parse_date_or_none (E : env) (x : pyobj) :
  safe_parse_date E x = Ok (parse_or_none E x).
Proof. unfold parse_or_none. destruct (safe_parse_date_total E x) as [r ->]. reflexivity. Qed.

(** The five blocks run one after the other, whatever each of them meets. *)
Lemma fetch_blocks_steps (E : env) (ticker : string) (tk : ticker_handle) (s : fetch_state) :
  snd (fetch_blocks E ticker tk s)
  = snd (fetch_actions_block E ticker tk
      (snd (fetch_dividends_block E ticker tk
        (snd (fetch_earnings_block E ticker tk
          (snd (fetch_calendar_block E ticker tk
            (snd (fetch_info_block ticker tk s))))))))).
Proof.
  unfold fetch_blocks.
  assert (Hstep : forall (m k : M fetch_state unit) s0,
            fst (m s0) = Ok tt -> snd (bind m (fun _ => k) s0) = snd (k (snd (m s0)))).
  { intros m k s0 H. unfold bind. destruct (m s0) as [[[]|e] s1]; simpl in *;
      [reflexivity | discriminate]. }
  rewrite Hstep by (apply try_except_unit_ok; reflexivity).
  rewrite Hstep by (apply try_except_unit_ok; reflexivity).
  rewrite Hstep by (apply try_except_unit_ok; reflexivity).
  rewrite Hstep by (apply try_except_unit_ok; reflexivity).
  reflexivity.
Qed.

(** *** Earnings dates *)

Lemma calendar_block_earnings (E : env) (ticker : string) (tk : ticker_handle) :
  appends out_earnings
    (fun o => forall d, o = Some d -> calendar_date E tk "Earnings Date" = Some d)
    (fetch_calendar_block E ticker tk).
Proof.
  unfold fetch_calendar_block.
  apply appends_try_except; [|intros e; apply appends_same; reflexivity].
  apply appends_bind_lift. intros cal Hcal.
  apply appends_bind_lift. intros df Hdf.
  destruct (frame_empty df) eqn:Hne; [apply appends_same; reflexivity|].
  unfold calendar_rows.
  apply appends_bind; [|intros _; unfold cal_exdiv_row, cal_pay_row; leaves_alone].
  unfold cal_earnings_row.
  destruct (in_index df "Earnings Date"); [|apply appends_same; reflexivity].
  apply appends_bind_lift. intros c Hc.
  apply appends_bind_lift. intros r Hr.
  destruct r as [d|]; [|apply appends_same; reflexivity].
  apply (appends_modify out_earnings _ _ [Some d]); [reflexivity|].
  repeat constructor. intros d' Hd'. injection Hd' as <-.
  unfold calendar_date. rewrite Hcal, Hdf, Hne, Hc, Hr. reflexivity.
Qed.

Lemma earnings_block_earnings (E : env) (ticker : string) (tk : ticker_handle) :
  appends out_earnings (fun o => In o (earnings_history_dates E tk))
    (fetch_earnings_block E ticker tk).
Proof.
  unfold fetch_earnings_block.
  apply appends_try_except; [|intros e; apply appends_same; reflexivity].
  apply appends_bind_lift. intros ed Hed.
  destruct ed as [index|]; [|apply appends_same; reflexivity].
  destruct (is_nil index); [apply appends_same; reflexivity|].
  apply appends_bind_lift. intros ds Hds.
  rewrite map_result_parse in Hds. injection Hds as <-.
  apply (appends_modify out_earnings _ _ (map (parse_or_none E) index)); [reflexivity|].
  apply Forall_forall. intros o Ho. unfold earnings_history_dates. rewrite Hed. exact Ho.
Qed.

Lemma dividends_block_leaves {X} (proj : fetch_state -> list X) (P : X -> Prop)
    (E : env) (ticker : string) (tk : ticker_handle) :
  (forall p s, proj (add_dividend p s) = proj s) ->
  (forall l s, proj (fetch_print l s) = proj s) ->
  appends proj P (fetch_dividends_block E ticker tk).
Proof.
  intros H1 H2. unfold fetch_dividends_block.
  apply appends_try_except; [|intros e; apply appends_same; intros s; apply H2].
  apply appends_bind; [apply appends_same; reflexivity | intros divs].
  destruct (is_nil divs); [apply appends_same; reflexivity|].
  apply appends_for_each. intros item _.
  apply appends_bind; [apply appends_same; reflexivity | intros [d|]];
    [|apply appends_same; reflexivity].
  apply appends_bind; [apply appends_same; reflexivity | intros a].
  apply appends_same; intros s; apply H1.
Qed.

Lemma actions_block_leaves {X} (proj : fetch_state -> list X) (P : X -> Prop)
    (E : env) (ticker : string) (tk : ticker_handle) :
  (forall d s, proj (add_exdiv d s) = proj s) ->
  (forall l s, proj (fetch_print l s) = proj s) ->
  appends proj P (fetch_actions_block E ticker tk).
Proof.
  intros H1 H2. unfold fetch_actions_block.
  apply appends_try_except; [|intros e; apply appends_same; intros s; apply H2].
  apply appends_bind; [apply appends_same; reflexivity | intros [a|]];
    [|apply appends_same; reflexivity].
  destruct (existsb (str_eqb "Dividends") (a_columns a));
    [|apply appends_same; reflexivity].
  apply appends_for_each. intros r _.
  apply appends_bind; [apply appends_same; reflexivity | intros [d|]];
    [|apply appends_same; reflexivity].
  apply appends_same; intros s; apply H1.
Qed.

Lemma earnings_block_adds_history (E : env) (ticker : string) (tk : ticker_handle)
    (s : fetch_state) (o : option date) :
  In o (earnings_history_dates E tk) ->
  In o (out_earnings (snd (fetch_earnings_block E ticker tk s))).
Proof.
  unfold earnings_history_dates, fetch_earnings_block, try_except, bind, lift.
  destruct (tk_earnings_dates tk) as [[index|]|e]; try contradiction.
  destruct index as [|x index]; [contradiction|]. cbn [is_nil].
  rewrite map_result_parse. cbn [modify snd add_earnings out_earnings].
  intros H. apply in_or_app. right. exact H.
Qed.

Lemma calendar_block_unfold (E : env) (ticker : string) (tk : ticker_handle)
    (s : fetch_state) (cal : cal_value) (df : frame) :
  tk_calendar tk = Ok cal -> calendar_frame E cal = Ok df -> frame_empty df = false ->
  fetch_calendar_block E ticker tk s
  = try_except (calendar_rows E df)
      (fun e => modify (fetch_print (LogCalendarFailed ticker e))) s.
Proof.
  intros Hcal Hdf Hne. unfold fetch_calendar_block, try_except, bind, lift.
  rewrite Hcal, Hdf, Hne. reflexivity.
Qed.

Lemma calendar_block_adds_earnings (E : env) (ticker : string) (tk : ticker_handle)
    (s : fetch_state) (d : date) :
  calendar_date E tk "Earnings Date" = Some d ->
  In (Some d) (out_earnings (snd (fetch_calendar_block E ticker tk s))).
Proof.
  unfold calendar_date. intros H.
  destruct (tk_calendar tk) as [cal|] eqn:Hcal; [|discriminate].
  destruct (calendar_frame E cal) as [df|] eqn:Hdf; [|discriminate].
  destruct (frame_empty df) eqn:Hne; [discriminate|].
  destruct (loc_first df "Earnings Date") as [c|] eqn:Hc; [|discriminate].
  destruct (safe_parse_date E c) as [[d'|]|] eqn:Hr; try discriminate.
  injection H as ->.
  assert (Hin : in_index df "Earnings Date" = true).
  { unfold in_index. unfold loc_first in Hc.
    destruct (dict_get df "Earnings Date"); [reflexivity | discriminate]. }
  assert (Hrest : appends out_earnings (fun _ => True)
                    (bind (cal_exdiv_row E df) (fun _ => cal_pay_row E df))).
  { unfold cal_exdiv_row, cal_pay_row. leaves_alone. }
  assert (Hrow : cal_earnings_row E df s = (Ok tt, add_earnings [Some d] s)).
  { unfold cal_earnings_row, bind, lift. rewrite Hin, Hc, Hr. reflexivity. }
  rewrite (calendar_block_unfold E ticker tk s cal df Hcal Hdf Hne).
  unfold try_except, calendar_rows. unfold bind at 1. rewrite Hrow.
  destruct (Hrest (add_earnings [Some d] s)) as (l & El & _).
  destruct (bind (cal_exdiv_row E df) (fun _ => cal_pay_row E df) (add_earnings [Some d] s))
    as [[[]|e] s'] eqn:Hrun; cbn [snd] in *; cbn [modify snd fetch_print out_earnings];
    rewrite El; cbn [add_earnings out_earnings];
    apply in_or_app; left; apply in_or_app; right; left; reflexivity.
Qed.

(** X6. The earnings dates returned are exactly the dates found in the two
    sources: the 'Earnings Date' of the forward-looking calendar and the
    index of the earnings history.  Nothing else gets in and, whatever the
    other sources do, no date of either source is lost. *)
Theorem earnings_dates_exact (E : env) (ticker : string) (tk : ticker_handle)
    (w : world) (info : ticker_info) :
  env_sets_ok E -> yf_Ticker E ticker = Ok tk ->
  fst (fetch_info_for_ticker E ticker w) = Ok info ->
  forall d, In d (earnings_dates info)
            <-> calendar_date E tk "Earnings Date" = Some d
                \/ In (Some d) (earnings_history_dates E tk).
Proof.
  intros Hsets Htk Hinfo d.
  unfold fetch_info_for_ticker in Hinfo. rewrite Htk in Hinfo.
  rewrite fetch_from_handle_result in Hinfo. injection Hinfo as <-.
  cbn [fetch_cleanup earnings_dates].
  destruct (clean_dates_spec (out_earnings (fetch_collected E ticker tk w)) Hsets)
    as (_ & _ & Hin & _).
  rewrite Hin. unfold fetch_collected. rewrite fetch_blocks_steps.
  set (P := fun o : option date => forall d, o = Some d ->
              calendar_date E tk "Earnings Date" = Some d
              \/ In (Some d) (earnings_history_dates E tk)).
  set (s1 := snd (fetch_info_block ticker tk (fetch_init w))).
  set (s2 := snd (fetch_calendar_block E ticker tk s1)).
  set (s3 := snd (fetch_earnings_block E ticker tk s2)).
  set (s4 := snd (fetch_dividends_block E ticker tk s3)).
  set (s5 := snd (fetch_actions_block E ticker tk s4)).
  assert (A1 : appends out_earnings P (fetch_info_block ticker tk))
    by (apply info_block_leaves; reflexivity).
  assert (A2 : appends out_earnings P (fetch_calendar_block E ticker tk)).
  { eapply appends_weaken; [|apply calendar_block_earnings].
    intros o Ho d' Hd'. left. apply Ho. exact Hd'. }
  assert (A3 : appends out_earnings P (fetch_earnings_block E ticker tk)).
  { eapply appends_weaken; [|apply earnings_block_earnings].
    intros o Ho d' Hd'. right. rewrite <- Hd'. exact Ho. }
  assert (A4 : appends out_earnings P (fetch_dividends_block E ticker tk))
    by (apply dividends_block_leaves; reflexivity).
  assert (A5 : appends out_earnings P (fetch_actions_block E ticker tk))
    by (apply actions_block_leaves; reflexivity).
  split.
  - intros H.
    destruct (A1 (fetch_init w)) as (l1 & E1 & F1). fold s1 in E1.
    destruct (A2 s1) as (l2 & E2 & F2). fold s2 in E2.
    destruct (A3 s2) as (l3 & E3 & F3). fold s3 in E3.
    destruct (A4 s3) as (l4 & E4 & F4). fold s4 in E4.
    destruct (A5 s4) as (l5 & E5 & F5). fold s5 in E5.
    rewrite E5, E4, E3, E2, E1 in H. cbn [fetch_init out_earnings app] in H.
    rewrite Forall_forall in F1, F2, F3, F4, F5.
    repeat (apply in_app_or in H; destruct H as [H|H]);
      try contradiction;
      match goal with
      | F : forall x, In x ?l -> P x, H : In _ ?l |- _ => exact (F _ H d eq_refl)
      end.
  - intros [H|H].
    + apply (appends_keeps _ _ _ _ _ A5). apply (appends_keeps _ _ _ _ _ A4).
      apply (appends_keeps _ _ _ _ _ A3). apply calendar_block_adds_earnings. exact H.
    + apply (appends_keeps _ _ _ _ _ A5). apply (appends_keeps _ _ _ _ _ A4).
      apply earnings_block_adds_history. exact H.
Qed.

(** *** Ex-dividend dates *)

Lemma earnings_block_leaves {X} (proj : fetch_state -> list X) (P : X -> Prop)
    (E : env) (ticker : string) (tk : ticker_handle) :
  (forall l s, proj (add_earnings l s) = proj s) ->
  (forall l s, proj (fetch_print l s) = proj s) ->
  appends proj P (fetch_earnings_block E ticker tk).
Proof.
  intros H1 H2. unfold fetch_earnings_block.
  apply appends_try_except; [|intros e; apply appends_same; intros s; apply H2].
  apply appends_bind; [apply appends_same; reflexivity | intros [index|]];
    [|apply appends_same; reflexivity].
  destruct (is_nil index); [apply appends_same; reflexivity|].
  apply appends_bind; [apply appends_same; reflexivity | intros ds].
  apply appends_same; intros s; apply H1.
Qed.

Lemma calendar_block_exdiv (E : env) (ticker : string) (tk : ticker_handle) :
  appends out_exdiv
    (fun o => forall d, o = Some d -> calendar_date E tk "Ex-Dividend Date" = Some d)
    (fetch_calendar_block E ticker tk).
Proof.
  unfold fetch_calendar_block.
  apply appends_try_except; [|intros e; apply appends_same; reflexivity].
  apply appends_bind_lift. intros cal Hcal.
  apply appends_bind_lift. intros df Hdf.
  destruct (frame_empty df) eqn:Hne; [apply appends_same; reflexivity|].
  unfold calendar_rows.
  apply appends_bind; [unfold cal_earnings_row; leaves_alone | intros _].
  apply appends_bind; [|intros _; unfold cal_pay_row; leaves_alone].
  unfold cal_exdiv_row.
  destruct (in_index df "Ex-Dividend Date"); [|apply appends_same; reflexivity].
  apply appends_bind_lift. intros c Hc.
  apply appends_bind_lift. intros r Hr.
  destruct r as [d|]; [|apply appends_same; reflexivity].
  apply (appends_modify out_exdiv _ _ [Some d]); [reflexivity|].
  repeat constructor. intros d' Hd'. injection Hd' as <-.
  unfold calendar_date. rewrite Hcal, Hdf, Hne, Hc, Hr. reflexivity.
Qed.

Lemma actions_block_exdiv (E : env) (ticker : string) (tk : ticker_handle) :
  appends out_exdiv (fun o => In o (action_dates E tk)) (fetch_actions_block E ticker tk).
Proof.
  unfold fetch_actions_block.
  apply appends_try_except; [|intros e; apply appends_same; reflexivity].
  apply appends_bind_lift. intros [a|] Ha; [|apply appends_same; reflexivity].
  destruct (existsb (str_eqb "Dividends") (a_columns a)) eqn:Hcol;
    [|apply appends_same; reflexivity].
  apply appends_for_each. intros r Hin.
  apply appends_bind_lift. intros [d|] Hr; [|apply appends_same; reflexivity].
  apply (appends_modify out_exdiv _ _ [Some d]); [reflexivity|].
  repeat constructor. unfold action_dates. rewrite Ha, Hcol.
  apply in_map_iff. exists r. split; [|exact Hin].
  unfold parse_or_none. rewrite Hr. reflexivity.
Qed.

Lemma actions_block_adds (E : env) (ticker : string) (tk : ticker_handle)
    (s : fetch_state) (d : date) :
  In (Some d) (action_dates E tk) ->
  In (Some d) (out_exdiv (snd (fetch_actions_block E ticker tk s))).
Proof.
  unfold action_dates, fetch_actions_block, try_except. unfold bind at 1. unfold lift at 1.
  destruct (tk_actions tk) as [[a|]|e]; try contradiction.
  destruct (existsb (str_eqb "Dividends") (a_columns a)); [|contradiction].
  intros Hin.
  rewrite (for_each_steps _
     (fun r s => match parse_or_none E (fst r) with
                 | Some d => add_exdiv (Some d) s
                 | None => s
                 end)).
  - cbn [snd]. generalize (filter (fun r => fltb F0 (snd r)) (a_rows a)) s Hin.
    clear. intros rows. induction rows as [|r rows IH]; intros s Hin; [contradiction|].
    simpl in Hin. cbn [fold_left].
    assert (Hmono : forall (rows : list (pyobj * float)) s x, In x (out_exdiv s) ->
              In x (out_exdiv (fold_left (fun s r =>
                      match parse_or_none E (fst r) with
                      | Some d => add_exdiv (Some d) s
                      | None => s
                      end) rows s))).
    { clear. intros rows. induction rows as [|r rows IH]; intros s x Hx; [exact Hx|].
      cbn [fold_left]. apply IH. destruct (parse_or_none E (fst r)); [|exact Hx].
      cbn [add_exdiv out_exdiv]. apply in_or_app. left; exact Hx. }
    destruct Hin as [Hr|Hin].
    + apply Hmono. rewrite Hr. cbn [add_exdiv out_exdiv].
      apply in_or_app. right. left. reflexivity.
    + apply IH. exact Hin.
  - intros r s0. unfold bind, lift. rewrite safe_parse_date_or_none.
    destruct (parse_or_none E (fst r)); reflexivity.
Qed.

Lemma calendar_block_adds_exdiv (E : env) (ticker : string) (tk : ticker_handle)
    (s : fetch_state) (cal : cal_value) (df : frame) (d : date) :
  tk_calendar tk = Ok cal -> calendar_frame E cal = Ok df -> frame_wf df ->
  calendar_date E tk "Ex-Dividend Date" = Some d ->
  In (Some d) (out_exdiv (snd (fetch_calendar_block E ticker tk s))).
Proof.
  intros Hcal Hdf Hwf. unfold calendar_date. rewrite Hcal, Hdf. intros H.
  destruct (frame_empty df) eqn:Hne; [discriminate|].
  destruct (loc_first df "Ex-Dividend Date") as [c|] eqn:Hc; [|discriminate].
  destruct (safe_parse_date E c) as [[d'|]|] eqn:Hr; try discriminate.
  injection H as ->.
  assert (Hin : in_index df "Ex-Dividend Date" = true).
  { unfold in_index. unfold loc_first in Hc.
    destruct (dict_get df "Ex-Dividend Date"); [reflexivity | discriminate]. }
  assert (Hearn : appends out_exdiv (fun _ => True) (cal_earnings_row E df))
    by (unfold cal_earnings_row; leaves_alone).
  assert (Hpay : appends out_exdiv (fun _ => True) (cal_pay_row E df))
    by (unfold cal_pay_row; leaves_alone).
  destruct (@cal_earnings_row_keeps E df s Hwf) as (s1 & Hrow1 & _).
  assert (Hrow2 : cal_exdiv_row E df s1 = (Ok tt, add_exdiv (Some d) s1)).
  { unfold cal_exdiv_row, bind, lift. rewrite Hin, Hc, Hr. reflexivity. }
  rewrite (calendar_block_unfold E ticker tk s cal df Hcal Hdf Hne).
  unfold try_except, calendar_rows. unfold bind at 1. rewrite Hrow1.
  unfold bind at 1. rewrite Hrow2.
  destruct (Hpay (add_exdiv (Some d) s1)) as (l & El & _).
  destruct (cal_pay_row E df (add_exdiv (Some d) s1)) as [[[]|e] s'];
    cbn [snd] in *; cbn [modify snd fetch_print out_exdiv];
    rewrite El; cbn [add_exdiv out_exdiv];
    apply in_or_app; left; apply in_or_app; right; left; reflexivity.
Qed.

(** X7. The ex-dividend dates returned come from two places only: the
    'Ex-Dividend Date' of the forward-looking calendar and the rows of the
    corporate actions whose dividend is greater than zero.  A row with a
    zero, negative or NaN dividend (a split, say) gives no date; no date of
    a row with a positive dividend is lost; and the date of a calendar
    whose rows all have a first cell is not lost either. *)
Theorem ex_dividend_dates_sources (E : env) (ticker : string) (tk : ticker_handle)
    (w : world) (info : ticker_info) :
  env_sets_ok E -> yf_Ticker E ticker = Ok tk ->
  fst (fetch_info_for_ticker E ticker w) = Ok info ->
  (forall d, In d (ex_dividend_dates info) ->
     calendar_date E tk "Ex-Dividend Date" = Some d \/ In (Some d) (action_dates E tk))
  /\ (forall d, In (Some d) (action_dates E tk) -> In d (ex_dividend_dates info))
  /\ (forall cal df d,
        tk_calendar tk = Ok cal -> calendar_frame E cal = Ok df -> frame_wf df ->
        calendar_date E tk "Ex-Dividend Date" = Some d ->
        In d (ex_dividend_dates info)).
Proof.
  intros Hsets Htk Hinfo.
  unfold fetch_info_for_ticker in Hinfo. rewrite Htk in Hinfo.
  rewrite fetch_from_handle_result in Hinfo. injection Hinfo as <-.
  cbn [fetch_cleanup ex_dividend_dates].
  destruct (clean_dates_spec (out_exdiv (fetch_collected E ticker tk w)) Hsets)
    as (_ & _ & Hin & _).
  unfold fetch_collected in *. rewrite fetch_blocks_steps in *.
  set (P := fun o : option date => forall d, o = Some d ->
              calendar_date E tk "Ex-Dividend Date" = Some d
              \/ In (Some d) (action_dates E tk)).
  set (s1 := snd (fetch_info_block ticker tk (fetch_init w))) in *.
  set (s2 := snd (fetch_calendar_block E ticker tk s1)) in *.
  set (s3 := snd (fetch_earnings_block E ticker tk s2)) in *.
  set (s4 := snd (fetch_dividends_block E ticker tk s3)) in *.
  set (s5 := snd (fetch_actions_block E ticker tk s4)) in *.
  assert (A1 : appends out_exdiv P (fetch_info_block ticker tk))
    by (apply info_block_leaves; reflexivity).
  assert (A2 : appends out_exdiv P (fetch_calendar_block E ticker tk)).
  { eapply appends_weaken; [|apply calendar_block_exdiv].
    intros o Ho d' Hd'. left. apply Ho. exact Hd'. }
  assert (A3 : appends out_exdiv P (fetch_earnings_block E ticker tk))
    by (apply earnings_block_leaves; reflexivity).
  assert (A4 : appends out_exdiv P (fetch_dividends_block E ticker tk))
    by (apply dividends_block_leaves; reflexivity).
  assert (A5 : appends out_exdiv P (fetch_actions_block E ticker tk)).
  { eapply appends_weaken; [|apply actions_block_exdiv].
    intros o Ho d' Hd'. right. rewrite <- Hd'. exact Ho. }
  split; [|split].
  - intros d H. apply Hin in H.
    destruct (A1 (fetch_init w)) as (l1 & E1 & F1). fold s1 in E1.
    destruct (A2 s1) as (l2 & E2 & F2). fold s2 in E2.
    destruct (A3 s2) as (l3 & E3 & F3). fold s3 in E3.
    destruct (A4 s3) as (l4 & E4 & F4). fold s4 in E4.
    destruct (A5 s4) as (l5 & E5 & F5). fold s5 in E5.
    rewrite E5, E4, E3, E2, E1 in H. cbn [fetch_init out_exdiv app] in H.
    rewrite Forall_forall in F1, F2, F3, F4, F5.
    repeat (apply in_app_or in H; destruct H as [H|H]);
      try contradiction;
      match goal with
      | F : forall x, In x ?l -> P x, H : In _ ?l |- _ => exact (F _ H d eq_refl)
      end.
  - intros d H. apply Hin. apply actions_block_adds. exact H.
  - intros cal df d Hcal Hdf Hwf H. apply Hin.
    apply (appends_keeps _ _ _ _ _ A5). apply (appends_keeps _ _ _ _ _ A4).
    apply (appends_keeps _ _ _ _ _ A3).
    apply (calendar_block_adds_exdiv E ticker tk s1 cal df d Hcal Hdf Hwf H).
Qed.

(** *** Dividend payments *)

Lemma for_each_steps_in {S A} (body : A -> M S unit) (g : A -> S -> S)
    (xs : list A) (s : S) :
  (forall x, In x xs -> forall s, body x s = (Ok tt, g x s)) ->
  for_each xs body s = (Ok tt, fold_left (fun s x => g x s) xs s).
Proof.
  revert s. induction xs as [|x xs IH]; intros s Hb; simpl; [reflexivity|].
  unfold bind. rewrite Hb by (left; reflexivity).
  apply IH. intros y Hy. apply Hb. right; exact Hy.
Qed.

Lemma py_set_fold_mono {A} (eqb : A -> A -> bool) (l seen : list A) (y : A) :
  In y seen ->
  In y (fold_left (fun seen x => if existsb (fun y => eqb y x) seen
                                 then seen else seen ++ [x]) l seen).
Proof.
  revert seen. induction l as [|a l IH]; intros seen Hy; simpl; [exact Hy|].
  apply IH. destruct (existsb (fun y0 => eqb y0 a) seen); [exact Hy|].
  apply in_or_app. left; exact Hy.
Qed.

Lemma py_set_fold_covers {A} (eqb : A -> A -> bool) (l seen : list A) (x : A) :
  In x l ->
  exists y, In y (fold_left (fun seen x => if existsb (fun y => eqb y x) seen
                                          then seen else seen ++ [x]) l seen)
            /\ (y = x \/ eqb y x = true).
Proof.
  revert seen. induction l as [|a l IH]; intros seen Hin; [contradiction|].
  simpl. destruct Hin as [->|Hin]; [|apply IH; exact Hin].
  destruct (existsb (fun y => eqb y x) seen) eqn:Hex.
  - apply existsb_exists in Hex. destruct Hex as (y & Hy & Hyx).
    exists y. split; [apply py_set_fold_mono; exact Hy | right; exact Hyx].
  - exists x. split; [|left; reflexivity].
    apply py_set_fold_mono. apply in_or_app. right. left. reflexivity.
Qed.

(** Every element of a list is in its set, itself or through an element
    equal to it. *)
Lemma py_set_covers {A} (eqb : A -> A -> bool) (l : list A) (x : A) :
  In x l -> exists y, In y (py_set eqb l) /\ (y = x \/ eqb y x = true).
Proof. apply py_set_fold_covers. Qed.

Lemma clean_pairs_covers (E : env) (l : list (date * float)) (p : date * float) :
  env_sets_ok E -> In p l ->
  exists q, In q (clean_pairs E l) /\ (q = p \/ pair_eqb q p = true).
Proof.
  intros [_ Hperm] Hin. destruct (py_set_covers pair_eqb l p Hin) as (q & Hq & Hqp).
  exists q. split; [|exact Hqp]. unfold clean_pairs.
  eapply Permutation_in; [symmetry; apply sorted_perm|].
  eapply Permutation_in; [symmetry; apply Hperm|]. exact Hq.
Qed.

Lemma cal_row_fields (E : env) (df : frame) (s : fetch_state) :
  (out_dividends (snd (cal_earnings_row E df s)) = out_dividends s
   /\ last_div_amount (snd (cal_earnings_row E df s)) = last_div_amount s)
  /\ (out_dividends (snd (cal_exdiv_row E df s)) = out_dividends s
      /\ last_div_amount (snd (cal_exdiv_row E df s)) = last_div_amount s).
Proof.
  unfold cal_earnings_row, cal_exdiv_row, bind, lift. split.
  - destruct (in_index df "Earnings Date"); [|auto].
    destruct (loc_first df "Earnings Date") as [c|]; [|auto].
    destruct (safe_parse_date E c) as [[d|]|]; auto.
  - destruct (in_index df "Ex-Dividend Date"); [|auto].
    destruct (loc_first df "Ex-Dividend Date") as [c|]; [|auto].
    destruct (safe_parse_date E c) as [[d|]|]; auto.
Qed.

Lemma cal_pay_row_dividends (E : env) (df : frame) (s : fetch_state) :
  exists l,
    out_dividends (snd (cal_pay_row E df s)) = out_dividends s ++ l
    /\ Forall (fun p => (exists c, loc_first df "Dividend Date" = Ok c
                                   /\ safe_parse_date E c = Ok (Some (fst p)))
                        /\ py_gt0 (last_div_amount s) = Ok true
                        /\ py_float E (last_div_amount s) = Ok (snd p)) l.
Proof.
  assert (Hnone : forall s', out_dividends s' = out_dividends s ->
            exists l, out_dividends s' = out_dividends s ++ l
              /\ Forall (fun p => (exists c, loc_first df "Dividend Date" = Ok c
                                   /\ safe_parse_date E c = Ok (Some (fst p)))
                        /\ py_gt0 (last_div_amount s) = Ok true
                        /\ py_float E (last_div_amount s) = Ok (snd p)) l).
  { intros s' H. exists []. rewrite app_nil_r. split; [exact H | constructor]. }
  unfold cal_pay_row, bind, lift, get.
  destruct (in_index df "Dividend Date"); [|apply Hnone; reflexivity].
  destruct (loc_first df "Dividend Date") as [c|e] eqn:Hc; [|apply Hnone; reflexivity].
  destruct (safe_parse_date E c) as [[d|]|e] eqn:Hr; try (apply Hnone; reflexivity).
  destruct (py_gt0 (last_div_amount s)) as [[|]|e] eqn:Hgt;
    try (apply Hnone; reflexivity).
  destruct (py_float E (last_div_amount s)) as [a|e] eqn:Hfl;
    [|apply Hnone; reflexivity].
  exists [(d, a)]. split; [reflexivity|]. repeat constructor; cbn [fst snd]; eauto.
Qed.

(** What the calendar block adds to the dividend pairs: at most the pay
    date of the calendar with the last dividend value, when that is
    greater than zero. *)
Lemma calendar_block_dividends (E : env) (ticker : string) (tk : ticker_handle)
    (s : fetch_state) :
  exists l,
    out_dividends (snd (fetch_calendar_block E ticker tk s)) = out_dividends s ++ l
    /\ Forall (fun p => calendar_date E tk "Dividend Date" = Some (fst p)
                        /\ py_gt0 (last_div_amount s) = Ok true
                        /\ py_float E (last_div_amount s) = Ok (snd p)) l.
Proof.
  assert (Hnone : forall s', out_dividends s' = out_dividends s ->
            exists l, out_dividends s' = out_dividends s ++ l
              /\ Forall (fun p => calendar_date E tk "Dividend Date" = Some (fst p)
                                  /\ py_gt0 (last_div_amount s) = Ok true
                                  /\ py_float E (last_div_amount s) = Ok (snd p)) l).
  { intros s' H. exists []. rewrite app_nil_r. split; [exact H | constructor]. }
  destruct (tk_calendar tk) as [cal|e] eqn:Hcal;
    [|apply Hnone; unfold fetch_calendar_block, try_except, bind, lift;
      rewrite Hcal; reflexivity].
  destruct (calendar_frame E cal) as [df|e] eqn:Hdf;
    [|apply Hnone; unfold fetch_calendar_block, try_except, bind, lift;
      rewrite Hcal, Hdf; reflexivity].
  destruct (frame_empty df) eqn:Hne;
    [apply Hnone; unfold fetch_calendar_block, try_except, bind, lift;
     rewrite Hcal, Hdf, Hne; reflexivity|].
  rewrite (calendar_block_unfold E ticker tk s cal df Hcal Hdf Hne).
  unfold try_except, calendar_rows. unfold bind at 1.
  destruct (cal_row_fields E df s) as [[D1 L1] _].
  destruct (cal_earnings_row E df s) as [[[]|e] s1]; cbn [snd] in D1, L1;
    [|apply Hnone; exact D1].
  unfold bind at 1.
  destruct (cal_row_fields E df s1) as [_ [D2 L2]].
  destruct (cal_exdiv_row E df s1) as [[[]|e] s2]; cbn [snd] in D2, L2;
    [|apply Hnone; cbn [snd modify fetch_print out_dividends]; congruence].
  destruct (cal_pay_row_dividends E df s2) as (l & El & Fl).
  rewrite L2, L1 in Fl. rewrite D2, D1 in El.
  exists l. split.
  - destruct (cal_pay_row E df s2) as [[[]|e] s3]; cbn [snd] in *;
      cbn [modify snd fetch_print out_dividends]; exact El.
  - eapply Forall_impl; [|exact Fl]. intros p ((c & Hc & Hr) & Hgt & Hfl).
    split; [|auto]. unfold calendar_date. rewrite Hcal, Hdf, Hne, Hc, Hr. reflexivity.
Qed.

Lemma dividends_block_dividends (E : env) (ticker : string) (tk : ticker_handle) :
  appends out_dividends
    (fun p => exists divs item,
       tk_dividends tk = Ok divs /\ In item divs
       /\ parse_or_none E (fst item) = Some (fst p)
       /\ py_float E (snd item) = Ok (snd p))
    (fetch_dividends_block E ticker tk).
Proof.
  unfold fetch_dividends_block.
  apply appends_try_except; [|intros e; apply appends_same; reflexivity].
  apply appends_bind_lift. intros divs Hdivs.
  destruct (is_nil divs); [apply appends_same; reflexivity|].
  apply appends_for_each. intros item Hin.
  apply appends_bind_lift. intros [d|] Hr; [|apply appends_same; reflexivity].
  apply appends_bind_lift. intros a Ha.
  apply (appends_modify out_dividends _ _ [(d, a)]); [reflexivity|].
  repeat constructor. exists divs, item. cbn [fst snd].
  unfold parse_or_none. rewrite Hr. auto.
Qed.

Lemma dividends_block_adds (E : env) (ticker : string) (tk : ticker_handle)
    (s : fetch_state) (divs : list (pyobj * pyobj)) (item : pyobj * pyobj)
    (d : date) (a : float) :
  tk_dividends tk = Ok divs ->
  (forall i, In i divs -> parse_or_none E (fst i) <> None ->
             exists b, py_float E (snd i) = Ok b) ->
  In item divs -> parse_or_none E (fst item) = Some d -> py_float E (snd item) = Ok a ->
  In (d, a) (out_dividends (snd (fetch_dividends_block E ticker tk s))).
Proof.
  intros Hdivs Hconv Hin Hd Ha.
  unfold fetch_dividends_block, try_except. unfold bind at 1. unfold lift at 1.
  rewrite Hdivs. destruct divs as [|i0 divs0] eqn:Hl; [contradiction|].
  rewrite <- Hl in *. assert (is_nil divs = false) as -> by (rewrite Hl; reflexivity).
  clear Hl i0 divs0.
  set (g := fun (i : pyobj * pyobj) (s : fetch_state) =>
              match parse_or_none E (fst i) with
              | Some d => match py_float E (snd i) with
                          | Ok a => add_dividend (d, a) s
                          | Raise _ => s
                          end
              | None => s
              end).
  rewrite (for_each_steps_in _ g).
  - cbn [snd].
    assert (Hmono : forall (l : list (pyobj * pyobj)) s x, In x (out_dividends s) ->
              In x (out_dividends (fold_left (fun s i => g i s) l s))).
    { intros l. induction l as [|i l IH]; intros s0 x Hx; [exact Hx|].
      cbn [fold_left]. apply IH. unfold g.
      destruct (parse_or_none E (fst i)); [|exact Hx].
      destruct (py_float E (snd i)); [|exact Hx].
      cbn [add_dividend out_dividends]. apply in_or_app. left; exact Hx. }
    clear Hconv Hdivs. revert s. induction divs as [|i divs IH]; intros s; [contradiction|].
    cbn [fold_left]. destruct Hin as [->|Hin]; [|apply IH; exact Hin].
    apply Hmono. unfold g. rewrite Hd, Ha. cbn [add_dividend out_dividends].
    apply in_or_app. right. left. reflexivity.
  - intros i Hi s0. unfold bind, lift, g. rewrite safe_parse_date_or_none.
    destruct (parse_or_none E (fst i)) as [d0|] eqn:Hp; [|reflexivity].
    destruct (Hconv i Hi) as [b Hb]; [rewrite Hp; discriminate|].
    rewrite Hb. reflexivity.
Qed.

(** X8. The dividend pairs returned come from two places only: the pay date
    of the forward-looking calendar, with the last dividend value when that
    is greater than zero, and the items of the dividend history whose date
    parses, each with its amount as [float] gives it.  When every amount of
    the history converts, each of its dated items is returned, itself or
    through a pair with the same date and an equal amount. *)
Theorem dividends_history_sources (E : env) (ticker : string) (tk : ticker_handle)
    (w : world) (info : ticker_info) :
  env_sets_ok E -> yf_Ticker E ticker = Ok tk ->
  fst (fetch_info_for_ticker E ticker w) = Ok info ->
  (forall d a, In (d, a) (dividends_history info) ->
     (calendar_date E tk "Dividend Date" = Some d
      /\ py_gt0 (last_dividend_value tk) = Ok true
      /\ py_float E (last_dividend_value tk) = Ok a)
     \/ (exists divs item,
           tk_dividends tk = Ok divs /\ In item divs
           /\ parse_or_none E (fst item) = Some d
           /\ py_float E (snd item) = Ok a))
  /\ (forall divs,
        tk_dividends tk = Ok divs ->
        (forall i, In i divs -> parse_or_none E (fst i) <> None ->
                   exists b, py_float E (snd i) = Ok b) ->
        forall item d a,
          In item divs -> parse_or_none E (fst item) = Some d ->
          py_float E (snd item) = Ok a ->
          exists a', In (d, a') (dividends_history info)
                     /\ (a' = a \/ feqb a' a = true)).
Proof.
  intros Hsets Htk Hinfo.
  unfold fetch_info_for_ticker in Hinfo. rewrite Htk in Hinfo.
  rewrite fetch_from_handle_result in Hinfo. injection Hinfo as <-.
  cbn [fetch_cleanup dividends_history].
  destruct (clean_pairs_spec (out_dividends (fetch_collected E ticker tk w)) Hsets)
    as (_ & _ & Hsub).
  pose proof (clean_pairs_covers E (out_dividends (fetch_collected E ticker tk w)))
    as Hcov.
  unfold fetch_collected in *. rewrite fetch_blocks_steps in *.
  destruct (info_block_state ticker tk w) as [Hv Hnil]. cbn zeta in Hv, Hnil.
  set (s1 := snd (fetch_info_block ticker tk (fetch_init w))) in *.
  set (s2 := snd (fetch_calendar_block E ticker tk s1)) in *.
  set (s3 := snd (fetch_earnings_block E ticker tk s2)) in *.
  set (s4 := snd (fetch_dividends_block E ticker tk s3)) in *.
  set (s5 := snd (fetch_actions_block E ticker tk s4)) in *.
  set (P := fun p : date * float =>
              (calendar_date E tk "Dividend Date" = Some (fst p)
               /\ py_gt0 (last_dividend_value tk) = Ok true
               /\ py_float E (last_dividend_value tk) = Ok (snd p))
              \/ (exists divs item,
                    tk_dividends tk = Ok divs /\ In item divs
                    /\ parse_or_none E (fst item) = Some (fst p)
                    /\ py_float E (snd item) = Ok (snd p))).
  assert (A3 : appends out_dividends P (fetch_earnings_block E ticker tk))
    by (apply earnings_block_leaves; reflexivity).
  assert (A4 : appends out_dividends P (fetch_dividends_block E ticker tk)).
  { eapply appends_weaken; [|apply dividends_block_dividends].
    intros p Hp. right. exact Hp. }
  assert (A5 : appends out_dividends P (fetch_actions_block E ticker tk))
    by (apply actions_block_leaves; reflexivity).
  split.
  - intros d a H. apply Hsub in H.
    destruct (calendar_block_dividends E ticker tk s1) as (l2 & E2 & F2). fold s2 in E2.
    destruct (A3 s2) as (l3 & E3 & F3). fold s3 in E3.
    destruct (A4 s3) as (l4 & E4 & F4). fold s4 in E4.
    destruct (A5 s4) as (l5 & E5 & F5). fold s5 in E5.
    rewrite E5, E4, E3, E2, Hnil in H. cbn [app] in H. rewrite Hv in F2.
    rewrite Forall_forall in F2, F3, F4, F5.
    assert (HP : P (d, a)).
    { repeat (apply in_app_or in H; destruct H as [H|H]); auto.
      left. apply (F2 _ H). }
    exact HP.
  - intros divs Hdivs Hconv item d a Hin Hd Ha.
    assert (Hc : In (d, a) (out_dividends s5)).
    { apply (appends_keeps _ _ _ _ _ A5).
      apply (dividends_block_adds E ticker tk s3 divs item d a); assumption. }
    destruct (Hcov (d, a) Hsets Hc) as ([d' a'] & Hq & Heq).
    destruct Heq as [Heq|Heq].
    + injection Heq as -> ->. exists a. auto.
    + unfold pair_eqb in Heq. cbn [fst snd] in Heq.
      apply andb_true_iff in Heq. destruct Heq as [Hdd Haa].
      apply date_eqb_eq in Hdd. subst d'. exists a'. auto.
Qed.

(** *** What the fetcher prints *)





Lemma clean_nothing (E : env) :
  env_sets_ok E -> clean_dates E [] = [] /\ clean_pairs E [] = [].
Proof.
  intros [H1 H2]. unfold clean_dates, clean_pairs, py_set, truthy_dates; simpl.
  rewrite (Permutation_nil (Permutation_sym (H1 []))).
  rewrite (Permutation_nil (Permutation_sym (H2 []))). auto.
Qed.

(** X5. A ticker all of whose five sources fail still gets an answer: no
    name, no dates, no dividends, and the five warnings in the order of the
    sources. *)
Theorem all_sources_failing (E : env) (ticker : string) (tk : ticker_handle)
    (e1 e2 e3 e4 e5 : exc) (w : world) :
  env_sets_ok E -> yf_Ticker E ticker = Ok tk ->
  tk_info tk = Raise e1 -> tk_calendar tk = Raise e2 ->
  tk_earnings_dates tk = Raise e3 -> tk_dividends tk = Raise e4 ->
  tk_actions tk = Raise e5 ->
  fetch_info_for_ticker E ticker w
  = (Ok (mkticker_info None [] [] []),
     mkworld (w_log w ++ [LogInfoFailed ticker e1; LogCalendarFailed ticker e2;
                          LogEarningsFailed ticker e3; LogDividendsFailed ticker e4;
                          LogActionsFailed ticker e5])
             (w_requests w)).
Proof.
  intros Hsets Htk H1 H2 H3 H4 H5.
  destruct (clean_nothing E Hsets) as [Hd Hp].
  unfold fetch_info_for_ticker. rewrite Htk.
  assert (Hrun : fetch_blocks E ticker tk (fetch_init w)
                 = (Ok tt,
                    mkfetch None [] [] [] (PyFloat F0)
                      (mkworld (w_log w ++ [LogInfoFailed ticker e1;
                                            LogCalendarFailed ticker e2;
                                            LogEarningsFailed ticker e3;
                                            LogDividendsFailed ticker e4;
                                            LogActionsFailed ticker e5])
                               (w_requests w)))).
  { unfold fetch_blocks, fetch_info_block, fetch_calendar_block,
      fetch_earnings_block, fetch_dividends_block, fetch_actions_block,
      try_except, bind, lift.
    rewrite H1, H2, H3, H4, H5. unfold modify, fetch_print, fetch_init, print.
    cbn [w_log w_requests out_shortName out_dividends out_earnings
         out_exdiv last_div_amount f_world].
    rewrite <- !app_assoc. reflexivity. }
  unfold fetch_from_handle. rewrite Hrun. cbn [rbind f_world].
  unfold fetch_cleanup. cbn [out_shortName out_dividends out_earnings out_exdiv].
  rewrite Hd, Hp. reflexivity.
Qed.

(** *** Instances on the sample tickers *)

Lemma sample_env_full_sets_ok : env_sets_ok sample_env_full.
Proof. split; intros l; apply Permutation_refl. Qed.

Lemma sample_env_failing_sets_ok : env_sets_ok sample_env_failing.
Proof. split; intros l; apply Permutation_refl. Qed.

Lemma earnings_dates_exact_witness :
  exists info,
    fst (fetch_info_for_ticker sample_env_full "AAPL" world0) = Ok info
    /\ In may10 (earnings_dates info) /\ In jun01 (earnings_dates info).
Proof.
  eexists. split; [vm_compute; reflexivity|].
  split.
  - apply (earnings_dates_exact sample_env_full "AAPL" sample_handle_full world0 _
             sample_env_full_sets_ok eq_refl ltac:(vm_compute; reflexivity) may10).
    left. vm_compute. reflexivity.
  - apply (earnings_dates_exact sample_env_full "AAPL" sample_handle_full world0 _
             sample_env_full_sets_ok eq_refl ltac:(vm_compute; reflexivity) jun01).
    right. vm_compute. left. reflexivity.
Defined.

Lemma ex_dividend_dates_sources_witness :
  exists info,
    fst (fetch_info_for_ticker sample_env_full "AAPL" world0) = Ok info
    /\ In may10 (ex_dividend_dates info).
Proof.
  eexists. split; [vm_compute; reflexivity|].
  apply (proj1 (proj2
           (ex_dividend_dates_sources sample_env_full "AAPL" sample_handle_full world0 _
              sample_env_full_sets_ok eq_refl ltac:(vm_compute; reflexivity)))).
  vm_compute. left. reflexivity.
Defined.

Lemma dividends_history_sources_witness :
  exists info,
    fst (fetch_info_for_ticker sample_env_full "AAPL" world0) = Ok info
    /\ exists a', In (jun30, a') (dividends_history info)
                  /\ (a' = f_half \/ feqb a' f_half = true).
Proof.
  eexists. split; [vm_compute; reflexivity|].
  apply (proj2
           (dividends_history_sources sample_env_full "AAPL" sample_handle_full world0 _
              sample_env_full_sets_ok eq_refl ltac:(vm_compute; reflexivity))
           [(PyTimestamp (Ok (at_midnight jun30)), PyFloat f_half)] eq_refl)
    with (item := (PyTimestamp (Ok (at_midnight jun30)), PyFloat f_half)).
  - intros i [<-|[]] _. exists f_half. reflexivity.
  - left. reflexivity.
  - reflexivity.
  - reflexivity.
Defined.

Lemma all_sources_failing_witness :
  fetch_info_for_ticker sample_env_failing "XXXX" world0
  = (Ok (mkticker_info None [] [] []),
     mkworld [LogInfoFailed "XXXX" KeyError; LogCalendarFailed "XXXX" ValueError;
              LogEarningsFailed "XXXX" TypeError; LogDividendsFailed "XXXX" AttributeError;
              LogActionsFailed "XXXX" (OtherError "timeout")] []).
Proof.
  apply (all_sources_failing sample_env_failing "XXXX" sample_handle_failing
           KeyError ValueError TypeError AttributeError (OtherError "timeout") world0
           sample_env_failing_sets_ok); reflexivity.
Defined.

(** ** The holdings loop: when it returns *)



(** ** The main program *)

Lemma days_in_month_bounds (y m : Z) : 28 <= days_in_month y m <= 31.
Proof.
  unfold days_in_month.
  destruct (m =? 2); [destruct (is_leap y); lia|].
  destruct ((m =? 4) || (m =? 6) || (m =? 9) || (m =? 11)); lia.
Qed.

(** X20. The window of the program is three months either side of today: both
    bounds exist, are calendar dates, and today lies strictly between
    them. *)
Theorem main_window_contains_today (today : date) :
  valid_date today -> 2 <= year today <= 9998 ->
  exists s e,
    shift_months today (-3) = Ok s /\ shift_months today 3 = Ok e
    /\ valid_date s /\ valid_date e
    /\ date_ltb s today = true /\ date_ltb today e = true.
Proof.
  intros (Hy & Hm & Hd) Hyear. unfold shift_months.
  assert (Hlt : forall a b, date_compare a b = Lt -> date_ltb a b = true)
    by (intros a b H; unfold date_ltb; rewrite H; reflexivity).
  destruct (Z.ltb_spec 12 (month today + -3)) as [H1|H1]; [lia|].
  destruct (Z.ltb_spec 12 (month today + 3)) as [H2|H2];
    destruct (Z.ltb_spec (month today + -3) 1) as [H3|H3];
    destruct (Z.ltb_spec (month today + 3) 1) as [H4|H4]; try lia.
  all: repeat match goal with
       | |- context [?a <=? ?b] => destruct (Z.leb_spec a b); try lia
       end; cbn [andb].
  all: eexists; eexists; split; [reflexivity|]; split; [reflexivity|].
  all: repeat match goal with
       | |- context [days_in_month ?y ?m] =>
           lazymatch goal with
           | _ : 28 <= days_in_month y m <= 31 |- _ => fail
           | _ => pose proof (days_in_month_bounds y m)
           end
       end.
  all: split; [unfold valid_date; cbn [year month day]; lia|].
  all: split; [unfold valid_date; cbn [year month day]; lia|].
  all: split; apply Hlt, date_compare_lt; cbn [year month day]; lia.
Qed.

Lemma main_window_contains_today_witness :
  exists s e,
    shift_months sample_today (-3) = Ok s /\ shift_months sample_today 3 = Ok e
    /\ valid_date s /\ valid_date e
    /\ date_ltb s sample_today = true /\ date_ltb sample_today e = true.
Proof.
  apply (main_window_contains_today sample_today).
  - unfold valid_date, sample_today. cbn [year month day].
    change (days_in_month 2024 5) with 31. lia.
  - unfold sample_today. cbn [year]. lia.
Defined.







(** ** The withholding table and the calculator *)

Lemma rate_for_cases (country : string) :
  In (rate_for country)
     [float_lit 19 2; float_lit 30 2; F0; float_lit 128 3; float_lit 15 2].
Proof.
  unfold rate_for, dict_get_default, FOREIGN_WITHHOLDING. cbn [dict_get].
  repeat match goal with
         | |- context [str_eqb ?k country] => destruct (str_eqb k country)
         end;
    vm_compute; auto 10.
Qed.

Lemma rate_for_is_a_rate (country : string) :
  nonneg_finite (rate_for country) = true /\ SFleb (rate_for country) F1 = true.
Proof.
  pose proof (rate_for_cases country) as H. simpl in H.
  destruct H as [<-|[<-|[<-|[<-|[<-|[]]]]]]; split; vm_compute; reflexivity.
Qed.

(** X15. Whatever the country code, listed or not, the rate withheld at source
    is a rate between 0 and 1; so for every finite gross amount that is not
    negative the four fields of the breakdown are not negative, and neither
    the net nor the withholding exceeds the gross amount. *)
Theorem withholding_table_keeps_net_in_range (country : string) (g : float) :
  nonneg_finite g = true ->
  let b := compute_net g (rate_for country) SPANISH_RATE in
  SFleb F0 (gross_total b) = true
  /\ SFleb F0 (withholding_foreign b) = true
  /\ SFleb F0 (spanish_tax_to_pay b) = true
  /\ SFleb F0 (net_total b) = true
  /\ SFleb (withholding_foreign b) (gross_total b) = true
  /\ SFleb (net_total b) (gross_total b) = true.
Proof.
  intros Hg b. destruct (rate_for_is_a_rate country) as [Hf Hf1].
  destruct (compute_net_raw_bounds g (rate_for country) SPANISH_RATE Hg Hf
              eq_refl Hf1 eq_refl) as (Nw & Nt & Nn & Lw & Lt & Ln).
  unfold b, compute_net. cbn [gross_total withholding_foreign spanish_tax_to_pay net_total].
  repeat split; try (apply round6_nonneg; assumption);
    apply round6_mono; assumption.
Qed.

Lemma withholding_table_keeps_net_in_range_witness :
  SFleb (net_total (compute_net f_55 (rate_for "FR") SPANISH_RATE))
        (gross_total (compute_net f_55 (rate_for "FR") SPANISH_RATE)) = true.
Proof.
  apply (withholding_table_keeps_net_in_range "FR" f_55). reflexivity.
Defined.

(** X16. For the countries of the table that withhold at least the Spanish
    rate (ES, US and SE) nothing is left to pay in Spain, whatever the
    amount: the top-up field is [0.0]. *)
Theorem no_topup_where_source_covers (country : string) (g : float) :
  In country ["ES"; "US"; "SE"]%string ->
  is_float64 g = true -> SFleb F0 g = true ->
  spanish_tax_to_pay (compute_net g (rate_for country) SPANISH_RATE) = F0.
Proof.
  intros Hc Hg Hg0. unfold compute_net. cbn [spanish_tax_to_pay].
  rewrite topup_raw_zero; [reflexivity | exact Hg | | reflexivity | exact Hg0 |];
    simpl in Hc; destruct Hc as [<-|[<-|[<-|[]]]]; vm_compute; reflexivity.
Qed.

Lemma no_topup_where_source_covers_witness :
  spanish_tax_to_pay (compute_net f_55 (rate_for "US") SPANISH_RATE) = F0.
Proof.
  apply (no_topup_where_source_covers "US" f_55); [simpl; auto | reflexivity | reflexivity].
Defined.

(** ** The holdings loop: requests to the FX service *)







(** ** The holdings loop: a row that fails *)

(** An integer of the 64-bit range converts to a float. *)
Lemma float_of_int_small (n : Z) :
  - 2 ^ 63 <= n <= 2 ^ 63 -> exists a, float_of_int n = Ok a.
Proof.
  intros Hn.
  assert (Hpos : forall s p, Zpos p <= 2 ^ 63 ->
            forall s', binary_round prec64 emax64 s p 0 <> S754_infinity s').
  { intros s p Hp s' Hinf.
    assert (Hrho : rho s (4 * (Zpos p * 2 ^ (0 - K64))) = S754_infinity s').
    { unfold rho.
      rewrite <- (binary_round_base prec64 emax64 K64 K64_le_emin)
        by (unfold K64; lia).
      exact Hinf. }
    clear Hinf. rename Hrho into Hinf.
    assert (Hle : SFleb (rho false (4 * (Zpos p * 2 ^ (0 - K64))))
                        (rho false (4 * (Zpos (2 ^ 52) * 2 ^ (11 - K64)))) = true).
    { apply rho_mono. pose proof (pow2_pos (0 - K64) ltac:(unfold K64; lia)) as HB.
      assert (H11 : 2 ^ (11 - K64) = 2 ^ 11 * 2 ^ (0 - K64))
        by (rewrite <- pow2_add by (unfold K64; lia); f_equal; lia).
      assert (H63 : Zpos (2 ^ 52) * 2 ^ 11 = 2 ^ 63) by reflexivity.
      rewrite H11. set (B := 2 ^ (0 - K64)) in *.
      split; [nia|].
      apply Z.mul_le_mono_nonneg_l; [lia|].
      rewrite Z.mul_assoc, H63.
      apply Z.mul_le_mono_nonneg_r; lia. }
    rewrite (rho_representable false (2 ^ 52) 11 eq_refl) in Hle.
    assert (Hfin : forall s0, rho false (4 * (Zpos p * 2 ^ (0 - K64)))
                              <> S754_infinity s0).
    { intros s0 Hi.
      pose proof (rho_has_sign false (4 * (Zpos p * 2 ^ (0 - K64)))) as Hs.
      pose proof (pow2_pos (0 - K64) ltac:(unfold K64; lia)).
      specialize (Hs ltac:(nia)). rewrite Hi in Hs, Hle. simpl in Hs. subst s0.
      discriminate Hle. }
    destruct s.
    - change true with (negb false) in Hinf. rewrite rho_opp in Hinf.
      destruct (rho false (4 * (Zpos p * 2 ^ (0 - K64)))) as [s0|s0| |s0 m0 e0] eqn:Hrho;
        simpl in Hinf; try discriminate.
      apply (Hfin s0). reflexivity.
    - apply (Hfin s'). exact Hinf. }
  unfold float_of_int, float_of_Z, binary_normalize.
  destruct n as [|p|p].
  - eexists; reflexivity.
  - destruct (binary_round prec64 emax64 false p 0) as [s|s| |s m e] eqn:Hr;
      try (eexists; reflexivity).
    exfalso. apply (Hpos false p ltac:(lia) s). exact Hr.
  - destruct (binary_round prec64 emax64 true p 0) as [s|s| |s m e] eqn:Hr;
      try (eexists; reflexivity).
    exfalso. apply (Hpos true p ltac:(lia) s). exact Hr.
Qed.

Lemma process_holding_outcome (E : env) (row : holding_row) (s s1 : build_state)
    (r : result unit) :
  - 2 ^ 63 <= row_cantidad row <= 2 ^ 63 ->
  process_holding E row s = (r, s1) ->
  r = Ok tt \/ b_events s1 = b_events s.
Proof.
  intros Hq Hrun. destruct (float_of_int_small _ Hq) as [shares Hsh].
  assert (Hstop : forall (x : result unit) (s0 : build_state),
            (x, s0) = (r, s1) -> b_events s0 = b_events s ->
            r = Ok tt \/ b_events s1 = b_events s).
  { intros x s0 Heq Hev. injection Heq as <- <-. right; exact Hev. }
  unfold process_holding in Hrun.
  unfold bind at 1 in Hrun. unfold lift at 1 in Hrun.
  destruct (required_strip (row_ticker row)) as [ticker|e0];
    [|apply (Hstop _ _ Hrun); reflexivity].
  unfold bind at 1 in Hrun. cbn [modify] in Hrun.
  destruct (str_eqb ticker EmptyString); [apply (Hstop _ _ Hrun); reflexivity|].
  unfold bind at 1 in Hrun. unfold lift at 1 in Hrun.
  destruct (optional_strip_upper (row_country row)) as [country|e0];
    [|apply (Hstop _ _ Hrun); reflexivity].
  unfold bind at 1 in Hrun. unfold lift at 1 in Hrun.
  destruct (optional_strip_upper (row_market row)) as [market|e0];
    [|apply (Hstop _ _ Hrun); reflexivity].
  destruct (row_cantidad row =? 0); [apply (Hstop _ _ Hrun); reflexivity|].
  unfold bind at 1 in Hrun. cbn [modify] in Hrun.
  unfold bind at 1 in Hrun. unfold in_world at 1 in Hrun.
  cbn [build_print bind_ticker b_world b_events b_ticker] in Hrun.
  destruct (fetch_info_for_ticker E ticker _) as [[info|e0] w1];
    [|apply (Hstop _ _ Hrun); reflexivity].
  unfold bind at 1 in Hrun. unfold in_world at 1 in Hrun.
  cbn [b_world b_events b_ticker] in Hrun.
  destruct (get_fx_rate E _ EUR w1) as [[fx|e0] w2];
    [|apply (Hstop _ _ Hrun); reflexivity].
  unfold bind at 1 in Hrun. rewrite for_each_add_events in Hrun.
  unfold bind at 1 in Hrun.
  rewrite (for_each_dividend_events shares (row_cantidad row)
             (fun sh item => dividend_event _ _ _ _ _ _ _
                (compute_net (fmul (fmul (fmul (snd item) sh) _) _) _ SPANISH_RATE)
                (fst item) (snd item)) _ _ Hsh) in Hrun.
  rewrite for_each_add_events in Hrun. injection Hrun as <- _. left; reflexivity.
Qed.

(** X23. A holding is built whole or not at all.  With a quantity of the 64-bit
    range, the only steps of a row that can raise come before its first
    event: when the row raises, the event list is as it was, and the
    [except] clause leaves it so. *)
Theorem failed_holding_adds_no_event (E : env) (row : holding_row) (s : build_state)
    (e : exc) :
  - 2 ^ 63 <= row_cantidad row <= 2 ^ 63 ->
  fst (process_holding E row s) = Raise e ->
  b_events (snd (process_holding E row s)) = b_events s
  /\ b_events (snd (try_except (process_holding E row) holding_handler s)) = b_events s.
Proof.
  intros Hq Hr.
  assert (Hh : forall e s0, b_events (snd (holding_handler e s0)) = b_events s0).
  { intros e0 s0. unfold holding_handler, bind, get. destruct (b_ticker s0); reflexivity. }
  unfold try_except.
  destruct (process_holding E row s) as [r s1] eqn:Hrun. cbn [fst snd] in *.
  destruct (process_holding_outcome E row s s1 r Hq Hrun) as [->|Hev];
    [discriminate|].
  subst r. split; [exact Hev | rewrite Hh; exact Hev].
Qed.

Lemma failed_holding_adds_no_event_witness :
  b_events (snd (try_except (process_holding sample_env_refusing holding_aapl)
                   holding_handler (mkbuild [sample_exdiv] None world0)))
  = [sample_exdiv].
Proof.
  apply (failed_holding_adds_no_event sample_env_refusing holding_aapl
           (mkbuild [sample_exdiv] None world0) (OtherError "unknown ticker")).
  - unfold holding_aapl. cbn [row_cantidad]. lia.
  - reflexivity.
Defined.
